(** * sql-to-go: the CREATE TABLE parser and the Go code generator

    A shallow embedding of [converter.go].  Go strings are byte strings and
    are embedded as [string] (one [ascii] per byte); Go [int] values are
    embedded as [Z].  A Go function that may return an error or stop with a
    run-time panic (a slice or index expression out of range, a negative
    repeat count) returns a [result].

    The Go library functions used by the converter ([strings.ToUpper],
    [strings.TrimSpace], [strings.Fields], the [regexp] matcher ...) are
    embedded with their behaviour on ASCII text, byte by byte, and so are the
    loops of the converter that range over a string.  On bytes above 127 the
    library decodes UTF-8 and consults Unicode tables that this development
    does not carry: the embedding is exact on ASCII text ([asciiText]), and
    a property that depends on what the library does with other bytes is
    stated for ASCII text. *)

From Stdlib Require Import Strings.String Strings.Ascii ZArith List Bool Lia.
Import ListNotations.

Open Scope char_scope.
Open Scope list_scope.
Open Scope string_scope.
Open Scope Z_scope.

(** ** Errors, panics and the result monad *)

(** The errors built by [fmt.Errorf] in the converter; [errorText] gives each
    one its Go text. *)
Inductive error : Type :=
| NoTableName
| NoColumnBlock
| NoClosingParen
| NoValidColumns
| InvalidColumn (line : string)
| UnknownType (line : string)
| ParseColumnsFailed (cause : error).

Fixpoint errorText (e : error) : string :=
  match e with
  | NoTableName => "failed to extract table name from SQL"
  | NoColumnBlock => "failed to extract column definitions"
  | NoClosingParen => "failed to find closing parenthesis"
  | NoValidColumns => "no valid columns found"
  | InvalidColumn line => "invalid column definition: " ++ line
  | UnknownType line => "could not extract data type from: " ++ line
  | ParseColumnsFailed cause => "failed to parse columns: " ++ errorText cause
  end.

(** What a call does: it returns a value, returns an error, or panics. *)
Inductive result (A : Type) : Type :=
| Ok (a : A)
| Err (e : error)
| Panic.

Arguments Ok {A} a.
Arguments Err {A} e.
Arguments Panic {A}.

Definition bind {A B : Type} (c : result A) (k : A -> result B) : result B :=
  match c with
  | Ok a => k a
  | Err e => Err e
  | Panic => Panic
  end.

Notation "x <- c ;; k" := (bind c (fun x => k))
  (at level 61, c at next level, right associativity).
Notation "' pat <- c ;; k" := (bind c (fun x => match x with pat => k end))
  (at level 61, pat pattern, c at next level, right associativity).

(** ** Bytes *)

Definition code (c : ascii) : Z := Z.of_N (N_of_ascii c).

Definition between (lo hi c : ascii) : bool :=
  (code lo <=? code c) && (code c <=? code hi).

Definition isUpperAZ (c : ascii) : bool := between "A" "Z" c.
Definition isLowerAZ (c : ascii) : bool := between "a" "z" c.
Definition isDigit (c : ascii) : bool := between "0" "9" c.

(** [r + 32] on an upper-case letter, [r - 32] on a lower-case one. *)
Definition shift (d : Z) (c : ascii) : ascii :=
  ascii_of_N (Z.to_N (code c + d)).

Definition toLowerByte (c : ascii) : ascii :=
  if isUpperAZ c then shift 32 c else c.
Definition toUpperByte (c : ascii) : ascii :=
  if isLowerAZ c then shift (-32) c else c.

Definition tab : ascii := "009".
Definition newline : ascii := "010".
Definition vtab : ascii := "011".
Definition formfeed : ascii := "012".
Definition creturn : ascii := "013".
Definition dquote : ascii := "034".

(** [unicode.IsSpace] on ASCII: the white space of [strings.TrimSpace] and
    [strings.Fields]. *)
Definition isSpace (c : ascii) : bool :=
  between tab creturn c || (c =? " ")%char.

(** The class [\s] of Go regular expressions: tab, newline, form feed,
    carriage return and space (no vertical tab). *)
Definition reSpace (c : ascii) : bool :=
  isSpace c && negb (c =? vtab)%char.

(** The word characters of [\b]. *)
Definition isWord (c : ascii) : bool :=
  isUpperAZ c || isLowerAZ c || isDigit c || (c =? "_")%char.

(** ** Strings *)

Definition len (s : string) : Z := Z.of_nat (String.length s).

Fixpoint take (n : nat) (s : string) : string :=
  match n, s with
  | S n', String c s' => String c (take n' s')
  | _, _ => ""
  end.

Fixpoint drop (n : nat) (s : string) : string :=
  match n, s with
  | S n', String _ s' => drop n' s'
  | _, _ => s
  end.

(** [s[i:]], [s[:j]] and [s[i:j]]: out of range, Go panics. *)
Definition slice_from (s : string) (i : Z) : result string :=
  if (0 <=? i) && (i <=? len s) then Ok (drop (Z.to_nat i) s) else Panic.

Definition slice_to (s : string) (j : Z) : result string :=
  if (0 <=? j) && (j <=? len s) then Ok (take (Z.to_nat j) s) else Panic.

Definition slice (s : string) (i j : Z) : result string :=
  if (0 <=? i) && (i <=? j) && (j <=? len s)
  then Ok (take (Z.to_nat (j - i)) (drop (Z.to_nat i) s))
  else Panic.

(** [s[i]]. *)
Definition byte_at (s : string) (i : Z) : result ascii :=
  if (0 <=? i) && (i <? len s)
  then match drop (Z.to_nat i) s with
       | String c _ => Ok c
       | EmptyString => Panic
       end
  else Panic.

(** The functions of the Go package [strings] that the converter calls. *)
Module strings.

Definition smap (f : ascii -> ascii) : string -> string :=
  fix go (s : string) : string :=
    match s with
    | EmptyString => EmptyString
    | String c s' => String (f c) (go s')
    end.

(** [strings.ToUpper] and [strings.ToLower] on ASCII text: the letters a-z
    and A-Z change case, byte by byte, and the length stays the same.  On
    other text Go also maps the letters outside ASCII, which can change the
    length in bytes (U+0250, two bytes, becomes U+2C6F, three bytes), and
    turns a byte that is no UTF-8 into U+FFFD; none of this is embedded. *)
Definition ToUpper : string -> string := smap toUpperByte.
Definition ToLower : string -> string := smap toLowerByte.

Definition HasPrefix (s p : string) : bool := prefix p s.

(** [strings.Index]: the index of the first occurrence of [sub], or -1. *)
Fixpoint Index (s sub : string) : Z :=
  if prefix sub s then 0
  else match s with
       | EmptyString => -1
       | String _ s' => let i := Index s' sub in if i <? 0 then -1 else i + 1
       end.

Definition Contains (s sub : string) : bool := 0 <=? Index s sub.

Fixpoint trimLeft (s : string) : string :=
  match s with
  | String c s' => if isSpace c then trimLeft s' else s
  | EmptyString => EmptyString
  end.

Fixpoint trimRight (s : string) : string :=
  match s with
  | String c s' =>
      match trimRight s' with
      | EmptyString => if isSpace c then EmptyString else String c EmptyString
      | t => String c t
      end
  | EmptyString => EmptyString
  end.

(** [strings.TrimSpace] on ASCII text.  On other text Go also trims the
    white space of Unicode outside ASCII (U+0085, U+00A0 ...), which is not
    embedded. *)
Definition TrimSpace (s : string) : string := trimRight (trimLeft s).

(** [strings.Fields] on ASCII text: the maximal runs of bytes that are not
    white space.  On other text Go also splits at the white space of Unicode
    outside ASCII (U+00A0 ...), which is not embedded. *)
Fixpoint Fields (s : string) : list string :=
  match s with
  | EmptyString => []
  | String c s' =>
      if isSpace c then Fields s'
      else match s' with
           | EmptyString => [String c EmptyString]
           | String c' _ =>
               if isSpace c' then String c EmptyString :: Fields s'
               else match Fields s' with
                    | w :: ws => String c w :: ws
                    | [] => [String c EmptyString]
                    end
           end
  end.

Fixpoint Join (parts : list string) (sep : string) : string :=
  match parts with
  | [] => ""
  | [p] => p
  | p :: ps => p ++ sep ++ Join ps sep
  end.

(** [strings.Split] with a separator of one byte. *)
Fixpoint Split (s : string) (sep : ascii) : list string :=
  match s with
  | EmptyString => [EmptyString]
  | String c s' =>
      if (c =? sep)%char then EmptyString :: Split s' sep
      else match Split s' sep with
           | p :: ps => String c p :: ps
           | [] => [String c EmptyString]
           end
  end.

(** [strings.Repeat]: a negative count panics. *)
Definition Repeat (s : string) (count : Z) : result string :=
  if count <? 0 then Panic
  else Ok (Nat.iter (Z.to_nat count) (fun acc => s ++ acc) "").

End strings.

(** ** Regular expressions

    The patterns of the converter use repetition on character classes only,
    so the matcher is a structural recursion on the pattern, written in
    continuation-passing style.  It tries the alternatives in the order of
    a backtracking search (greedy repetition first, the left branch of an
    alternation first), which is the match that Go's [regexp] reports. *)

Module regexp.

Inductive regex : Type :=
| Eps
| Cls (p : ascii -> bool)
| Star (p : ascii -> bool)
| Seq (r1 r2 : regex)
| Alt (r1 r2 : regex)
| Group (n : nat) (r : regex)
| Bot
| Eot
| WordB.

(** The groups matched so far, the most recent first. *)
Definition captures : Type := list (nat * string).

(** A continuation receives the byte before the current position (none at
    the beginning of the text), the rest of the text and the captures. *)
Definition cont : Type := option ascii -> string -> captures -> option captures.

Definition orElse (a b : option captures) : option captures :=
  match a with
  | Some m => Some m
  | None => b
  end.

Fixpoint star (p : ascii -> bool) (prev : option ascii) (s : string)
    (caps : captures) (k : cont) : option captures :=
  match s with
  | String c s' =>
      if p c then orElse (star p (Some c) s' caps k) (k prev s caps)
      else k prev s caps
  | EmptyString => k prev s caps
  end.

Definition wordBefore (prev : option ascii) : bool :=
  match prev with
  | Some c => isWord c
  | None => false
  end.

Definition wordAfter (s : string) : bool :=
  match s with
  | String c _ => isWord c
  | EmptyString => false
  end.

Fixpoint exec (r : regex) (prev : option ascii) (s : string)
    (caps : captures) (k : cont) : option captures :=
  match r with
  | Eps => k prev s caps
  | Cls p =>
      match s with
      | String c s' => if p c then k (Some c) s' caps else None
      | EmptyString => None
      end
  | Star p => star p prev s caps k
  | Seq r1 r2 =>
      exec r1 prev s caps (fun prev' s' caps' => exec r2 prev' s' caps' k)
  | Alt r1 r2 => orElse (exec r1 prev s caps k) (exec r2 prev s caps k)
  | Group n r1 =>
      exec r1 prev s caps (fun prev' s' caps' =>
        k prev' s' ((n, take (String.length s - String.length s') s) :: caps'))
  | Bot =>
      match prev with
      | None => k prev s caps
      | Some _ => None
      end
  | Eot =>
      match s with
      | EmptyString => k prev s caps
      | String _ _ => None
      end
  | WordB => if xorb (wordBefore prev) (wordAfter s) then k prev s caps else None
  end.

(** The leftmost match: the first position at which the pattern matches. *)
Fixpoint search (re : regex) (prev : option ascii) (s : string) : option captures :=
  match exec re prev s [] (fun _ _ caps => Some caps) with
  | Some m => Some m
  | None =>
      match s with
      | String c s' => search re (Some c) s'
      | EmptyString => None
      end
  end.

Fixpoint lookup (n : nat) (caps : captures) : string :=
  match caps with
  | (m, v) :: rest => if Nat.eqb n m then v else lookup n rest
  | [] => ""
  end.

(** [re.FindStringSubmatch(s)] for a pattern with [groups] groups: the empty
    list (nil) when there is no match, else the match and the text of each
    group (empty for a group that took no part). *)
Definition FindStringSubmatch (re : regex) (groups : nat) (s : string) : list string :=
  match search (Group 0 re) None s with
  | Some caps => map (fun i => lookup i caps) (seq 0 (S groups))
  | None => []
  end.

Definition MatchString (re : regex) (s : string) : bool :=
  match search re None s with
  | Some _ => true
  | None => false
  end.

(** Pattern syntax. *)
Definition chr (c : ascii) : regex := Cls (fun x => (x =? c)%char).

(** One byte of a literal under the flag [(?i)], on ASCII text: the byte in
    either letter case.  Go folds case over Unicode, so that on other text
    [s] also matches U+017F and [k] U+212A, in a literal and in the class
    [[a-zA-Z0-9_]]; this is not embedded. *)
Definition ichr (c : ascii) : regex :=
  Cls (fun x => (toLowerByte x =? toLowerByte c)%char).

Fixpoint str (s : string) : regex :=
  match s with
  | EmptyString => Eps
  | String c s' => Seq (chr c) (str s')
  end.

(** A literal under the flag [(?i)]. *)
Fixpoint istr (s : string) : regex :=
  match s with
  | EmptyString => Eps
  | String c s' => Seq (ichr c) (istr s')
  end.

Definition plus (p : ascii -> bool) : regex := Seq (Cls p) (Star p).
Definition opt (r : regex) : regex := Alt r Eps.

Fixpoint seqs (rs : list regex) : regex :=
  match rs with
  | [] => Eps
  | [r] => r
  | r :: rs' => Seq r (seqs rs')
  end.

Definition never : regex := Cls (fun _ => false).

Fixpoint alts (rs : list regex) : regex :=
  match rs with
  | [] => never
  | [r] => r
  | r :: rs' => Alt r (alts rs')
  end.

Definition anyByte (c : ascii) : bool := true.
Definition notCloseParen (c : ascii) : bool := negb (c =? ")")%char.
Definition identByte (c : ascii) : bool := isWord c.
Definition quoteByte (c : ascii) : bool :=
  (c =? "`")%char || (c =? dquote)%char || (c =? "'")%char.

End regexp.

Import regexp.

(** ** The pre-compiled patterns *)

(** [(?i)CREATE\s+TABLE\s+(?:IF\s+NOT\s+EXISTS\s+)?[`"']?([a-zA-Z0-9_]+)[`"']?\s*\(] *)
Definition tableNameRegex : regex :=
  seqs [ istr "CREATE"; plus reSpace; istr "TABLE"; plus reSpace;
         opt (seqs [ istr "IF"; plus reSpace; istr "NOT"; plus reSpace;
                     istr "EXISTS"; plus reSpace ]);
         opt (Cls quoteByte);
         Group 1 (plus identByte);
         opt (Cls quoteByte);
         Star reSpace;
         chr "(" ].

(** [\(([\s\S]+)\)\s*(?:ENGINE|DEFAULT|AUTO_INCREMENT|COMMENT|;|$)] *)
Definition columnBlockRegex : regex :=
  seqs [ chr "(";
         Group 1 (plus anyByte);
         chr ")";
         Star reSpace;
         alts [ str "ENGINE"; str "DEFAULT"; str "AUTO_INCREMENT";
                str "COMMENT"; str ";"; Eot ] ].

(** The type keywords, in the order of the alternation. *)
Definition typeKeywords : list string :=
  [ "TINYINT"; "SMALLINT"; "MEDIUMINT"; "INT"; "INTEGER"; "BIGINT"; "FLOAT";
    "DOUBLE"; "DECIMAL"; "NUMERIC"; "CHAR"; "VARCHAR"; "TEXT"; "TINYTEXT";
    "MEDIUMTEXT"; "LONGTEXT"; "DATETIME"; "TIMESTAMP"; "DATE"; "TIME";
    "BOOLEAN"; "BOOL"; "BLOB"; "TINYBLOB"; "MEDIUMBLOB"; "LONGBLOB"; "JSON";
    "ENUM"; "SET" ].

(** [(?i)^(TINYINT|...|SET)(?:\s*\(([^)]+)\))?(?:\s+(UNSIGNED))?] *)
Definition typeRegex : regex :=
  seqs [ Bot;
         Group 1 (alts (map istr typeKeywords));
         opt (seqs [ Star reSpace; chr "("; Group 2 (plus notCloseParen); chr ")" ]);
         opt (seqs [ plus reSpace; Group 3 (istr "UNSIGNED") ]) ].

(** [(?i)\bNOT\s+NULL\b] *)
Definition notNullRegex : regex :=
  seqs [ WordB; istr "NOT"; plus reSpace; istr "NULL"; WordB ].

(** ** The data model *)

Record Config : Type := {
  AddJSONTag : bool;
  AddGormTag : bool;
  AddXMLTag : bool;
  AddDBTag : bool
}.

Module FieldDef.
Record t : Type := mk {
  Name : string;
  Type_ : string;
  ColumnName : string
}.
End FieldDef.

Module StructDef.
Record t : Type := mk {
  Name : string;
  Fields : list FieldDef.t
}.
End StructDef.

(** ** The parser *)

(** [space.ReplaceAllString(s, " ")] for the pattern [\s+]: every maximal run
    of [\s] bytes becomes one space.  [inRun] tells that the byte before was
    part of the run being replaced. *)
Fixpoint collapseSpace (inRun : bool) (s : string) : string :=
  match s with
  | EmptyString => EmptyString
  | String c s' =>
      if reSpace c
      then if inRun then collapseSpace true s' else String " " (collapseSpace true s')
      else String c (collapseSpace false s')
  end.

Definition normalizeWhitespace (s : string) : string := collapseSpace false s.

(** The body of the loop of [toPascalCase] for one part. *)
Definition pascalPart (result part : string) : string :=
  match part with
  | String c rest =>
      let result := result ++ strings.ToUpper (String c EmptyString) in
      match rest with
      | String _ _ => result ++ strings.ToLower rest
      | EmptyString => result
      end
  | EmptyString => result
  end.

Definition toPascalCase (s : string) : string :=
  let parts := strings.Split s "_" in
  fold_left pascalPart parts "".

Fixpoint splitColumns_loop (rest : string) (result : list string)
    (current : string) (parenCount : Z) : list string :=
  match rest with
  | EmptyString =>
      if 0 <? len current then result ++ [current] else result
  | String char rest' =>
      if (char =? "(")%char then
        splitColumns_loop rest' result (current ++ String char "") (parenCount + 1)
      else if (char =? ")")%char then
        splitColumns_loop rest' result (current ++ String char "") (parenCount - 1)
      else if (char =? ",")%char then
        if parenCount =? 0
        then splitColumns_loop rest' (result ++ [current]) "" parenCount
        else splitColumns_loop rest' result (current ++ String char "") parenCount
      else splitColumns_loop rest' result (current ++ String char "") parenCount
  end.

Definition splitColumns (columnBlock : string) : list string :=
  splitColumns_loop columnBlock [] "" 0.

(** The loop of [findMatchingParen]: [rest] is [s[i:]]. *)
Fixpoint findMatchingParen_loop (rest : string) (i count : Z) : Z :=
  match rest with
  | EmptyString => -1
  | String c rest' =>
      if (c =? "(")%char then findMatchingParen_loop rest' (i + 1) (count + 1)
      else if (c =? ")")%char then
        if count - 1 =? 0 then i
        else findMatchingParen_loop rest' (i + 1) (count - 1)
      else findMatchingParen_loop rest' (i + 1) count
  end.

Definition findMatchingParen (s : string) (start : Z) : Z :=
  findMatchingParen_loop (drop (Z.to_nat (start + 1)) s) (start + 1) 1.

Definition constraintKeywords : list string :=
  [ "PRIMARY KEY"; "FOREIGN KEY"; "UNIQUE KEY"; "KEY "; "INDEX ";
    "CONSTRAINT"; "CHECK " ].

Definition isConstraint (line : string) : bool :=
  let upperLine := strings.ToUpper line in
  existsb (fun keyword => strings.HasPrefix upperLine keyword) constraintKeywords.

(** The quoted branch of [extractColumnName]: the name up to the closing
    [quote], and the trimmed rest. *)
Definition quotedColumnName (line quote : string) : result (string * string) :=
  tail <- slice_from line 1 ;;
  let end_ := strings.Index tail quote in
  if end_ =? -1 then Ok ("", "")
  else
    columnName <- slice line 1 (end_ + 1) ;;
    rest <- slice_from line (end_ + 2) ;;
    Ok (columnName, strings.TrimSpace rest).

Definition extractColumnName (line : string) : result (string * string) :=
  let line := strings.TrimSpace line in
  if (line =? "")%string then Ok ("", "")
  else
    first <- byte_at line 0 ;;
    if (first =? "`")%char then quotedColumnName line "`"
    else if (first =? dquote)%char then quotedColumnName line (String dquote "")
    else
      match strings.Fields line with
      | name :: (_ :: _) as rest => Ok (name, strings.Join rest " ")
      | _ => Ok ("", "")
      end.

Definition extractDataType (definition : string) : string :=
  match regexp.FindStringSubmatch typeRegex 3 definition with
  | [] => ""
  | matches =>
      let dataType := strings.ToUpper (nth 1 matches "") in
      let size := nth 2 matches "" in
      if (dataType =? "TINYINT")%string && (size =? "1")%string
      then "TINYINT(1)"
      else dataType
  end.

Definition oneOf (s : string) (l : list string) : bool :=
  existsb (String.eqb s) l.

Definition mapSQLTypeToGo (sqlType : string) (nullable unsigned : bool) : string :=
  let sqlType := strings.ToUpper sqlType in
  let pointer (baseType : string) := if nullable then "*" ++ baseType else baseType in
  if oneOf sqlType ["TINYINT(1)"; "BOOLEAN"; "BOOL"] then pointer "bool"
  else if oneOf sqlType ["TINYINT"] then
    pointer (if unsigned then "uint8" else "int8")
  else if oneOf sqlType ["SMALLINT"] then
    pointer (if unsigned then "uint16" else "int16")
  else if oneOf sqlType ["MEDIUMINT"; "INT"; "INTEGER"] then
    pointer (if unsigned then "uint32" else "int")
  else if oneOf sqlType ["BIGINT"] then
    pointer (if unsigned then "uint64" else "int64")
  else if oneOf sqlType ["FLOAT"; "DOUBLE"; "DECIMAL"; "NUMERIC"] then
    pointer "float64"
  else if oneOf sqlType
            ["CHAR"; "VARCHAR"; "TEXT"; "TINYTEXT"; "MEDIUMTEXT"; "LONGTEXT"; "JSON"]
  then pointer "string"
  else if oneOf sqlType ["DATETIME"; "TIMESTAMP"; "DATE"; "TIME"] then
    pointer "time.Time"
  else if oneOf sqlType ["BLOB"; "TINYBLOB"; "MEDIUMBLOB"; "LONGBLOB"] then
    "[]byte"
  else pointer "string".

(** The DEFAULT branch of [removeCommentsAndDefaults]; [line] is the text
    already cut at COMMENT and [idx] the index of DEFAULT in the upper-cased
    original. *)
Definition removeDefault (line : string) (idx : Z) : result string :=
  rest <- slice_from line (idx + 7) ;;
  let rest := strings.TrimSpace rest in
  let quoted :=
    match rest with
    | String c _ => (c =? "'")%char || (c =? dquote)%char
    | EmptyString => false
    end in
  if (0 <? len rest) && quoted then
    quote <- byte_at rest 0 ;;
    tail <- slice_from rest 1 ;;
    let endIdx := strings.Index tail (String quote "") in
    if negb (endIdx =? -1) then
      before <- slice_to line idx ;;
      after <- slice_from rest (endIdx + 2) ;;
      Ok (before ++ after)
    else slice_to line idx
  else
    let words := strings.Fields rest in
    if (0 <? length words)%nat then slice_to line idx else Ok line.

Definition removeCommentsAndDefaults (line : string) : result string :=
  let upperLine := strings.ToUpper line in
  line <- (let idx := strings.Index upperLine "COMMENT" in
           if negb (idx =? -1) then slice_to line idx else Ok line) ;;
  line <- (let idx := strings.Index upperLine "DEFAULT" in
           if negb (idx =? -1) then removeDefault line idx else Ok line) ;;
  Ok (strings.TrimSpace line).

Definition parseColumnDefinition (line : string) : result FieldDef.t :=
  let line := strings.TrimSpace line in
  '(columnName, restOfLine) <- extractColumnName line ;;
  if (columnName =? "")%string then Err (InvalidColumn line)
  else
    let dataType := extractDataType restOfLine in
    if (dataType =? "")%string then Err (UnknownType line)
    else
      checkLine <- removeCommentsAndDefaults restOfLine ;;
      let isNullable := negb (regexp.MatchString notNullRegex checkLine) in
      let isUnsigned := strings.Contains (strings.ToUpper restOfLine) "UNSIGNED" in
      let goType := mapSQLTypeToGo dataType isNullable isUnsigned in
      Ok (FieldDef.mk (toPascalCase columnName) goType columnName).

(** The loop of [parseColumns].  A clause that fails to parse is logged and
    skipped; the log line is not part of the model. *)
Fixpoint parseColumns_loop (lines : list string) (fields : list FieldDef.t)
    : result (list FieldDef.t) :=
  match lines with
  | [] => Ok fields
  | line :: lines' =>
      let line := strings.TrimSpace line in
      if (line =? "")%string then parseColumns_loop lines' fields
      else if isConstraint line then parseColumns_loop lines' fields
      else
        match parseColumnDefinition line with
        | Ok field => parseColumns_loop lines' (fields ++ [field])
        | Err _ => parseColumns_loop lines' fields
        | Panic => Panic
        end
  end.

Definition parseColumns (columnBlock : string) : result (list FieldDef.t) :=
  let lines := splitColumns columnBlock in
  fields <- parseColumns_loop lines [] ;;
  if (length fields =? 0)%nat then Err NoValidColumns else Ok fields.

(** The column block of [ParseSQL]: the first group of [columnBlockRegex],
    or, when the pattern does not match, the text between the first open
    parenthesis and its matching close. *)
Definition columnBlockOf (sql : string) : result string :=
  let columnMatches := regexp.FindStringSubmatch columnBlockRegex 1 sql in
  columnMatches <-
    (if (length columnMatches <? 2)%nat then
       let start := strings.Index sql "(" in
       if start =? -1 then Err NoColumnBlock
       else
         let end_ := findMatchingParen sql start in
         if end_ =? -1 then Err NoClosingParen
         else
           block <- slice sql (start + 1) end_ ;;
           Ok [""; block]
     else Ok columnMatches) ;;
  if (length columnMatches <? 2)%nat then Err NoColumnBlock
  else Ok (nth 1 columnMatches "").

Definition ParseSQL (sql : string) : result (list StructDef.t) :=
  let sql := strings.TrimSpace sql in
  let sql := normalizeWhitespace sql in
  let matches := regexp.FindStringSubmatch tableNameRegex 1 sql in
  if (length matches <? 2)%nat then Err NoTableName
  else
    let tableName := nth 1 matches "" in
    let structName := toPascalCase tableName in
    columnBlock <- columnBlockOf sql ;;
    match parseColumns columnBlock with
    | Ok fields => Ok [StructDef.mk structName fields]
    | Err err => Err (ParseColumnsFailed err)
    | Panic => Panic
    end.

(** ** The generator *)

Fixpoint isLowerSnakeCase (s : string) : bool :=
  match s with
  | EmptyString => true
  | String r s' => if isUpperAZ r then false else isLowerSnakeCase s'
  end.

(** The separator written before the upper-case letter at index [i] of [s]:
    an underscore at a camelCase boundary, else nothing. *)
Definition boundary (s : string) (i : Z) : result string :=
  if 0 <? i then
    before <- byte_at s (i - 1) ;;
    if negb (before =? "_")%char then
      let prevIsLower := isLowerAZ before in
      nextIsLower <-
        (if i + 1 <? len s
         then next <- byte_at s (i + 1) ;; Ok (isLowerAZ next)
         else Ok false) ;;
      Ok (if prevIsLower || nextIsLower then "_" else "")
    else Ok ""
  else Ok "".

(** The loop of [toSnakeCase] over the bytes [rest] of [s] from index [i],
    [out] being the builder. *)
Fixpoint toSnakeCase_loop (s : string) (i : Z) (rest out : string) : result string :=
  match rest with
  | EmptyString => Ok out
  | String r rest' =>
      out <- (if isUpperAZ r then
                sep <- boundary s i ;;
                Ok (out ++ sep ++ String (shift 32 r) "")
              else Ok (out ++ String r "")) ;;
      toSnakeCase_loop s (i + 1) rest' out
  end.

Definition toSnakeCase (s : string) : result string :=
  if (s =? "")%string then Ok s
  else if isLowerSnakeCase s then Ok s
  else toSnakeCase_loop s 0 s "".

Definition needsTimeImport (defs : list StructDef.t) : bool :=
  existsb
    (fun def =>
       existsb (fun field => strings.Contains (FieldDef.Type_ field) "time.Time")
         (StructDef.Fields def))
    defs.

Definition calculateAlignment (fields : list FieldDef.t) : Z * Z :=
  fold_left
    (fun '(maxNameLen, maxTypeLen) field =>
       (if maxNameLen <? len (FieldDef.Name field)
        then len (FieldDef.Name field) else maxNameLen,
        if maxTypeLen <? len (FieldDef.Type_ field)
        then len (FieldDef.Type_ field) else maxTypeLen))
    fields (0, 0).

(** The built-in [append(l, x)]. *)
Definition append {A : Type} (l : list A) (x : A) : list A := (l ++ [x])%list.

Definition quoted (s : string) : string :=
  String dquote "" ++ s ++ String dquote "".

Definition generateStructTags (columnName : string) (config : Config) : result string :=
  normalizedName <- toSnakeCase columnName ;;
  let tags : list string := [] in
  let tags := if AddJSONTag config
              then append tags ("json:" ++ quoted normalizedName) else tags in
  let tags := if AddDBTag config
              then append tags ("db:" ++ quoted normalizedName) else tags in
  let tags := if AddGormTag config
              then append tags ("gorm:" ++ quoted ("column:" ++ normalizedName)) else tags in
  let tags := if AddXMLTag config
              then append tags ("xml:" ++ quoted normalizedName) else tags in
  Ok (strings.Join tags " ").

Definition lineEnd : string := String newline "".

(** The field loop of [generateStruct]; [output] is the builder. *)
Fixpoint generateFields (fields : list FieldDef.t) (config : Config)
    (maxNameLen maxTypeLen : Z) (output : string) : result string :=
  match fields with
  | [] => Ok output
  | field :: fields' =>
      namePad <- strings.Repeat " " (maxNameLen - len (FieldDef.Name field) + 1) ;;
      let output :=
        output ++ String tab "" ++ FieldDef.Name field ++ namePad
               ++ FieldDef.Type_ field in
      tags <- generateStructTags (FieldDef.ColumnName field) config ;;
      output <-
        (if negb (tags =? "")%string then
           typePad <- strings.Repeat " " (maxTypeLen - len (FieldDef.Type_ field) + 1) ;;
           Ok (output ++ typePad ++ "`" ++ tags ++ "`")
         else Ok output) ;;
      generateFields fields' config maxNameLen maxTypeLen (output ++ lineEnd)
  end.

Definition generateStruct (def : StructDef.t) (config : Config) : result string :=
  let output := "type " ++ StructDef.Name def ++ " struct {" ++ lineEnd in
  if (length (StructDef.Fields def) =? 0)%nat then Ok (output ++ "}" ++ lineEnd)
  else
    let '(maxNameLen, maxTypeLen) := calculateAlignment (StructDef.Fields def) in
    output <- generateFields (StructDef.Fields def) config maxNameLen maxTypeLen output ;;
    Ok (output ++ "}" ++ lineEnd).

(** The struct loop of [GenerateGoCode]; [i] is the index of the next
    definition. *)
Fixpoint generateStructs (defs : list StructDef.t) (config : Config) (i : Z)
    (output : string) : result string :=
  match defs with
  | [] => Ok output
  | def :: defs' =>
      let output := if 0 <? i then output ++ lineEnd else output in
      text <- generateStruct def config ;;
      generateStructs defs' config (i + 1) (output ++ text)
  end.

Definition GenerateGoCode (defs : list StructDef.t) (config : Config) : result string :=
  if (length defs =? 0)%nat then Ok ""
  else
    let needsTime := needsTimeImport defs in
    let output := "package main" ++ lineEnd ++ lineEnd in
    let output :=
      if needsTime then output ++ "import " ++ quoted "time" ++ lineEnd ++ lineEnd
      else output in
    generateStructs defs config 0 output.

(** ** Notions used by the properties *)

Definition noTags : Config :=
  {| AddJSONTag := false; AddGormTag := false; AddXMLTag := false; AddDBTag := false |}.

(** Every byte is ASCII (below 128). *)
Fixpoint asciiText (s : string) : bool :=
  match s with
  | EmptyString => true
  | String c s' => (code c <? 128) && asciiText s'
  end.

(** [kw] is a prefix of [s], letter case apart (the comparison of [ichr]). *)
Fixpoint iprefix (kw s : string) : bool :=
  match kw, s with
  | EmptyString, _ => true
  | String c kw', String x s' =>
      (toLowerByte x =? toLowerByte c)%char && iprefix kw' s'
  | String _ _, EmptyString => false
  end.

(** The tail of a clause does not begin with a keyword of the type
    vocabulary. *)
Definition outsideVocabulary (tail : string) : bool :=
  forallb (fun kw => negb (iprefix kw tail)) typeKeywords.

(** The type names that have a case of their own in the switch of
    [mapSQLTypeToGo]. *)
Definition switchCases : list string :=
  [ "TINYINT(1)"; "BOOLEAN"; "BOOL"; "TINYINT"; "SMALLINT"; "MEDIUMINT"; "INT";
    "INTEGER"; "BIGINT"; "FLOAT"; "DOUBLE"; "DECIMAL"; "NUMERIC"; "CHAR";
    "VARCHAR"; "TEXT"; "TINYTEXT"; "MEDIUMTEXT"; "LONGTEXT"; "JSON";
    "DATETIME"; "TIMESTAMP"; "DATE"; "TIME"; "BLOB"; "TINYBLOB"; "MEDIUMBLOB";
    "LONGBLOB" ].

Fixpoint hasByte (p : ascii -> bool) (s : string) : bool :=
  match s with
  | EmptyString => false
  | String c s' => p c || hasByte p s'
  end.





(** A clause with a column name and a type token outside the vocabulary. *)
Definition unknownTypeClause (clause : string) : Prop :=
  exists name tail,
    extractColumnName (strings.TrimSpace clause) = Ok (name, tail) /\
    (name =? "")%string = false /\
    outsideVocabulary tail = true.

(** Text without an open parenthesis. *)
Definition isOpenParen (c : ascii) : bool := (c =? "(")%char.

Definition noOpenParen (s : string) : Prop := hasByte isOpenParen s = false.

(** A pattern that must read an open parenthesis. *)
Definition needsOpenParen (r : regex) : Prop :=
  forall prev s caps (k : cont), noOpenParen s -> exec r prev s caps k = None.

(** Text that does not begin with white space. *)
Definition startsClean (s : string) : Prop :=
  match s with
  | String c _ => isSpace c = false
  | EmptyString => True
  end.

(** ** Notions used by the further properties *)

Fixpoint allBytes (p : ascii -> bool) (s : string) : bool :=
  match s with
  | EmptyString => true
  | String c s' => p c && allBytes p s'
  end.

(** What a successful run of the matcher has done: [matched r s s' c c'] says
    that the pattern [r] has read the text [s] down to its suffix [s'] and
    turned the captures [c] into [c'].  (The anchors at the beginning of the
    text and at word boundaries are not recorded.) *)
Fixpoint matched (r : regex) (s s' : string) (c c' : captures) : Prop :=
  match r with
  | Eps => s' = s /\ c' = c
  | Cls p => exists x, s = String x s' /\ p x = true /\ c' = c
  | Star p => exists w, s = w ++ s' /\ allBytes p w = true /\ c' = c
  | Seq r1 r2 => exists s1 c1, matched r1 s s1 c c1 /\ matched r2 s1 s' c1 c'
  | Alt r1 r2 => matched r1 s s' c c' \/ matched r2 s s' c c'
  | Group n r1 =>
      exists c1, matched r1 s s' c c1 /\
        c' = (n, take (String.length s - String.length s') s) :: c1
  | Bot => s' = s /\ c' = c
  | Eot => s = EmptyString /\ s' = EmptyString /\ c' = c
  | WordB => s' = s /\ c' = c
  end.

(** A pattern without groups. *)
Fixpoint groupFree (r : regex) : bool :=
  match r with
  | Seq r1 r2 | Alt r1 r2 => groupFree r1 && groupFree r2
  | Group _ _ => false
  | _ => true
  end.

(** The clause that makes the column parser panic: its name and type are
    accepted, and its tail has DEFAULT ending after the start of COMMENT. *)
Definition panickingClause (clause : string) : Prop :=
  exists name tail,
    extractColumnName clause = Ok (name, tail) /\
    (name =? "")%string = false /\
    (extractDataType tail =? "")%string = false /\
    0 <= strings.Index (strings.ToUpper tail) "COMMENT" /\
    0 <= strings.Index (strings.ToUpper tail) "DEFAULT" /\
    strings.Index (strings.ToUpper tail) "COMMENT"
    < strings.Index (strings.ToUpper tail) "DEFAULT" + 7.

(** The fields that the clauses give, clause by clause: nothing for a blank
    clause, a constraint or a clause that fails to parse. *)
Definition clauseFields (lines : list string) : list FieldDef.t :=
  flat_map
    (fun clause =>
       let line := strings.TrimSpace clause in
       if (line =? "")%string then []
       else if isConstraint line then []
       else match parseColumnDefinition line with
            | Ok field => [field]
            | _ => []
            end)
    lines.

(** The pieces, each followed by a comma. *)
Fixpoint closeEach (parts : list string) : string :=
  match parts with
  | [] => EmptyString
  | p :: ps => p ++ "," ++ closeEach ps
  end.

Definition isParen (c : ascii) : bool := (c =? "(")%char || (c =? ")")%char.
Definition isComma (c : ascii) : bool := (c =? ",")%char.

(** The open parentheses of a text minus its close parentheses. *)
Fixpoint balance (s : string) : Z :=
  match s with
  | EmptyString => 0
  | String c s' =>
      (if (c =? "(")%char then 1 else if (c =? ")")%char then -1 else 0) + balance s'
  end.

Definition isUnderscore (c : ascii) : bool := (c =? "_")%char.

Fixpoint dropUnderscores (s : string) : string :=
  match s with
  | EmptyString => EmptyString
  | String c s' => if isUnderscore c then dropUnderscores s' else String c (dropUnderscores s')
  end.

(** One part of a name in Pascal case: the first byte in upper case, the
    others in lower case. *)
Definition capitalize (part : string) : string :=
  match part with
  | EmptyString => EmptyString
  | String c rest => String (toUpperByte c) (strings.ToLower rest)
  end.

(** The Go types that the type mapper gives to a column that is not
    nullable. *)
Definition goBaseTypes : list string :=
  [ "bool"; "int8"; "uint8"; "int16"; "uint16"; "int"; "uint32"; "int64";
    "uint64"; "float64"; "string"; "time.Time"; "[]byte" ].

(** The integer types of SQL, the only ones for which UNSIGNED matters. *)
Definition integerTypes : list string :=
  [ "TINYINT"; "SMALLINT"; "MEDIUMINT"; "INT"; "INTEGER"; "BIGINT" ].

(** The Go types of the integer types of SQL: the signed one and the
    unsigned one. *)
Definition integerGoTypes : list (string * (string * string)) :=
  [ ("TINYINT", ("int8", "uint8")); ("SMALLINT", ("int16", "uint16"));
    ("MEDIUMINT", ("int", "uint32")); ("INT", ("int", "uint32"));
    ("INTEGER", ("int", "uint32")); ("BIGINT", ("int64", "uint64")) ].

(** A pattern without a group numbered [n]. *)
Fixpoint noGroup (n : nat) (r : regex) : bool :=
  match r with
  | Seq r1 r2 | Alt r1 r2 => noGroup n r1 && noGroup n r2
  | Group m r1 => negb (Nat.eqb n m) && noGroup n r1
  | _ => true
  end.

(** A continuation that never fails. *)
Definition neverFails (k : cont) : Prop :=
  forall prev s caps, k prev s caps <> None.

(** A pattern without anchors: on such a pattern [matched] says all that
    the matcher asks of the text. *)
Fixpoint anchorFree (r : regex) : bool :=
  match r with
  | Seq r1 r2 | Alt r1 r2 => anchorFree r1 && anchorFree r2
  | Group _ r1 => anchorFree r1
  | Bot | WordB => false
  | _ => true
  end.

(** The continuation at the end of a pattern. *)
Definition final : cont := fun _ _ caps => Some caps.

(** The words of the header of a CREATE TABLE statement, as the table-name
    pattern reads them: [w] is the keyword [kw] in some letter case; a
    non-empty run of white space; at most one quote character. *)
Definition isKeyword (kw w : string) : Prop := strings.ToUpper w = kw.

Definition blanks (w : string) : Prop :=
  w <> EmptyString /\ allBytes reSpace w = true.

Definition optionalQuote (q : string) : Prop :=
  q = EmptyString \/ exists x, q = String x EmptyString /\ quoteByte x = true.

Definition ifNotExists (w : string) : Prop :=
  w = EmptyString \/
  exists i w1 n w2 e w3,
    w = i ++ w1 ++ n ++ w2 ++ e ++ w3 /\
    isKeyword "IF" i /\ blanks w1 /\ isKeyword "NOT" n /\ blanks w2 /\
    isKeyword "EXISTS" e /\ blanks w3.

(** [h] is the header of a CREATE TABLE statement for the table [name]: the
    text from CREATE up to the open parenthesis of the column block, with
    [name] a non-empty run of letters, digits and underscores. *)
Definition tableHeader (h name : string) : Prop :=
  exists c w1 t w2 ine q0 q ws,
    h = c ++ w1 ++ t ++ w2 ++ ine ++ q0 ++ name ++ q ++ ws /\
    isKeyword "CREATE" c /\ blanks w1 /\ isKeyword "TABLE" t /\ blanks w2 /\
    ifNotExists ine /\ optionalQuote q0 /\
    name <> EmptyString /\ allBytes identByte name = true /\
    optionalQuote q /\ allBytes reSpace ws = true.

Fixpoint concatAll (parts : list string) : string :=
  match parts with
  | [] => EmptyString
  | p :: ps => p ++ concatAll ps
  end.

Definition isBlank (c : ascii) : bool := (c =? " ")%char.

(** The tags of a field in the fixed order of the generator: JSON, DB, ORM
    and XML, each one only when its flag is set. *)
Definition tagIf (flag : bool) (tag : string) : list string :=
  if flag then [tag] else [].

Definition enabledTags (name : string) (config : Config) : list string :=
  List.app (tagIf (AddJSONTag config) ("json:" ++ quoted name))
    (List.app (tagIf (AddDBTag config) ("db:" ++ quoted name))
       (List.app (tagIf (AddGormTag config) ("gorm:" ++ quoted ("column:" ++ name)))
          (tagIf (AddXMLTag config) ("xml:" ++ quoted name)))).

Definition noFlag (config : Config) : bool :=
  negb (AddJSONTag config || AddDBTag config || AddGormTag config || AddXMLTag config).

(** One line of a generated declaration: the name of [field] padded up to
    the column [nameWidth + 2], its type and, when there are tags, the type
    padded up to [typeWidth + 1] bytes and the tags between back quotes. *)
Definition alignedLine (nameWidth typeWidth : Z) (config : Config)
    (field : FieldDef.t) (line : string) : Prop :=
  exists namePad tagPart,
    line = String tab (FieldDef.Name field) ++ namePad ++ FieldDef.Type_ field
           ++ tagPart ++ lineEnd /\
    allBytes isBlank namePad = true /\
    1 + len (FieldDef.Name field) + len namePad = nameWidth + 2 /\
    exists tags,
      generateStructTags (FieldDef.ColumnName field) config = Ok tags /\
      ((tags = EmptyString /\ tagPart = EmptyString) \/
       (tags <> EmptyString /\
        exists typePad,
          tagPart = typePad ++ "`" ++ tags ++ "`" /\
          allBytes isBlank typePad = true /\
          len (FieldDef.Type_ field) + len typePad = typeWidth + 1)).

(** The lines before the declarations in the generated text. *)
Definition header (defs : list StructDef.t) : string :=
  "package main" ++ lineEnd ++ lineEnd ++
  (if needsTimeImport defs then "import " ++ quoted "time" ++ lineEnd ++ lineEnd
   else EmptyString).

(** A fact about every byte, checked on each of the 256 bytes. *)
Ltac by_bytes c := destruct c as [[] [] [] [] [] [] [] []]; vm_compute; try reflexivity; try discriminate; auto.

(** ** Evaluations: the tests of the repository and the examples of the
    specification *)

Example strings_library :
  strings.Fields "  a  b c " = ["a"; "b"; "c"] /\
  strings.Split "_a__b" "_" = [""; "a"; ""; "b"] /\
  strings.TrimSpace "  a b  " = "a b" /\
  strings.Index "hello world" "o w" = 4 /\
  strings.Index "hello" "z" = -1 /\
  normalizeWhitespace (String tab (String newline " a  b")) = " a b".
Proof. vm_compute. repeat split. Qed.

Example typeRegex_matches :
  regexp.FindStringSubmatch typeRegex 3 "DECIMAL(10, 2) NOT NULL"
  = ["DECIMAL(10, 2)"; "DECIMAL"; "10, 2"; ""] /\
  regexp.FindStringSubmatch typeRegex 3 "int  unsigned"
  = ["int  unsigned"; "int"; ""; "unsigned"] /\
  regexp.FindStringSubmatch typeRegex 3 "INTEGER" = ["INT"; "INT"; ""; ""] /\
  regexp.FindStringSubmatch typeRegex 3 " INT" = [] /\
  extractDataType "tinyint(1) NOT NULL" = "TINYINT(1)".
Proof. vm_compute. repeat split. Qed.

Example columnBlockRegex_skips_table_options :
  regexp.FindStringSubmatch columnBlockRegex 1
    "CREATE TABLE p (id INT, n VARCHAR(5)) ENGINE=InnoDB COMMENT='a (b)';"
  = ["(id INT, n VARCHAR(5)) ENGINE"; "id INT, n VARCHAR(5)"] /\
  splitColumns "a INT, b DECIMAL(10,2), c ENUM('x','y'),"
  = ["a INT"; " b DECIMAL(10,2)"; " c ENUM('x','y')"].
Proof. vm_compute. repeat split. Qed.

Example notNullRegex_whole_words :
  regexp.MatchString notNullRegex "INT not   null" = true /\
  regexp.MatchString notNullRegex "INT NOT NULLABLE" = false /\
  regexp.MatchString notNullRegex "INT KNOT NULL" = false.
Proof. vm_compute. repeat split. Qed.

Example toPascalCase_tests :
  map toPascalCase
    [ "user_id"; "first_name"; "USER_PROFILE"; "a_b_c_d"; "single";
      "_leading_underscore"; "trailing_underscore_" ]
  = [ "UserId"; "FirstName"; "UserProfile"; "ABCD"; "Single";
      "LeadingUnderscore"; "TrailingUnderscore" ].
Proof. vm_compute. reflexivity. Qed.

Example ParseSQL_error_cases :
  ParseSQL "" = Err NoTableName /\
  ParseSQL "CREATE TABLE ()" = Err NoTableName /\
  ParseSQL "INVALID SQL STATEMENT" = Err NoTableName /\
  ParseSQL "Halo ini bukan SQL" = Err NoTableName /\
  ParseSQL "CREATE TABLE users ()" = Err (ParseColumnsFailed NoValidColumns) /\
  ParseSQL "CREATE TABLE t (id INT" = Err NoClosingParen.
Proof. vm_compute. repeat split. Qed.

Example ParseSQL_blob_and_unsigned :
  ParseSQL "CREATE TABLE files (id INT NOT NULL, content BLOB, n TINYINT UNSIGNED, ok TINYINT(1) NOT NULL DEFAULT 0)"
  = Ok [ StructDef.mk "Files"
           [ FieldDef.mk "Id" "int" "id";
             FieldDef.mk "Content" "[]byte" "content";
             FieldDef.mk "N" "*uint8" "n";
             FieldDef.mk "Ok" "bool" "ok" ] ].
Proof. vm_compute. reflexivity. Qed.

Example ParseSQL_skips_constraints_and_options :
  ParseSQL "CREATE TABLE orders (id INT NOT NULL, total DECIMAL(10,2) NOT NULL, PRIMARY KEY (id), INDEX idx_user_id (user_id), CONSTRAINT chk_total CHECK (total >= 0)) ENGINE=InnoDB DEFAULT CHARSET=utf8mb4;"
  = Ok [ StructDef.mk "Orders"
           [ FieldDef.mk "Id" "int" "id";
             FieldDef.mk "Total" "float64" "total" ] ].
Proof. vm_compute. reflexivity. Qed.

Example nullable_despite_comment :
  parseColumnDefinition "tricky TEXT COMMENT 'NOT NULL'"
  = Ok (FieldDef.mk "Tricky" "*string" "tricky") /\
  parseColumnDefinition "x INT NOT NULL" = Ok (FieldDef.mk "X" "int" "x").
Proof. vm_compute. split; reflexivity. Qed.

Example keyword_prefix_is_enough :
  parseColumnDefinition "d INTERVAL NOT NULL" = Ok (FieldDef.mk "D" "int" "d") /\
  parseColumnDefinition "s ENUM('a','b') NOT NULL" = Ok (FieldDef.mk "S" "string" "s").
Proof. vm_compute. split; reflexivity. Qed.

(** ** Bytes and strings: basic facts *)

Lemma shift_not_upper (r : ascii) : isUpperAZ r = true -> isUpperAZ (shift 32 r) = false.
Proof. by_bytes r. Qed.

Lemma length_append (a b : string) :
  String.length (a ++ b) = (String.length a + String.length b)%nat.
Proof. induction a as [|c a IH]; simpl; [reflexivity | now rewrite IH]. Qed.

Lemma len_append (a b : string) : len (a ++ b) = len a + len b.
Proof. unfold len. rewrite length_append. lia. Qed.

Lemma len_nonneg (s : string) : 0 <= len s.
Proof. unfold len. lia. Qed.

Lemma append_empty_r (s : string) : s ++ "" = s.
Proof. induction s as [|c s IH]; simpl; [reflexivity | now rewrite IH]. Qed.

Lemma append_assoc (a b c : string) : (a ++ b) ++ c = a ++ b ++ c.
Proof. induction a as [|x a IH]; simpl; [reflexivity | now rewrite IH]. Qed.

Lemma drop_in_range (n : nat) (s : string) :
  (n < String.length s)%nat -> exists c t, drop n s = String c t.
Proof.
  revert s. induction n as [|n IH]; intros [|c s] H; simpl in *; try lia.
  - now exists c, s.
  - apply IH. lia.
Qed.

Lemma byte_at_in_range (s : string) (i : Z) :
  0 <= i < len s -> exists c, byte_at s i = Ok c.
Proof.
  intros H. unfold byte_at.
  replace ((0 <=? i) && (i <? len s)) with true
    by (symmetry; apply andb_true_iff; split; [apply Z.leb_le | apply Z.ltb_lt]; lia).
  destruct (drop_in_range (Z.to_nat i) s) as (c & t & E).
  - unfold len in H. lia.
  - rewrite E. now exists c.
Qed.

(** ** The any-case to snake converter *)

Lemma isLowerSnakeCase_append (a b : string) :
  isLowerSnakeCase (a ++ b) = isLowerSnakeCase a && isLowerSnakeCase b.
Proof.
  induction a as [|c a IH]; simpl; [reflexivity|].
  destruct (isUpperAZ c); [reflexivity | apply IH].
Qed.

Lemma boundary_in_range (s : string) (i : Z) :
  0 <= i < len s ->
  exists sep, boundary s i = Ok sep /\ isLowerSnakeCase sep = true.
Proof.
  intros H. unfold boundary.
  destruct (0 <? i) eqn:Hi; [|now exists ""].
  apply Z.ltb_lt in Hi.
  destruct (byte_at_in_range s (i - 1)) as (p & Ep); [lia|].
  rewrite Ep. simpl.
  destruct (negb (p =? "_")%char); [|now exists ""].
  destruct (i + 1 <? len s) eqn:Hn.
  - apply Z.ltb_lt in Hn.
    destruct (byte_at_in_range s (i + 1)) as (n & En); [lia|].
    rewrite En. simpl.
    destruct (isLowerAZ p || isLowerAZ n); eexists; split; reflexivity.
  - simpl. destruct (isLowerAZ p || false); eexists; split; reflexivity.
Qed.

Lemma toSnakeCase_loop_lower (s rest : string) :
  forall (i : Z) (out : string),
    0 <= i -> i + len rest = len s -> isLowerSnakeCase out = true ->
    exists y, toSnakeCase_loop s i rest out = Ok y /\ isLowerSnakeCase y = true.
Proof.
  induction rest as [|r rest IH]; intros i out Hi Hlen Hout; simpl.
  - now exists out.
  - assert (Hr : len (String r rest) = 1 + len rest) by (unfold len; cbn [String.length]; lia).
    pose proof (len_nonneg rest) as Hn.
    destruct (isUpperAZ r) eqn:Hup.
    + destruct (boundary_in_range s i) as (sep & Es & Hsep); [lia|].
      rewrite Es. simpl. apply IH; try lia.
      rewrite !isLowerSnakeCase_append, Hout, Hsep. simpl.
      now rewrite (shift_not_upper r Hup).
    + simpl. apply IH; try lia.
      rewrite isLowerSnakeCase_append, Hout. simpl. now rewrite Hup.
Qed.

Lemma toSnakeCase_lower (x : string) :
  exists y, toSnakeCase x = Ok y /\ isLowerSnakeCase y = true.
Proof.
  unfold toSnakeCase.
  destruct (x =? "")%string eqn:E.
  - apply String.eqb_eq in E. subst x. now exists "".
  - destruct (isLowerSnakeCase x) eqn:L; [now exists x|].
    apply toSnakeCase_loop_lower; [lia | lia | reflexivity].
Qed.

Lemma toSnakeCase_fixes_lower (y : string) :
  isLowerSnakeCase y = true -> toSnakeCase y = Ok y.
Proof.
  intros L. unfold toSnakeCase. rewrite L. now destruct (y =? "")%string.
Qed.

(** C6. The any-case to snake converter never panics and is idempotent: for
    every string x it returns a string y, and on y it returns y again; and it
    turns UserID into user_id. *)
Theorem toSnakeCase_idempotent :
  (forall x : string, exists y : string,
      toSnakeCase x = Ok y /\ toSnakeCase y = Ok y) /\
  toSnakeCase "UserID" = Ok "user_id".
Proof.
  split.
  - intros x. destruct (toSnakeCase_lower x) as (y & E & L).
    exists y. split; [exact E | now apply toSnakeCase_fixes_lower].
  - vm_compute. reflexivity.
Qed.

(** ** The generator never panics *)

Lemma Repeat_in_range (s : string) (count : Z) :
  0 <= count -> exists pad, strings.Repeat s count = Ok pad.
Proof.
  intros H. unfold strings.Repeat.
  destruct (count <? 0) eqn:E; [apply Z.ltb_lt in E; lia | eauto].
Qed.

Lemma generateStructTags_returns (columnName : string) (config : Config) :
  exists tags, generateStructTags columnName config = Ok tags.
Proof.
  unfold generateStructTags.
  destruct (toSnakeCase_lower columnName) as (y & E & _).
  rewrite E. simpl. eauto.
Qed.

(** The running maxima of [calculateAlignment] only grow, and bound every
    field seen. *)
Lemma calculateAlignment_bounds (fields : list FieldDef.t) :
  forall n0 t0 n t,
    fold_left
      (fun '(maxNameLen, maxTypeLen) field =>
         (if maxNameLen <? len (FieldDef.Name field)
          then len (FieldDef.Name field) else maxNameLen,
          if maxTypeLen <? len (FieldDef.Type_ field)
          then len (FieldDef.Type_ field) else maxTypeLen))
      fields (n0, t0) = (n, t) ->
    n0 <= n /\ t0 <= t /\
    forall f, In f fields ->
      len (FieldDef.Name f) <= n /\ len (FieldDef.Type_ f) <= t.
Proof.
  induction fields as [|g fields IH]; intros n0 t0 n t H; simpl in H.
  - inversion H; subst. split; [lia | split; [lia | intros f []]].
  - apply IH in H. destruct H as (Hn & Ht & Hall).
    destruct (n0 <? len (FieldDef.Name g)) eqn:En;
      destruct (t0 <? len (FieldDef.Type_ g)) eqn:Et;
      try apply Z.ltb_lt in En; try apply Z.ltb_ge in En;
      try apply Z.ltb_lt in Et; try apply Z.ltb_ge in Et;
      (split; [lia | split; [lia | intros f [<- | Hf]; [lia | now apply Hall]]]).
Qed.

Lemma generateFields_returns (config : Config) (n t : Z) (fields : list FieldDef.t) :
  forall output,
    (forall f, In f fields ->
       len (FieldDef.Name f) <= n /\ len (FieldDef.Type_ f) <= t) ->
    exists text, generateFields fields config n t output = Ok text.
Proof.
  induction fields as [|field fields IH]; intros output Hall; simpl.
  - eauto.
  - destruct (Hall field (or_introl eq_refl)) as (Hn & Ht).
    destruct (Repeat_in_range " " (n - len (FieldDef.Name field) + 1)) as (p1 & E1); [lia|].
    destruct (Repeat_in_range " " (t - len (FieldDef.Type_ field) + 1)) as (p2 & E2); [lia|].
    destruct (generateStructTags_returns (FieldDef.ColumnName field) config) as (tags & Et).
    rewrite E1. simpl. rewrite Et. simpl.
    destruct (negb (tags =? "")%string).
    + rewrite E2. simpl. apply IH. intros f Hf. apply Hall. now right.
    + simpl. apply IH. intros f Hf. apply Hall. now right.
Qed.

Lemma generateStruct_returns (def : StructDef.t) (config : Config) :
  exists text, generateStruct def config = Ok text.
Proof.
  unfold generateStruct.
  destruct (length (StructDef.Fields def) =? 0)%nat; [eauto|].
  destruct (calculateAlignment (StructDef.Fields def)) as (n, t) eqn:E.
  apply calculateAlignment_bounds in E. destruct E as (_ & _ & Hall).
  destruct (generateFields_returns config n t (StructDef.Fields def)
              ("type " ++ StructDef.Name def ++ " struct {" ++ lineEnd) Hall) as (text & Et).
  rewrite Et. simpl. eauto.
Qed.

Lemma generateStructs_returns (config : Config) (defs : list StructDef.t) :
  forall i output, exists text, generateStructs defs config i output = Ok text.
Proof.
  induction defs as [|def defs IH]; intros i output; simpl.
  - eauto.
  - destruct (generateStruct_returns def config) as (text & Et).
    rewrite Et. simpl. apply IH.
Qed.

(** C7. Generate never fails: for every record list and configuration it
    returns a text (no panic, no error); on the empty record list the text is
    empty; a record with no field still gets its type declaration, with an
    empty body. *)
Theorem GenerateGoCode_never_fails :
  (forall (defs : list StructDef.t) (config : Config),
      exists text, GenerateGoCode defs config = Ok text) /\
  (forall config : Config, GenerateGoCode [] config = Ok "") /\
  (forall (name : string) (config : Config),
      generateStruct (StructDef.mk name []) config
      = Ok ("type " ++ name ++ " struct {" ++ lineEnd ++ "}" ++ lineEnd) /\
      GenerateGoCode [StructDef.mk name []] config
      = Ok ("package main" ++ lineEnd ++ lineEnd ++
            "type " ++ name ++ " struct {" ++ lineEnd ++ "}" ++ lineEnd)).
Proof.
  split; [|split].
  - intros defs config. unfold GenerateGoCode.
    destruct (length defs =? 0)%nat; [eauto | apply generateStructs_returns].
  - reflexivity.
  - intros name config. split.
    + unfold generateStruct. simpl. now rewrite !append_assoc.
    + unfold GenerateGoCode, generateStruct. simpl. now rewrite !append_assoc.
Qed.

(** ** The snake to Pascal converter *)

Lemma prefix_single (c x : ascii) (s : string) :
  prefix (String c "") (String x s) = (x =? c)%char.
Proof.
  simpl. destruct (ascii_dec c x) as [->|N].
  - rewrite Ascii.eqb_refl. now destruct s.
  - symmetry. apply Ascii.eqb_neq. congruence.
Qed.

(** [strings.Index] with a needle of one byte finds nothing exactly when the
    byte does not occur. *)
Lemma Index_single_absent (c : ascii) (s : string) :
  strings.Index s (String c "") < 0 <-> hasByte (fun x => (x =? c)%char) s = false.
Proof.
  induction s as [|x s IH].
  - simpl. split; [reflexivity | lia].
  - cbn [strings.Index hasByte]. rewrite prefix_single.
    destruct (x =? c)%char; simpl.
    + split; [lia | discriminate].
    + destruct (strings.Index s (String c "") <? 0) eqn:E.
      * apply Z.ltb_lt in E. split; [intros _; now apply IH | lia].
      * apply Z.ltb_ge in E. split; [lia | intros H; apply IH in H; lia].
Qed.

Lemma Index_range (s sub : string) : -1 <= strings.Index s sub.
Proof.
  induction s as [|x s IH]; cbn [strings.Index].
  - destruct (prefix sub ""); lia.
  - destruct (prefix sub (String x s)); [lia|].
    destruct (strings.Index s sub <? 0) eqn:E; [lia | apply Z.ltb_ge in E; lia].
Qed.

Lemma Contains_single (c : ascii) (s : string) :
  strings.Contains s (String c "") = hasByte (fun x => (x =? c)%char) s.
Proof.
  unfold strings.Contains.
  destruct (hasByte (fun x => (x =? c)%char) s) eqn:H.
  - apply Z.leb_le. destruct (Z.lt_ge_cases (strings.Index s (String c "")) 0) as [L|G]; [|lia].
    apply Index_single_absent in L. congruence.
  - apply Z.leb_gt. now apply Index_single_absent.
Qed.

Lemma Split_absent (sep : ascii) (s : string) :
  hasByte (fun x => (x =? sep)%char) s = false -> strings.Split s sep = [s].
Proof.
  induction s as [|x s IH]; simpl; [reflexivity|].
  intros H. apply orb_false_iff in H. destruct H as (Hx & Hs).
  rewrite Hx, (IH Hs). reflexivity.
Qed.

(** On one segment the converter upper-cases the first byte and lower-cases
    the others. *)
Lemma toPascalCase_segment (x : string) :
  hasByte (fun c => (c =? "_")%char) x = false ->
  toPascalCase x =
  match x with
  | String c rest => String (toUpperByte c) (strings.ToLower rest)
  | EmptyString => EmptyString
  end.
Proof.
  intros H. unfold toPascalCase. rewrite (Split_absent _ _ H). simpl.
  destruct x as [|c [|d rest]]; reflexivity.
Qed.

Lemma toUpperByte_not_underscore (c : ascii) :
  (c =? "_")%char = false -> (toUpperByte c =? "_")%char = false.
Proof. by_bytes c. Qed.

Lemma toLowerByte_not_underscore (c : ascii) :
  (c =? "_")%char = false -> (toLowerByte c =? "_")%char = false.
Proof. by_bytes c. Qed.

Lemma toUpperByte_twice (c : ascii) : toUpperByte (toUpperByte c) = toUpperByte c.
Proof. by_bytes c. Qed.

Lemma toLowerByte_twice (c : ascii) : toLowerByte (toLowerByte c) = toLowerByte c.
Proof. by_bytes c. Qed.

Lemma ToLower_twice (s : string) : strings.ToLower (strings.ToLower s) = strings.ToLower s.
Proof.
  induction s as [|c s IH]; [reflexivity|].
  change (String (toLowerByte (toLowerByte c)) (strings.ToLower (strings.ToLower s))
          = String (toLowerByte c) (strings.ToLower s)).
  now rewrite toLowerByte_twice, IH.
Qed.

Lemma ToLower_no_underscore (s : string) :
  hasByte (fun c => (c =? "_")%char) s = false ->
  hasByte (fun c => (c =? "_")%char) (strings.ToLower s) = false.
Proof.
  induction s as [|c s IH]; [reflexivity|].
  change (strings.ToLower (String c s)) with (String (toLowerByte c) (strings.ToLower s)).
  simpl. intros H. apply orb_false_iff in H. destruct H as (Hc & Hs).
  now rewrite (toLowerByte_not_underscore c Hc), (IH Hs).
Qed.

(** C5, as amended.  The two examples hold.  The converter is idempotent on
    ASCII input of one segment (no underscore): a second pass returns the
    result of the first.  (ASCII: the case mappings of the Go library are
    embedded for ASCII text only.) *)
Theorem toPascalCase_idempotent_on_one_segment :
  toPascalCase "user_id" = "UserId" /\
  toPascalCase "a_b_c_d" = "ABCD" /\
  forall x : string,
    asciiText x = true ->
    strings.Contains x "_" = false ->
    toPascalCase (toPascalCase x) = toPascalCase x.
Proof.
  split; [reflexivity | split; [reflexivity|]].
  intros x _ H. rewrite Contains_single in H.
  rewrite (toPascalCase_segment x H).
  destruct x as [|c rest]; [reflexivity|].
  simpl in H. apply orb_false_iff in H. destruct H as (Hc & Hrest).
  rewrite toPascalCase_segment.
  - now rewrite toUpperByte_twice, ToLower_twice.
  - simpl. now rewrite (toUpperByte_not_underscore c Hc), (ToLower_no_underscore rest Hrest).
Qed.

Lemma toPascalCase_one_segment_witness :
  toPascalCase (toPascalCase "UserProfiles") = toPascalCase "UserProfiles".
Proof.
  apply (proj2 (proj2 toPascalCase_idempotent_on_one_segment)); reflexivity.
Defined.

(** C5 as stated fails: the first pass removes the underscores of user_id,
    so the second pass lower-cases the inner capital. *)
Lemma toPascalCase_not_idempotent :
  toPascalCase "user_id" = "UserId" /\
  toPascalCase (toPascalCase "user_id") = "Userid" /\
  ~ (forall x : string, toPascalCase (toPascalCase x) = toPascalCase x).
Proof.
  split; [reflexivity | split; [reflexivity|]].
  intros H. specialize (H "user_id"). vm_compute in H. discriminate H.
Qed.

(** ** Text without an open parenthesis *)

Lemma noOpenParen_tail (c : ascii) (s : string) :
  noOpenParen (String c s) -> noOpenParen s.
Proof. unfold noOpenParen. simpl. intros H. now apply orb_false_iff in H. Qed.

Lemma noOpenParen_head (c : ascii) (s : string) :
  noOpenParen (String c s) -> isOpenParen c = false.
Proof. unfold noOpenParen. simpl. intros H. now apply orb_false_iff in H. Qed.

Lemma noOpenParen_cons (c : ascii) (s : string) :
  isOpenParen c = false -> noOpenParen s -> noOpenParen (String c s).
Proof. unfold noOpenParen. simpl. now intros -> ->. Qed.

Lemma trimLeft_noOpenParen (s : string) : noOpenParen s -> noOpenParen (strings.trimLeft s).
Proof.
  induction s as [|c s IH]; simpl; [auto|]. intros H.
  destruct (isSpace c); [apply IH; now apply noOpenParen_tail in H | exact H].
Qed.

Lemma trimRight_noOpenParen (s : string) : noOpenParen s -> noOpenParen (strings.trimRight s).
Proof.
  induction s as [|c s IH]; simpl; [auto|]. intros H.
  pose proof (noOpenParen_head _ _ H) as Hc.
  apply noOpenParen_tail in H. apply IH in H.
  destruct (strings.trimRight s).
  - destruct (isSpace c); [reflexivity | now apply noOpenParen_cons].
  - now apply noOpenParen_cons.
Qed.

Lemma collapseSpace_noOpenParen (s : string) :
  forall inRun, noOpenParen s -> noOpenParen (collapseSpace inRun s).
Proof.
  induction s as [|c s IH]; intros inRun H; simpl; [reflexivity|].
  pose proof (noOpenParen_head _ _ H) as Hc. apply noOpenParen_tail in H.
  destruct (reSpace c).
  - destruct inRun; [now apply IH | apply noOpenParen_cons; [reflexivity | now apply IH]].
  - apply noOpenParen_cons; [exact Hc | now apply IH].
Qed.

(** A pattern fails on such text when every continuation does. *)
Lemma star_noOpenParen (p : ascii -> bool) (k : cont) (s : string) :
  forall prev caps,
    noOpenParen s ->
    (forall prev' s' caps', noOpenParen s' -> k prev' s' caps' = None) ->
    star p prev s caps k = None.
Proof.
  induction s as [|c s IH]; intros prev caps H Hk; simpl.
  - now apply Hk.
  - destruct (p c); [|now apply Hk].
    rewrite IH; [simpl; now apply Hk | now apply noOpenParen_tail in H | exact Hk].
Qed.

Lemma exec_noOpenParen (r : regex) :
  forall prev s caps (k : cont),
    noOpenParen s ->
    (forall prev' s' caps', noOpenParen s' -> k prev' s' caps' = None) ->
    exec r prev s caps k = None.
Proof.
  induction r as [|p|p|r1 IH1 r2 IH2|r1 IH1 r2 IH2|n r IH| | |];
    intros prev s caps k H Hk; simpl.
  - now apply Hk.
  - destruct s as [|c s]; [reflexivity|].
    destruct (p c); [apply Hk; now apply noOpenParen_tail in H | reflexivity].
  - now apply star_noOpenParen.
  - apply IH1; [exact H|]. intros prev' s' caps' H'. now apply IH2.
  - rewrite IH1, IH2; auto.
  - apply IH; [exact H|]. intros prev' s' caps' H'. now apply Hk.
  - destruct prev; [reflexivity | now apply Hk].
  - destruct s; [now apply Hk | reflexivity].
  - destruct (xorb (wordBefore prev) (wordAfter s)); [now apply Hk | reflexivity].
Qed.

Lemma needsOpenParen_chr : needsOpenParen (chr "(").
Proof.
  intros prev [|c s] caps k H; simpl; [reflexivity|].
  apply noOpenParen_head in H. unfold isOpenParen in H. now rewrite H.
Qed.

Lemma needsOpenParen_Seq (r1 r2 : regex) :
  needsOpenParen r2 -> needsOpenParen (Seq r1 r2).
Proof.
  intros H2 prev s caps k H. simpl. apply exec_noOpenParen; [exact H|].
  intros prev' s' caps' H'. now apply H2.
Qed.

Lemma needsOpenParen_Group (n : nat) (r : regex) :
  needsOpenParen r -> needsOpenParen (Group n r).
Proof. intros Hr prev s caps k H. simpl. now apply Hr. Qed.

Lemma tableNameRegex_needsOpenParen : needsOpenParen (Group 0 tableNameRegex).
Proof.
  apply needsOpenParen_Group. unfold tableNameRegex, seqs.
  repeat apply needsOpenParen_Seq. apply needsOpenParen_chr.
Qed.

Lemma search_noOpenParen (r : regex) (s : string) :
  needsOpenParen r -> forall prev, noOpenParen s -> search r prev s = None.
Proof.
  intros Hr. induction s as [|c s IH]; intros prev H; simpl.
  - now rewrite Hr.
  - rewrite Hr by exact H. apply IH. now apply noOpenParen_tail in H.
Qed.

(** C8, as amended.  An input with no open parenthesis at all (such as
    CREATE TABLE users) does not match the table-name pattern, which ends
    with the open parenthesis of the column block: Parse fails with
    NoTableName. *)
Theorem ParseSQL_without_paren_is_NoTableName :
  forall sql : string,
    strings.Contains sql "(" = false ->
    regexp.FindStringSubmatch tableNameRegex 1
      (normalizeWhitespace (strings.TrimSpace sql)) = [] /\
    ParseSQL sql = Err NoTableName.
Proof.
  intros sql H. rewrite Contains_single in H.
  assert (E : regexp.FindStringSubmatch tableNameRegex 1
                (normalizeWhitespace (strings.TrimSpace sql)) = []).
  { unfold regexp.FindStringSubmatch.
    rewrite search_noOpenParen; [reflexivity | apply tableNameRegex_needsOpenParen |].
    apply collapseSpace_noOpenParen, trimRight_noOpenParen, trimLeft_noOpenParen.
    exact H. }
  split; [exact E|]. unfold ParseSQL. now rewrite E.
Qed.

Lemma ParseSQL_without_paren_witness :
  regexp.FindStringSubmatch tableNameRegex 1
    (normalizeWhitespace (strings.TrimSpace "CREATE TABLE users")) = [] /\
  ParseSQL "CREATE TABLE users" = Err NoTableName.
Proof.
  apply ParseSQL_without_paren_is_NoTableName. reflexivity.
Defined.

(** C8 as stated fails: on CREATE TABLE users the table-name pattern finds
    nothing, and the error is NoTableName, not NoColumnBlock. *)
Lemma create_table_users_not_NoColumnBlock :
  regexp.FindStringSubmatch tableNameRegex 1 "CREATE TABLE users" = [] /\
  ParseSQL "CREATE TABLE users" = Err NoTableName /\
  ParseSQL "CREATE TABLE users" <> Err NoColumnBlock.
Proof.
  split; [|split]; vm_compute; [reflexivity | reflexivity | discriminate].
Qed.

(** ** Trimming *)

Lemma trimLeft_startsClean (s : string) : startsClean (strings.trimLeft s).
Proof.
  induction s as [|c s IH]; simpl; [exact I|].
  destruct (isSpace c) eqn:E; [exact IH | exact E].
Qed.

Lemma trimLeft_clean (s : string) : startsClean s -> strings.trimLeft s = s.
Proof. destruct s as [|c s]; simpl; [reflexivity | now intros ->]. Qed.

Lemma trimRight_startsClean (s : string) :
  startsClean s -> startsClean (strings.trimRight s).
Proof.
  destruct s as [|c s]; simpl; [auto|]. intros H.
  destruct (strings.trimRight s); [now rewrite H | exact H].
Qed.

Lemma trimRight_twice (s : string) :
  strings.trimRight (strings.trimRight s) = strings.trimRight s.
Proof.
  induction s as [|c s IH]; simpl; [reflexivity|].
  destruct (strings.trimRight s) as [|d t] eqn:E.
  - destruct (isSpace c) eqn:Ec; simpl; [reflexivity | now rewrite Ec].
  - change (strings.trimRight (String c (String d t))) with
      (match strings.trimRight (String d t) with
       | EmptyString => if isSpace c then EmptyString else String c EmptyString
       | u => String c u
       end).
    now rewrite IH.
Qed.

Lemma TrimSpace_startsClean (s : string) : startsClean (strings.TrimSpace s).
Proof. apply trimRight_startsClean, trimLeft_startsClean. Qed.

Lemma TrimSpace_twice (s : string) :
  strings.TrimSpace (strings.TrimSpace s) = strings.TrimSpace s.
Proof.
  unfold strings.TrimSpace at 1.
  rewrite (trimLeft_clean _ (TrimSpace_startsClean s)).
  unfold strings.TrimSpace. apply trimRight_twice.
Qed.

(** ** The type pattern *)

Lemma exec_istr_no_prefix (kw : string) :
  forall prev s caps (k : cont), iprefix kw s = false -> exec (istr kw) prev s caps k = None.
Proof.
  induction kw as [|c kw IH]; intros prev s caps k H; [discriminate H|].
  destruct s as [|x s]; [reflexivity|].
  simpl in *. destruct (toLowerByte x =? toLowerByte c)%char; [|reflexivity].
  now apply IH.
Qed.

Lemma exec_keywords_no_prefix (kws : list string) :
  forall prev s caps (k : cont),
    forallb (fun kw => negb (iprefix kw s)) kws = true ->
    exec (alts (map istr kws)) prev s caps k = None.
Proof.
  induction kws as [|kw kws IH]; intros prev s caps k H.
  - simpl. now destruct s.
  - simpl in H. apply andb_true_iff in H. destruct H as (Hkw & Hrest).
    apply negb_true_iff in Hkw.
    destruct kws as [|kw' kws].
    + simpl. now apply exec_istr_no_prefix.
    + change (exec (Alt (istr kw) (alts (map istr (kw' :: kws)))) prev s caps k = None).
      cbn [exec]. rewrite exec_istr_no_prefix by exact Hkw.
      cbn [orElse]. now apply IH.
Qed.

Lemma typeRegex_not_at_start (c : ascii) (s : string) (caps : captures) (k : cont) :
  exec (Group 0 typeRegex) (Some c) s caps k = None.
Proof. reflexivity. Qed.

Lemma search_typeRegex_inside (s : string) :
  forall c, search (Group 0 typeRegex) (Some c) s = None.
Proof.
  induction s as [|x s IH]; intros c; cbn [search].
  - reflexivity.
  - rewrite typeRegex_not_at_start. apply IH.
Qed.

Lemma typeRegex_outside_vocabulary (tail : string) :
  outsideVocabulary tail = true ->
  regexp.FindStringSubmatch typeRegex 3 tail = [].
Proof.
  intros H. unfold regexp.FindStringSubmatch.
  assert (E : exec (Group 0 typeRegex) None tail [] (fun _ _ caps => Some caps) = None).
  { unfold typeRegex, seqs. cbn [exec]. now apply exec_keywords_no_prefix. }
  destruct tail as [|x tail]; cbn [search]; rewrite E; [reflexivity|].
  now rewrite search_typeRegex_inside.
Qed.

Lemma extractDataType_outside_vocabulary (tail : string) :
  outsideVocabulary tail = true -> extractDataType tail = "".
Proof.
  intros H. unfold extractDataType. now rewrite typeRegex_outside_vocabulary.
Qed.

Lemma mapSQLTypeToGo_fallback (sqlType : string) (nullable unsigned : bool) :
  oneOf (strings.ToUpper sqlType) switchCases = false ->
  mapSQLTypeToGo sqlType nullable unsigned = if nullable then "*string" else "string".
Proof.
  unfold mapSQLTypeToGo, oneOf, switchCases, existsb.
  generalize (strings.ToUpper sqlType) as t. intros t H.
  repeat match type of H with
         | (?a || ?b) = false => apply orb_false_iff in H; destruct H as (?E & H)
         end.
  repeat match goal with
         | E : (t =? _)%string = false |- _ => rewrite E; clear E
         end.
  reflexivity.
Qed.

Lemma unknown_type_clause_rejected (line name tail : string) :
  extractColumnName (strings.TrimSpace line) = Ok (name, tail) ->
  (name =? "")%string = false ->
  outsideVocabulary tail = true ->
  forall l, strings.TrimSpace l = strings.TrimSpace line ->
    parseColumnDefinition l = Err (UnknownType (strings.TrimSpace line)).
Proof.
  intros Hname Hne Hout l El.
  pose proof (extractDataType_outside_vocabulary tail Hout) as Htype.
  unfold parseColumnDefinition. rewrite El, Hname. simpl.
  now rewrite Hne, Htype.
Qed.

Lemma unknown_type_clause_skipped (line : string) :
  unknownTypeClause line ->
  forall lines fields,
    parseColumns_loop (line :: lines) fields = parseColumns_loop lines fields.
Proof.
  intros (name & tail & Hname & Hne & Hout) lines fields. simpl.
  destruct (strings.TrimSpace line =? "")%string; [reflexivity|].
  destruct (isConstraint (strings.TrimSpace line)); [reflexivity|].
  now rewrite (unknown_type_clause_rejected _ _ _ Hname Hne Hout _ (TrimSpace_twice line)).
Qed.

Lemma unknown_type_clauses_leave_nothing (lines : list string) :
  (forall clause, In clause lines -> unknownTypeClause clause) ->
  forall fields, parseColumns_loop lines fields = Ok fields.
Proof.
  induction lines as [|line lines IH]; intros H fields; [reflexivity|].
  rewrite unknown_type_clause_skipped by (apply H; now left).
  apply IH. intros clause Hin. apply H. now right.
Qed.

(** C3, as amended, for ASCII text.  A column clause whose type token does
    not begin, letter case apart, with a keyword of the type vocabulary
    (SERIAL, AUTOINCREMENT) is rejected with the could-not-extract-data-type
    error, and the column loop drops it and goes on with the other clauses.
    When every clause of the column block is such a clause, none is left:
    the column parser fails with NoValidColumns, and so does Parse on a
    statement whose table name and column block were found.  The text-string
    fallback belongs to the type mapper: a type name without a case of its
    own in the switch maps to string, behind a pointer when nullable. *)
Theorem unknown_type_clause_is_dropped :
  (forall line name tail : string,
      asciiText line = true ->
      extractColumnName (strings.TrimSpace line) = Ok (name, tail) ->
      (name =? "")%string = false ->
      outsideVocabulary tail = true ->
      extractDataType tail = "" /\
      parseColumnDefinition line = Err (UnknownType (strings.TrimSpace line)) /\
      forall lines fields,
        parseColumns_loop (line :: lines) fields = parseColumns_loop lines fields) /\
  (forall block : string,
      asciiText block = true ->
      (forall clause, In clause (splitColumns block) -> unknownTypeClause clause) ->
      parseColumns block = Err NoValidColumns) /\
  (forall sql block : string,
      asciiText sql = true ->
      let text := normalizeWhitespace (strings.TrimSpace sql) in
      (length (regexp.FindStringSubmatch tableNameRegex 1 text) <? 2)%nat = false ->
      columnBlockOf text = Ok block ->
      (forall clause, In clause (splitColumns block) -> unknownTypeClause clause) ->
      ParseSQL sql = Err (ParseColumnsFailed NoValidColumns)) /\
  (forall (sqlType : string) (nullable unsigned : bool),
      asciiText sqlType = true ->
      oneOf (strings.ToUpper sqlType) switchCases = false ->
      mapSQLTypeToGo sqlType nullable unsigned
      = if nullable then "*string" else "string").
Proof.
  assert (Hnone : forall block,
             (forall clause, In clause (splitColumns block) -> unknownTypeClause clause) ->
             parseColumns block = Err NoValidColumns).
  { intros block H. unfold parseColumns.
    now rewrite (unknown_type_clauses_leave_nothing _ H). }
  split; [|split; [|split]].
  - intros line name tail _ Hname Hne Hout.
    split; [now apply extractDataType_outside_vocabulary|].
    split; [now apply (unknown_type_clause_rejected line name tail)|].
    apply unknown_type_clause_skipped. now exists name, tail.
  - intros block _ H. now apply Hnone.
  - intros sql block _ text Hm Hb H. unfold ParseSQL. fold text.
    rewrite Hm, Hb. cbn [bind]. now rewrite (Hnone block H).
  - intros sqlType nullable unsigned _. apply mapSQLTypeToGo_fallback.
Qed.

Lemma unknown_type_clause_witness :
  (extractDataType "SERIAL" = "" /\
   parseColumnDefinition "id SERIAL" = Err (UnknownType (strings.TrimSpace "id SERIAL")) /\
   forall lines fields,
     parseColumns_loop ("id SERIAL" :: lines) fields = parseColumns_loop lines fields) /\
  parseColumns "id SERIAL, n AUTOINCREMENT" = Err NoValidColumns /\
  ParseSQL "CREATE TABLE t (id SERIAL, n AUTOINCREMENT)"
  = Err (ParseColumnsFailed NoValidColumns) /\
  mapSQLTypeToGo "ENUM" true false = "*string".
Proof.
  assert (H : forall clause,
             In clause (splitColumns "id SERIAL, n AUTOINCREMENT") ->
             unknownTypeClause clause).
  { intros clause [<- | [<- | []]].
    - exists "id", "SERIAL". repeat split.
    - exists "n", "AUTOINCREMENT". repeat split. }
  split; [|split; [|split]].
  - apply (proj1 unknown_type_clause_is_dropped "id SERIAL" "id" "SERIAL"); reflexivity.
  - apply (proj1 (proj2 unknown_type_clause_is_dropped) "id SERIAL, n AUTOINCREMENT");
      [reflexivity | exact H].
  - apply (proj1 (proj2 (proj2 unknown_type_clause_is_dropped))
             "CREATE TABLE t (id SERIAL, n AUTOINCREMENT)" "id SERIAL, n AUTOINCREMENT");
      [reflexivity | reflexivity | reflexivity | exact H].
  - apply (proj2 (proj2 (proj2 unknown_type_clause_is_dropped)) "ENUM" true false);
      reflexivity.
Defined.

(** C3 as stated fails: a SERIAL or AUTOINCREMENT column is rejected and
    left out of the record, and a table with no other column fails to
    parse. *)
Lemma serial_column_is_not_accepted :
  parseColumnDefinition "id SERIAL" = Err (UnknownType "id SERIAL") /\
  parseColumnDefinition "id AUTOINCREMENT" = Err (UnknownType "id AUTOINCREMENT") /\
  ParseSQL "CREATE TABLE t (id SERIAL, name TEXT NOT NULL)"
  = Ok [StructDef.mk "T" [FieldDef.mk "Name" "string" "name"]] /\
  ParseSQL "CREATE TABLE t (id SERIAL)" = Err (ParseColumnsFailed NoValidColumns).
Proof. vm_compute. repeat split. Qed.

(** ** Column identifiers *)

Lemma bind_Ok {A B : Type} (c : result A) (k : A -> result B) (b : B) :
  bind c k = Ok b -> exists a, c = Ok a /\ k a = Ok b.
Proof. destruct c as [a| |]; simpl; intros H; [eauto | discriminate | discriminate]. Qed.


Lemma slice_Ok (s r : string) (i j : Z) :
  slice s i j = Ok r ->
  0 <= i <= j /\ r = take (Z.to_nat (j - i)) (drop (Z.to_nat i) s).
Proof.
  unfold slice. destruct ((0 <=? i) && (i <=? j) && (j <=? len s)) eqn:E; [|discriminate].
  apply andb_true_iff in E. destruct E as (E & _).
  apply andb_true_iff in E. destruct E as (E1 & E2).
  apply Z.leb_le in E1. apply Z.leb_le in E2.
  intros H. inversion H. split; [lia | reflexivity].
Qed.

(** Where [strings.Index] finds a byte: nothing equal before it, the byte
    itself there. *)
Lemma Index_single_found (c : ascii) (s : string) :
  forall i, strings.Index s (String c "") = i -> 0 <= i ->
    s = take (Z.to_nat i) s ++ String c (drop (Z.to_nat (i + 1)) s) /\
    hasByte (fun x => (x =? c)%char) (take (Z.to_nat i) s) = false.
Proof.
  induction s as [|x s IH]; intros i Hi Hpos.
  - simpl in Hi. lia.
  - cbn [strings.Index] in Hi. rewrite prefix_single in Hi.
    destruct (x =? c)%char eqn:Ex.
    + subst i. apply Ascii.eqb_eq in Ex. subst x. simpl. now split.
    + destruct (strings.Index s (String c "") <? 0) eqn:En; [lia|].
      apply Z.ltb_ge in En.
      destruct (IH _ eq_refl En) as (Hs & Hno).
      subst i.
      replace (Z.to_nat (strings.Index s (String c "") + 1))
        with (S (Z.to_nat (strings.Index s (String c "")))) by lia.
      replace (Z.to_nat (strings.Index s (String c "") + 1 + 1))
        with (S (Z.to_nat (strings.Index s (String c "") + 1))) by lia.
      cbn [take drop String.append hasByte]. rewrite Ex, Hno. split; [|reflexivity].
      f_equal. exact Hs.
Qed.



Lemma byte_at_head (c : ascii) (s : string) : byte_at (String c s) 0 = Ok c.
Proof. unfold byte_at, len. cbn [String.length]. reflexivity. Qed.


(** The text before the first byte of a class is the same however the text
    is cut there. *)
Lemma run_before (p : ascii -> bool) (a : string) :
  forall a' c t c' t',
    a ++ String c t = a' ++ String c' t' ->
    hasByte p a = false -> hasByte p a' = false ->
    p c = true -> p c' = true ->
    a = a'.
Proof.
  induction a as [|x a IH]; intros [|x' a'] c t c' t' E Ha Ha' Hc Hc'; simpl in *.
  - reflexivity.
  - inversion E. subst. apply orb_false_iff in Ha'. destruct Ha' as (Hx & _). congruence.
  - inversion E. subst. apply orb_false_iff in Ha. destruct Ha as (Hx & _). congruence.
  - inversion E. subst. apply orb_false_iff in Ha. apply orb_false_iff in Ha'.
    f_equal. now apply (IH a' c t c' t').
Qed.



(** Every field the column loop returns was there at the start or comes from
    one of the clauses. *)
Lemma parseColumns_loop_fields (lines : list string) :
  forall acc fields,
    parseColumns_loop lines acc = Ok fields ->
    forall field, In field fields ->
      In field acc \/
      exists clause, In clause lines /\
        parseColumnDefinition (strings.TrimSpace clause) = Ok field.
Proof.
  induction lines as [|line lines IH]; intros acc fields H field Hin.
  - simpl in H. inversion H. subst. now left.
  - cbn [parseColumns_loop] in H.
    assert (Hskip : parseColumns_loop lines acc = Ok fields ->
                    In field acc \/
                    exists clause, In clause (line :: lines) /\
                      parseColumnDefinition (strings.TrimSpace clause) = Ok field).
    { intros H'. destruct (IH _ _ H' field Hin) as [L | (cl & Hcl & Hp)];
        [now left | right; exists cl; split; [now right | exact Hp]]. }
    destruct (strings.TrimSpace line =? "")%string; [now apply Hskip|].
    destruct (isConstraint (strings.TrimSpace line)); [now apply Hskip|].
    destruct (parseColumnDefinition (strings.TrimSpace line)) as [f|e|] eqn:P;
      [| now apply Hskip | discriminate H].
    destruct (IH _ _ H field Hin) as [L | (cl & Hcl & Hp)].
    + apply in_app_or in L. destruct L as [L | [<- | []]]; [now left|].
      right. exists line. split; [now left | exact P].
    + right. exists cl. split; [now right | exact Hp].
Qed.




(** ** Lengths and indices *)

Lemma Index_le_len (s sub : string) : strings.Index s sub <= len s.
Proof.
  induction s as [|x s IH]; cbn [strings.Index].
  - destruct (prefix sub ""); unfold len; simpl; lia.
  - assert (len (String x s) = 1 + len s) as -> by (unfold len; cbn [String.length]; lia).
    pose proof (len_nonneg s).
    destruct (prefix sub (String x s)); [lia|].
    destruct (strings.Index s sub <? 0); lia.
Qed.

Lemma length_take (n : nat) (s : string) :
  (n <= String.length s)%nat -> String.length (take n s) = n.
Proof.
  revert s. induction n as [|n IH]; intros [|c s] H; simpl in *; try lia.
  now rewrite IH by lia.
Qed.

Lemma length_smap (f : ascii -> ascii) (s : string) :
  String.length (strings.smap f s) = String.length s.
Proof. induction s as [|c s IH]; simpl; [reflexivity | now rewrite IH]. Qed.

(** ** The NoColumnBlock branches of ParseSQL are never taken *)

Lemma FindStringSubmatch_length (re : regex) (groups : nat) (s : string) :
  regexp.FindStringSubmatch re groups s = [] \/
  length (regexp.FindStringSubmatch re groups s) = S groups.
Proof.
  unfold regexp.FindStringSubmatch.
  destruct (search (Group 0 re) None s); [right | now left].
  now rewrite length_map, length_seq.
Qed.

Lemma tableNameRegex_match_has_paren (s : string) :
  (length (regexp.FindStringSubmatch tableNameRegex 1 s) <? 2)%nat = false ->
  hasByte isOpenParen s = true.
Proof.
  intros H. destruct (hasByte isOpenParen s) eqn:E; [reflexivity|].
  unfold regexp.FindStringSubmatch in H.
  rewrite search_noOpenParen in H;
    [discriminate H | apply tableNameRegex_needsOpenParen | exact E].
Qed.

Lemma columnBlockOf_errors (s : string) (e : error) :
  hasByte isOpenParen s = true -> columnBlockOf s = Err e -> e = NoClosingParen.
Proof.
  intros Hp. unfold columnBlockOf.
  destruct (FindStringSubmatch_length columnBlockRegex 1 s) as [-> | L].
  - cbn [length Nat.ltb Nat.leb].
    assert (Hi : (strings.Index s "(" =? -1) = false).
    { apply Z.eqb_neq. intros Hi.
      assert (strings.Index s "(" < 0) as Hlt by lia.
      apply Index_single_absent in Hlt. unfold isOpenParen in Hp. congruence. }
    rewrite Hi.
    destruct (findMatchingParen s (strings.Index s "(") =? -1).
    + simpl. intros H. now inversion H.
    + unfold slice.
      destruct ((0 <=? strings.Index s "(" + 1)
                && (strings.Index s "(" + 1 <=? findMatchingParen s (strings.Index s "("))
                && (findMatchingParen s (strings.Index s "(") <=? len s));
        simpl; intros H; discriminate H.
  - destruct (regexp.FindStringSubmatch columnBlockRegex 1 s) as [|m0 [|m1 [|m2 ms]]];
      try discriminate L.
    simpl. intros H. discriminate H.
Qed.

Lemma ParseSQL_never_NoColumnBlock (sql : string) : ParseSQL sql <> Err NoColumnBlock.
Proof.
  unfold ParseSQL.
  destruct (length _ <? 2)%nat eqn:M; [discriminate|].
  apply tableNameRegex_match_has_paren in M.
  destruct (columnBlockOf _) as [block|e|] eqn:B; simpl.
  - destruct (parseColumns block); discriminate.
  - apply (columnBlockOf_errors _ _ M) in B. subst e. discriminate.
  - discriminate.
Qed.

(** ** What the DEFAULT branch removes *)

Lemma prefix_length (a b : string) :
  prefix a b = true -> (String.length a <= String.length b)%nat.
Proof.
  revert b. induction a as [|x a IH]; intros b H; simpl; [lia|].
  destruct b as [|y b]; [discriminate H|].
  simpl in H. destruct (ascii_dec x y); [|discriminate H].
  apply IH in H. simpl. lia.
Qed.

Lemma Index_found_fits (s sub : string) :
  0 <= strings.Index s sub -> strings.Index s sub + len sub <= len s.
Proof.
  induction s as [|x s IH]; cbn [strings.Index].
  - destruct (prefix sub "") eqn:P; [|lia].
    intros _. apply prefix_length in P. unfold len. lia.
  - assert (len (String x s) = 1 + len s) as -> by (unfold len; cbn [String.length]; lia).
    destruct (prefix sub (String x s)) eqn:P.
    + intros _. apply prefix_length in P. unfold len. cbn [String.length] in P. lia.
    + destruct (strings.Index s sub <? 0) eqn:E; [lia|].
      apply Z.ltb_ge in E. specialize (IH E). lia.
Qed.

Lemma Fields_of_text (c : ascii) (s : string) :
  isSpace c = false -> (0 <? length (strings.Fields (String c s)))%nat = true.
Proof.
  intros H. cbn [strings.Fields]. rewrite H.
  destruct s as [|d s]; [reflexivity|].
  destruct (isSpace d); [reflexivity|].
  destruct (strings.Fields (String d s)); reflexivity.
Qed.

(** The defect behind C2 in general: when the value after DEFAULT does not
    begin with a quote, all the text from DEFAULT on is removed, whatever
    follows the value. *)
Lemma removeCommentsAndDefaults_unquoted_default (line : string) (c : ascii) (value : string) :
  let upperLine := strings.ToUpper line in
  let idx := strings.Index upperLine "DEFAULT" in
  strings.Index upperLine "COMMENT" = -1 ->
  0 <= idx ->
  strings.TrimSpace (drop (Z.to_nat (idx + 7)) line) = String c value ->
  (c =? "'")%char || (c =? dquote)%char = false ->
  removeCommentsAndDefaults line = Ok (strings.TrimSpace (take (Z.to_nat idx) line)).
Proof.
  intros upperLine idx Hc Hd Hrest Hq.
  unfold removeCommentsAndDefaults. fold upperLine. fold idx. rewrite Hc.
  rewrite Z.eqb_refl. cbn [negb bind].
  replace (idx =? -1) with false by (symmetry; apply Z.eqb_neq; lia).
  cbn [negb].
  pose proof (Index_found_fits upperLine "DEFAULT" Hd) as Hfit. fold idx in Hfit.
  assert (Hl : len upperLine = len line)
    by (unfold len, upperLine, strings.ToUpper; now rewrite length_smap).
  rewrite Hl in Hfit. change (len "DEFAULT") with 7 in Hfit.
  unfold removeDefault, slice_from.
  replace ((0 <=? idx + 7) && (idx + 7 <=? len line)) with true
    by (symmetry; apply andb_true_iff; split; apply Z.leb_le; lia).
  cbn [bind]. cbv beta zeta. fold idx. rewrite Hrest, Hq, andb_false_r.
  pose proof (TrimSpace_startsClean (drop (Z.to_nat (idx + 7)) line)) as Hclean.
  rewrite Hrest in Hclean. simpl in Hclean.
  rewrite (Fields_of_text c value Hclean).
  unfold slice_to.
  replace ((0 <=? idx) && (idx <=? len line)) with true
    by (symmetry; apply andb_true_iff; split; apply Z.leb_le; lia).
  reflexivity.
Qed.

(** The defect behind C1 in general: when DEFAULT ends after the place where
    COMMENT begins, the tail is first cut at COMMENT and then sliced at an
    index taken from the text before the cut, which is out of range. *)
Lemma removeCommentsAndDefaults_panics (line : string) :
  let upperLine := strings.ToUpper line in
  0 <= strings.Index upperLine "COMMENT" ->
  0 <= strings.Index upperLine "DEFAULT" ->
  strings.Index upperLine "COMMENT" < strings.Index upperLine "DEFAULT" + 7 ->
  removeCommentsAndDefaults line = Panic.
Proof.
  intros upperLine Hc Hd0 Hd. unfold removeCommentsAndDefaults. fold upperLine.
  pose proof (Index_le_len upperLine "COMMENT") as Lc.
  assert (Hl : len upperLine = len line) by (unfold len, upperLine, strings.ToUpper; now rewrite length_smap).
  rewrite Hl in Lc.
  replace (strings.Index upperLine "COMMENT" =? -1) with false by (symmetry; apply Z.eqb_neq; lia).
  replace (strings.Index upperLine "DEFAULT" =? -1) with false by (symmetry; apply Z.eqb_neq; lia).
  cbn [negb]. unfold slice_to.
  replace ((0 <=? strings.Index upperLine "COMMENT") && (strings.Index upperLine "COMMENT" <=? len line))
    with true by (symmetry; apply andb_true_iff; split; apply Z.leb_le; lia).
  cbn [bind]. unfold removeDefault, slice_from.
  replace (strings.Index upperLine "DEFAULT" + 7
           <=? len (take (Z.to_nat (strings.Index upperLine "COMMENT")) line)) with false.
  - rewrite andb_false_r. reflexivity.
  - symmetry. apply Z.leb_gt. unfold len in *. rewrite length_take by lia. lia.
Qed.

(** ** Where Parse can panic

    Every slice and index expression of the parser is in range, except the
    one of the DEFAULT branch after a cut at COMMENT. *)

Lemma length_drop (n : nat) (s : string) :
  String.length (drop n s) = (String.length s - n)%nat.
Proof.
  revert s. induction n as [|n IH]; intros [|c s]; simpl; try reflexivity; try lia.
  apply IH.
Qed.

Lemma slice_from_in_range (s : string) (i : Z) :
  0 <= i <= len s -> slice_from s i = Ok (drop (Z.to_nat i) s).
Proof.
  intros H. unfold slice_from.
  replace ((0 <=? i) && (i <=? len s)) with true; [reflexivity|].
  symmetry. apply andb_true_iff. split; apply Z.leb_le; lia.
Qed.

Lemma slice_to_in_range (s : string) (j : Z) :
  0 <= j <= len s -> slice_to s j = Ok (take (Z.to_nat j) s).
Proof.
  intros H. unfold slice_to.
  replace ((0 <=? j) && (j <=? len s)) with true; [reflexivity|].
  symmetry. apply andb_true_iff. split; apply Z.leb_le; lia.
Qed.

Lemma slice_in_range (s : string) (i j : Z) :
  0 <= i <= j -> j <= len s ->
  slice s i j = Ok (take (Z.to_nat (j - i)) (drop (Z.to_nat i) s)).
Proof.
  intros H1 H2. unfold slice.
  replace ((0 <=? i) && (i <=? j) && (j <=? len s)) with true; [reflexivity|].
  symmetry. rewrite !andb_true_iff. repeat split; apply Z.leb_le; lia.
Qed.

Lemma len_cons (c : ascii) (s : string) : len (String c s) = 1 + len s.
Proof. unfold len. cbn [String.length]. lia. Qed.

Lemma quotedColumnName_returns (q q' : ascii) (rest : string) :
  exists r, quotedColumnName (String q rest) (String q' "") = Ok r.
Proof.
  unfold quotedColumnName.
  pose proof (len_nonneg rest) as Hn. pose proof (len_cons q rest) as Hl.
  rewrite slice_from_in_range by lia. cbn [bind].
  change (drop (Z.to_nat 1) (String q rest)) with rest.
  destruct (strings.Index rest (String q' "") =? -1) eqn:E; [eauto|].
  apply Z.eqb_neq in E.
  pose proof (Index_range rest (String q' "")) as R.
  assert (F : strings.Index rest (String q' "") + 1 <= len rest)
    by (apply (Index_found_fits rest (String q' "")); lia).
  rewrite slice_in_range by lia. cbn [bind].
  rewrite slice_from_in_range by lia. cbn [bind]. eauto.
Qed.

Lemma extractColumnName_returns (line : string) :
  exists r, extractColumnName line = Ok r.
Proof.
  unfold extractColumnName.
  destruct (strings.TrimSpace line) as [|x s]; [simpl; eauto|].
  change ((String x s =? "")%string) with false. cbv iota.
  rewrite byte_at_head. cbn [bind].
  destruct (x =? "`")%char; [apply quotedColumnName_returns|].
  destruct (x =? dquote)%char; [apply quotedColumnName_returns|].
  destruct (strings.Fields (String x s)) as [|w [|w2 ws]]; eauto.
Qed.

Lemma findMatchingParen_loop_range (rest : string) :
  forall i count,
    findMatchingParen_loop rest i count = -1 \/
    i <= findMatchingParen_loop rest i count < i + len rest.
Proof.
  induction rest as [|c rest IH]; intros i count; cbn [findMatchingParen_loop].
  - now left.
  - rewrite len_cons. pose proof (len_nonneg rest) as Hn.
    destruct (c =? "(")%char.
    + destruct (IH (i + 1) (count + 1)) as [-> | R]; [now left | right; lia].
    + destruct (c =? ")")%char.
      * destruct (count - 1 =? 0); [right; lia|].
        destruct (IH (i + 1) (count - 1)) as [-> | R]; [now left | right; lia].
      * destruct (IH (i + 1) count) as [-> | R]; [now left | right; lia].
Qed.

Lemma columnBlockOf_never_panics (s : string) : columnBlockOf s <> Panic.
Proof.
  unfold columnBlockOf.
  destruct (FindStringSubmatch_length columnBlockRegex 1 s) as [-> | L].
  - cbn [length Nat.ltb Nat.leb].
    destruct (strings.Index s "(" =? -1) eqn:Ei; [simpl; discriminate|].
    apply Z.eqb_neq in Ei. pose proof (Index_range s "(") as R.
    assert (F : strings.Index s "(" + 1 <= len s)
      by (apply (Index_found_fits s "("); lia).
    destruct (findMatchingParen s (strings.Index s "(") =? -1) eqn:Ee;
      [simpl; discriminate|].
    apply Z.eqb_neq in Ee. unfold findMatchingParen in *.
    destruct (findMatchingParen_loop_range
                (drop (Z.to_nat (strings.Index s "(" + 1)) s)
                (strings.Index s "(" + 1) 1) as [E | Rg]; [contradiction|].
    assert (Hd : len (drop (Z.to_nat (strings.Index s "(" + 1)) s)
                 = len s - (strings.Index s "(" + 1))
      by (unfold len in *; rewrite length_drop; lia).
    rewrite slice_in_range by lia. simpl. discriminate.
  - destruct (regexp.FindStringSubmatch columnBlockRegex 1 s) as [|m0 [|m1 [|m2 ms]]];
      try discriminate L.
    simpl. discriminate.
Qed.

Lemma removeDefault_returns (line : string) (idx : Z) :
  0 <= idx -> idx + 7 <= len line -> exists r, removeDefault line idx = Ok r.
Proof.
  intros H0 H7. unfold removeDefault.
  rewrite slice_from_in_range by lia. cbn [bind]. cbv beta zeta.
  rewrite (slice_to_in_range line idx) by lia.
  destruct (strings.TrimSpace (drop (Z.to_nat (idx + 7)) line)) as [|c rest].
  - simpl. eauto.
  - pose proof (len_nonneg rest) as Hn. pose proof (len_cons c rest) as Hl.
    destruct ((0 <? len (String c rest))
              && ((c =? "'")%char || (c =? dquote)%char)).
    + rewrite byte_at_head. cbn [bind].
      rewrite slice_from_in_range by lia. cbn [bind].
      change (drop (Z.to_nat 1) (String c rest)) with rest.
      destruct (strings.Index rest (String c "") =? -1) eqn:E; [simpl; eauto|].
      apply Z.eqb_neq in E. pose proof (Index_range rest (String c "")) as R.
      assert (F : strings.Index rest (String c "") + 1 <= len rest)
        by (apply (Index_found_fits rest (String c "")); lia).
      cbn [negb bind]. rewrite slice_from_in_range by lia. cbn [bind]. eauto.
    + destruct (0 <? length (strings.Fields (String c rest)))%nat; eauto.
Qed.

(** The stripping step panics only in the situation of
    [removeCommentsAndDefaults_panics]. *)
Lemma removeCommentsAndDefaults_Panic (line : string) :
  removeCommentsAndDefaults line = Panic ->
  let upperLine := strings.ToUpper line in
  0 <= strings.Index upperLine "COMMENT" /\
  0 <= strings.Index upperLine "DEFAULT" /\
  strings.Index upperLine "COMMENT" < strings.Index upperLine "DEFAULT" + 7.
Proof.
  intros H upperLine. unfold removeCommentsAndDefaults in H. fold upperLine in H.
  pose proof (Index_range upperLine "COMMENT") as Rc.
  pose proof (Index_range upperLine "DEFAULT") as Rd.
  pose proof (Index_le_len upperLine "COMMENT") as Lc.
  assert (Hl : len upperLine = len line)
    by (unfold len, upperLine, strings.ToUpper; now rewrite length_smap).
  rewrite Hl in Lc.
  assert (Fd : 0 <= strings.Index upperLine "DEFAULT" ->
               strings.Index upperLine "DEFAULT" + 7 <= len line).
  { intros P. apply Index_found_fits in P. change (len "DEFAULT") with 7 in P. lia. }
  destruct (Z.eqb_spec (strings.Index upperLine "COMMENT") (-1)) as [Ec | Ec];
    destruct (Z.eqb_spec (strings.Index upperLine "DEFAULT") (-1)) as [Ed | Ed];
    cbn [negb bind] in H.
  - discriminate H.
  - destruct (removeDefault_returns line (strings.Index upperLine "DEFAULT")) as (r & E);
      [lia | apply Fd; lia |].
    rewrite E in H. discriminate H.
  - rewrite slice_to_in_range in H by lia. discriminate H.
  - rewrite slice_to_in_range in H by lia. cbn [bind] in H.
    split; [lia | split; [lia|]].
    destruct (Z.lt_ge_cases (strings.Index upperLine "COMMENT")
                (strings.Index upperLine "DEFAULT" + 7)) as [L | G]; [exact L|].
    destruct (removeDefault_returns
                (take (Z.to_nat (strings.Index upperLine "COMMENT")) line)
                (strings.Index upperLine "DEFAULT")) as (r & E); [lia | |].
    + unfold len in *. rewrite length_take by lia. lia.
    + rewrite E in H. discriminate H.
Qed.

Lemma parseColumnDefinition_Panic (line : string) :
  parseColumnDefinition line = Panic ->
  exists name tail,
    extractColumnName (strings.TrimSpace line) = Ok (name, tail) /\
    removeCommentsAndDefaults tail = Panic.
Proof.
  unfold parseColumnDefinition. intros H.
  destruct (extractColumnName_returns (strings.TrimSpace line)) as ((name, tail) & E).
  rewrite E in H. cbn [bind] in H.
  destruct (name =? "")%string; [discriminate H|].
  destruct (extractDataType tail =? "")%string; [discriminate H|].
  exists name, tail. split; [exact E|].
  destruct (removeCommentsAndDefaults tail); [discriminate H | discriminate H | reflexivity].
Qed.

Lemma parseColumns_loop_Panic (lines : list string) :
  forall acc,
    parseColumns_loop lines acc = Panic ->
    exists clause, In clause lines /\
      parseColumnDefinition (strings.TrimSpace clause) = Panic.
Proof.
  induction lines as [|line lines IH]; intros acc H; [discriminate H|].
  cbn [parseColumns_loop] in H.
  assert (Hskip : forall acc', parseColumns_loop lines acc' = Panic ->
                  exists clause, In clause (line :: lines) /\
                    parseColumnDefinition (strings.TrimSpace clause) = Panic).
  { intros acc' H'. destruct (IH _ H') as (cl & Hcl & Hp).
    exists cl. split; [now right | exact Hp]. }
  destruct (strings.TrimSpace line =? "")%string; [now apply (Hskip acc)|].
  destruct (isConstraint (strings.TrimSpace line)); [now apply (Hskip acc)|].
  destruct (parseColumnDefinition (strings.TrimSpace line)) as [f|e|] eqn:P.
  - now apply (Hskip (acc ++ [f])%list).
  - now apply (Hskip acc).
  - exists line. split; [now left | exact P].
Qed.

(** Parse panics only through the defect of C1: in some clause of the
    column block, the text after the column name has DEFAULT ending after
    the place where COMMENT begins. *)
Lemma ParseSQL_Panic (sql : string) :
  ParseSQL sql = Panic ->
  exists block clause name tail,
    columnBlockOf (normalizeWhitespace (strings.TrimSpace sql)) = Ok block /\
    In clause (splitColumns block) /\
    extractColumnName (strings.TrimSpace clause) = Ok (name, tail) /\
    0 <= strings.Index (strings.ToUpper tail) "COMMENT" /\
    0 <= strings.Index (strings.ToUpper tail) "DEFAULT" /\
    strings.Index (strings.ToUpper tail) "COMMENT"
    < strings.Index (strings.ToUpper tail) "DEFAULT" + 7.
Proof.
  unfold ParseSQL. intros H.
  destruct (length _ <? 2)%nat; [discriminate H|].
  destruct (columnBlockOf _) as [block|e|] eqn:B;
    [| discriminate H | now apply columnBlockOf_never_panics in B].
  cbn [bind] in H.
  destruct (parseColumns block) as [fields|e|] eqn:P; try discriminate H.
  unfold parseColumns in P.
  destruct (parseColumns_loop (splitColumns block) []) as [fs|e|] eqn:L;
    cbn [bind] in P.
  - destruct (length fs =? 0)%nat; discriminate P.
  - discriminate P.
  - apply parseColumns_loop_Panic in L. destruct L as (clause & Hin & Hp).
    apply parseColumnDefinition_Panic in Hp. destruct Hp as (name & tail & En & Hr).
    rewrite TrimSpace_twice in En.
    apply removeCommentsAndDefaults_Panic in Hr.
    exists block, clause, name, tail. auto.
Qed.

(** ** The claims settled by evaluation *)

(** C1 (the code fails the claim).  On a column whose COMMENT text holds the
    word DEFAULT, the stripping step slices past the end of the tail it has
    just cut, and Parse panics instead of returning a record or an error. *)
Theorem ParseSQL_panics_on_DEFAULT_inside_COMMENT :
  removeCommentsAndDefaults "TEXT COMMENT 'a DEFAULT b'" = Panic /\
  parseColumnDefinition "notes TEXT COMMENT 'a DEFAULT b'" = Panic /\
  ParseSQL "CREATE TABLE t (notes TEXT COMMENT 'a DEFAULT b')" = Panic /\
  ~ (forall sql, ParseSQL sql <> Panic).
Proof.
  assert (E : ParseSQL "CREATE TABLE t (notes TEXT COMMENT 'a DEFAULT b')" = Panic)
    by (vm_compute; reflexivity).
  split; [vm_compute; reflexivity|].
  split; [vm_compute; reflexivity|].
  split; [exact E|].
  intros H. exact (H _ E).
Qed.

(** C2 (the code fails the claim).  After a DEFAULT with an unquoted value
    the whole rest of the tail is cut, not only the keyword and one word: the
    text tested for NOT NULL is INT alone, and the column comes out
    nullable. *)
Theorem NOT_NULL_after_DEFAULT_is_lost :
  removeCommentsAndDefaults "INT DEFAULT 0 NOT NULL" = Ok "INT" /\
  parseColumnDefinition "x INT DEFAULT 0 NOT NULL" = Ok (FieldDef.mk "X" "*int" "x") /\
  parseColumnDefinition "x INT NOT NULL DEFAULT 0" = Ok (FieldDef.mk "X" "int" "x") /\
  ParseSQL "CREATE TABLE t (x INT DEFAULT 0 NOT NULL)"
  = Ok [StructDef.mk "T" [FieldDef.mk "X" "*int" "x"]].
Proof. vm_compute. repeat split. Qed.

(** C4. The end-to-end scenario of the specification: one record Users with
    the four fields Id int, Name string, Email pointer to string and
    CreatedAt time.Time, in this order; with all tag flags off the generated
    text is the one below, and it contains the import line of the time
    package. *)
Theorem users_scenario :
  let sql := "CREATE TABLE users (id INT NOT NULL, name VARCHAR(255) NOT NULL, email VARCHAR(255), created_at DATETIME NOT NULL)" in
  let users :=
    StructDef.mk "Users"
      [ FieldDef.mk "Id" "int" "id";
        FieldDef.mk "Name" "string" "name";
        FieldDef.mk "Email" "*string" "email";
        FieldDef.mk "CreatedAt" "time.Time" "created_at" ] in
  let text :=
    "package main" ++ lineEnd ++ lineEnd ++
    "import " ++ quoted "time" ++ lineEnd ++ lineEnd ++
    "type Users struct {" ++ lineEnd ++
    String tab "Id        int" ++ lineEnd ++
    String tab "Name      string" ++ lineEnd ++
    String tab "Email     *string" ++ lineEnd ++
    String tab "CreatedAt time.Time" ++ lineEnd ++
    "}" ++ lineEnd in
  ParseSQL sql = Ok [users] /\
  GenerateGoCode [users] noTags = Ok text /\
  strings.Contains text ("import " ++ quoted "time" ++ lineEnd) = true.
Proof. vm_compute. repeat split. Qed.

(** C10. The quote characters around the table name are not checked for
    pairing: with an opening back quote that is never closed, or with a back
    quote before and a single quote after, the table-name pattern still
    captures the bare identifier and Parse succeeds. *)
Theorem unpaired_table_quotes_are_accepted :
  nth 1 (regexp.FindStringSubmatch tableNameRegex 1 "CREATE TABLE `users (id INT)") ""
  = "users" /\
  ParseSQL "CREATE TABLE `users (id INT)"
  = Ok [StructDef.mk "Users" [FieldDef.mk "Id" "*int" "id"]] /\
  nth 1 (regexp.FindStringSubmatch tableNameRegex 1 "CREATE TABLE `users' (id INT)") ""
  = "users" /\
  ParseSQL "CREATE TABLE `users' (id INT)"
  = Ok [StructDef.mk "Users" [FieldDef.mk "Id" "*int" "id"]].
Proof. vm_compute. repeat split. Qed.

(** ** The matcher is sound *)

Lemma star_sound (p : ascii -> bool) (k : cont) (s : string) :
  forall prev caps m,
    star p prev s caps k = Some m ->
    exists prev' s' w,
      s = w ++ s' /\ allBytes p w = true /\ k prev' s' caps = Some m.
Proof.
  induction s as [|c s IH]; intros prev caps m H; cbn [star] in H.
  - exists prev, EmptyString, EmptyString. auto.
  - destruct (p c) eqn:Ec.
    + destruct (star p (Some c) s caps k) as [m'|] eqn:E; cbn [orElse] in H.
      * inversion H. subst m'. destruct (IH _ _ _ E) as (prev' & s' & w & Hs & Hw & Hk).
        exists prev', s', (String c w). simpl. rewrite Ec, Hw, <- Hs. auto.
      * exists prev, (String c s), EmptyString. auto.
    + exists prev, (String c s), EmptyString. auto.
Qed.

Lemma exec_sound (r : regex) :
  forall prev s caps (k : cont) m,
    exec r prev s caps k = Some m ->
    exists prev' s' caps',
      matched r s s' caps caps' /\ k prev' s' caps' = Some m.
Proof.
  induction r as [|p|p|r1 IH1 r2 IH2|r1 IH1 r2 IH2|n r IH| | |];
    intros prev s caps k m H; cbn [exec] in H.
  - exists prev, s, caps. simpl. auto.
  - destruct s as [|x s]; [discriminate H|].
    destruct (p x) eqn:Ex; [|discriminate H].
    exists (Some x), s, caps. split; [|exact H]. exists x. auto.
  - destruct (star_sound _ _ _ _ _ _ H) as (prev' & s' & w & Hs & Hw & Hk).
    exists prev', s', caps. split; [|exact Hk]. exists w. auto.
  - destruct (IH1 _ _ _ _ _ H) as (p1 & s1 & c1 & M1 & H1).
    destruct (IH2 _ _ _ _ _ H1) as (p2 & s2 & c2 & M2 & H2).
    exists p2, s2, c2. split; [|exact H2]. exists s1, c1. auto.
  - destruct (exec r1 prev s caps k) as [m'|] eqn:E; cbn [orElse] in H.
    + inversion H. subst m'.
      destruct (IH1 _ _ _ _ _ E) as (p1 & s1 & c1 & M1 & H1).
      exists p1, s1, c1. split; [now left | exact H1].
    + destruct (IH2 _ _ _ _ _ H) as (p2 & s2 & c2 & M2 & H2).
      exists p2, s2, c2. split; [now right | exact H2].
  - destruct (IH _ _ _ _ _ H) as (p1 & s1 & c1 & M1 & H1).
    eexists p1, s1, _. split; [|exact H1]. exists c1. auto.
  - destruct prev; [discriminate H|]. exists None, s, caps. simpl. auto.
  - destruct s; [|discriminate H]. exists prev, EmptyString, caps. simpl. auto.
  - destruct (xorb _ _); [|discriminate H]. exists prev, s, caps. simpl. auto.
Qed.

Lemma matched_suffix (r : regex) :
  forall s s' c c', matched r s s' c c' -> exists w, s = w ++ s'.
Proof.
  induction r as [|p|p|r1 IH1 r2 IH2|r1 IH1 r2 IH2|n r IH| | |];
    intros s s' c c' H; simpl in H.
  - destruct H as (-> & _). now exists EmptyString.
  - destruct H as (x & -> & _). now exists (String x EmptyString).
  - destruct H as (w & -> & _). now exists w.
  - destruct H as (s1 & c1 & H1 & H2).
    destruct (IH1 _ _ _ _ H1) as (w1 & ->). destruct (IH2 _ _ _ _ H2) as (w2 & ->).
    exists (w1 ++ w2). now rewrite append_assoc.
  - destruct H as [H | H]; [now apply IH1 in H | now apply IH2 in H].
  - destruct H as (c1 & H & _). now apply IH in H.
  - destruct H as (-> & _). now exists EmptyString.
  - destruct H as (-> & -> & _). now exists EmptyString.
  - destruct H as (-> & _). now exists EmptyString.
Qed.

Lemma matched_groupFree (r : regex) :
  forall s s' c c', groupFree r = true -> matched r s s' c c' -> c' = c.
Proof.
  induction r as [|p|p|r1 IH1 r2 IH2|r1 IH1 r2 IH2|n r IH| | |];
    intros s s' c c' G H; simpl in *; try discriminate G.
  - now destruct H.
  - now destruct H as (x & _ & _ & ->).
  - now destruct H as (w & _ & _ & ->).
  - apply andb_true_iff in G. destruct G as (G1 & G2).
    destruct H as (s1 & c1 & H1 & H2).
    apply (IH1 _ _ _ _ G1) in H1. apply (IH2 _ _ _ _ G2) in H2. congruence.
  - apply andb_true_iff in G. destruct G as (G1 & G2).
    destruct H as [H | H]; [now apply (IH1 _ _ _ _ G1) in H | now apply (IH2 _ _ _ _ G2) in H].
  - now destruct H.
  - now destruct H as (_ & _ & ->).
  - now destruct H.
Qed.

Lemma take_append (w s : string) : take (String.length w) (w ++ s) = w.
Proof. induction w as [|c w IH]; simpl; [now destruct s | now rewrite IH]. Qed.

Lemma take_matched (w s' : string) :
  take (String.length (w ++ s') - String.length s') (w ++ s') = w.
Proof.
  rewrite length_append.
  replace (String.length w + String.length s' - String.length s')%nat
    with (String.length w) by lia.
  apply take_append.
Qed.

Lemma search_sound (re : regex) (s : string) :
  forall prev m,
    search re prev s = Some m ->
    exists before s0 s' caps',
      s = before ++ s0 /\ matched re s0 s' [] caps' /\ m = caps'.
Proof.
  induction s as [|c s IH]; intros prev m H; cbn [search] in H.
  - destruct (exec re prev EmptyString [] (fun _ _ caps => Some caps)) eqn:E; [|discriminate H].
    inversion H. subst. apply exec_sound in E.
    destruct E as (p' & s' & c' & M & K). inversion K. subst.
    exists EmptyString, EmptyString, s', m. auto.
  - destruct (exec re prev (String c s) [] (fun _ _ caps => Some caps)) eqn:E.
    + inversion H. subst. apply exec_sound in E.
      destruct E as (p' & s' & c' & M & K). inversion K. subst.
      exists EmptyString, (String c s), s', m. auto.
    + destruct (IH _ _ H) as (before & s0 & s' & caps' & -> & M & ->).
      exists (String c before), s0, s', caps'. auto.
Qed.

(** ** The table name *)

Lemma matched_plus (p : ascii -> bool) (s s' : string) (c c' : captures) :
  matched (plus p) s s' c c' ->
  exists w, s = w ++ s' /\ w <> EmptyString /\ allBytes p w = true /\ c' = c.
Proof.
  unfold plus. cbn [matched]. intros (s1 & c1 & (x & -> & Hx & ->) & (w & -> & Hw & ->)).
  exists (String x w). simpl. rewrite Hx, Hw. repeat split. discriminate.
Qed.

Lemma matched_opt_class (p : ascii -> bool) (s s' : string) (c c' : captures) :
  matched (opt (Cls p)) s s' c c' ->
  exists q, s = q ++ s' /\ c' = c /\
    (q = EmptyString \/ exists x, q = String x EmptyString /\ p x = true).
Proof.
  unfold opt. cbn [matched]. intros [(x & -> & Hx & ->) | (-> & ->)].
  - exists (String x EmptyString). repeat split. right. now exists x.
  - exists EmptyString. repeat split. now left.
Qed.

Lemma matched_chr (a : ascii) (s s' : string) (c c' : captures) :
  matched (chr a) s s' c c' -> s = String a s' /\ c' = c.
Proof.
  unfold chr. cbn [matched]. intros (x & -> & Hx & ->).
  apply Ascii.eqb_eq in Hx. now subst.
Qed.

(** What a match of the table-name pattern looks like: the first group is a
    non-empty run of letters, digits and underscores, followed by at most one
    quote character, white space and the open parenthesis. *)
Lemma tableNameRegex_matched (s0 s' : string) (caps : captures) :
  matched (Group 0 tableNameRegex) s0 s' [] caps ->
  exists before name q ws,
    s0 = before ++ name ++ q ++ ws ++ String "(" s' /\
    lookup 1 caps = name /\
    name <> EmptyString /\
    allBytes identByte name = true /\
    (q = EmptyString \/ exists x, q = String x EmptyString /\ quoteByte x = true) /\
    allBytes reSpace ws = true.
Proof.
  unfold tableNameRegex, seqs. cbn [matched].
  intros (c0 & (s1 & c1 & M1 & s2 & c2 & M2 & s3 & c3 & M3 & s4 & c4 & M4 &
                s5 & c5 & M5 & s6 & c6 & M6 & s7 & c7 & (c7' & M7 & E7) &
                s8 & c8 & M8 & s9 & c9 & (ws & E9 & Hws & E9') & M10) & ->).
  pose proof M1 as M1'. apply matched_groupFree in M1'; [|reflexivity].
  destruct (matched_suffix _ _ _ _ _ M1) as (w1 & E1).
  pose proof M2 as M2'. apply matched_groupFree in M2'; [|reflexivity].
  destruct (matched_suffix _ _ _ _ _ M2) as (w2 & E2).
  pose proof M3 as M3'. apply matched_groupFree in M3'; [|reflexivity].
  destruct (matched_suffix _ _ _ _ _ M3) as (w3 & E3).
  pose proof M4 as M4'. apply matched_groupFree in M4'; [|reflexivity].
  destruct (matched_suffix _ _ _ _ _ M4) as (w4 & E4).
  pose proof M5 as M5'. apply matched_groupFree in M5'; [|reflexivity].
  destruct (matched_suffix _ _ _ _ _ M5) as (w5 & E5).
  apply matched_opt_class in M6. destruct M6 as (q6 & E6 & C6 & _).
  apply matched_plus in M7. destruct M7 as (name & En & Hne & Hname & C7).
  apply matched_opt_class in M8. destruct M8 as (q & E8 & C8 & Hq).
  apply matched_chr in M10. destruct M10 as (E10 & C10).
  subst. exists (w1 ++ w2 ++ w3 ++ w4 ++ w5 ++ q6), name, q, ws.
  split; [now rewrite !append_assoc|].
  split; [cbn [lookup Nat.eqb]; apply take_matched|].
  auto.
Qed.

Lemma tableName_found (s : string) :
  (length (regexp.FindStringSubmatch tableNameRegex 1 s) <? 2)%nat = false ->
  exists before name q ws rest,
    s = before ++ name ++ q ++ ws ++ String "(" rest /\
    nth 1 (regexp.FindStringSubmatch tableNameRegex 1 s) EmptyString = name /\
    name <> EmptyString /\
    allBytes identByte name = true /\
    (q = EmptyString \/ exists x, q = String x EmptyString /\ quoteByte x = true) /\
    allBytes reSpace ws = true.
Proof.
  unfold regexp.FindStringSubmatch.
  destruct (search (Group 0 tableNameRegex) None s) as [caps|] eqn:E; [|discriminate].
  intros _. apply search_sound in E.
  destruct E as (pre & s0 & s' & caps' & -> & M & ->).
  apply tableNameRegex_matched in M.
  destruct M as (before & name & q & ws & -> & L & Hne & Hid & Hq & Hws).
  exists (pre ++ before), name, q, ws, s'.
  split; [now rewrite !append_assoc|]. cbn [seq map nth]. auto.
Qed.

Lemma parseColumns_loop_no_error (lines : list string) :
  forall acc e, parseColumns_loop lines acc <> Err e.
Proof.
  induction lines as [|line lines IH]; intros acc e; cbn [parseColumns_loop].
  - discriminate.
  - destruct (strings.TrimSpace line =? "")%string; [apply IH|].
    destruct (isConstraint (strings.TrimSpace line)); [apply IH|].
    destruct (parseColumnDefinition (strings.TrimSpace line)); [apply IH | apply IH | discriminate].
Qed.

Lemma parseColumns_outcomes (block : string) :
  (exists fields, parseColumns block = Ok fields /\ fields <> []) \/
  parseColumns block = Err NoValidColumns \/
  parseColumns block = Panic.
Proof.
  unfold parseColumns.
  destruct (parseColumns_loop (splitColumns block) []) as [fs|e|] eqn:L; cbn [bind].
  - destruct fs as [|f fs]; [right; now left|].
    left. exists (f :: fs). split; [reflexivity | discriminate].
  - now apply parseColumns_loop_no_error in L.
  - right. now right.
Qed.

(** X1. Parse is all or nothing, and its errors are three: for every ASCII
    input it returns exactly one record with at least one field, named after
    a non-empty table identifier of letters, digits and underscores, or one
    of the errors NoTableName, NoClosingParen and NoValidColumns (wrapped as
    a column-parsing failure), or it panics.  The NoColumnBlock error of the
    source is never returned. *)
Theorem ParseSQL_outcomes :
  forall sql : string,
    asciiText sql = true ->
    (exists tableName fields,
        ParseSQL sql = Ok [StructDef.mk (toPascalCase tableName) fields] /\
        fields <> [] /\
        tableName <> EmptyString /\
        allBytes identByte tableName = true) \/
    ParseSQL sql = Err NoTableName \/
    ParseSQL sql = Err NoClosingParen \/
    ParseSQL sql = Err (ParseColumnsFailed NoValidColumns) \/
    ParseSQL sql = Panic.
Proof.
  intros sql _. unfold ParseSQL.
  destruct (length _ <? 2)%nat eqn:M; [right; now left|].
  pose proof (tableNameRegex_match_has_paren _ M) as Hp.
  destruct (tableName_found _ M) as (before & name & q & ws & rest & _ & -> & Hne & Hid & _).
  destruct (columnBlockOf _) as [block|e|] eqn:B; cbn [bind].
  - destruct (parseColumns_outcomes block) as [(fields & -> & Hf) | [-> | ->]].
    + left. exists name, fields. auto.
    + do 3 right. now left.
    + do 4 right. reflexivity.
  - apply (columnBlockOf_errors _ _ Hp) in B. subst e. right. right. now left.
  - do 4 right. reflexivity.
Qed.

Lemma ParseSQL_outcomes_witness :
  (exists tableName fields,
      ParseSQL "CREATE TABLE t (id INT" = Ok [StructDef.mk (toPascalCase tableName) fields] /\
      fields <> [] /\
      tableName <> EmptyString /\
      allBytes identByte tableName = true) \/
  ParseSQL "CREATE TABLE t (id INT" = Err NoTableName \/
  ParseSQL "CREATE TABLE t (id INT" = Err NoClosingParen \/
  ParseSQL "CREATE TABLE t (id INT" = Err (ParseColumnsFailed NoValidColumns) \/
  ParseSQL "CREATE TABLE t (id INT" = Panic.
Proof.
  apply (ParseSQL_outcomes "CREATE TABLE t (id INT"). reflexivity.
Defined.

(** ** Panics of the parser, exactly *)

Lemma removeDefault_no_error (line : string) (idx : Z) (e : error) :
  removeDefault line idx <> Err e.
Proof.
  unfold removeDefault, slice_from, slice_to, byte_at.
  repeat match goal with
         | |- context [if ?b then _ else _] => destruct b; cbn [bind]
         | |- context [match ?x with _ => _ end] => destruct x; cbn [bind]
         end; discriminate.
Qed.

(** X3. On an ASCII tail the stripping step never returns an error, and it
    panics exactly when both keywords occur in the upper-cased tail and
    DEFAULT ends after the place where COMMENT begins: the tail is cut at
    COMMENT first and then sliced at the index of DEFAULT in the uncut
    text. *)
Theorem removeCommentsAndDefaults_panics_exactly :
  forall line : string,
    asciiText line = true ->
    let upperLine := strings.ToUpper line in
    (forall e, removeCommentsAndDefaults line <> Err e) /\
    (removeCommentsAndDefaults line = Panic <->
     0 <= strings.Index upperLine "COMMENT" /\
     0 <= strings.Index upperLine "DEFAULT" /\
     strings.Index upperLine "COMMENT" < strings.Index upperLine "DEFAULT" + 7).
Proof.
  intros line _ upperLine. split.
  - intros e. unfold removeCommentsAndDefaults. fold upperLine.
    destruct (negb (strings.Index upperLine "COMMENT" =? -1)).
    + unfold slice_to.
      destruct ((0 <=? _) && (_ <=? len line)); cbn [bind]; [|discriminate].
      destruct (negb (strings.Index upperLine "DEFAULT" =? -1)); [|discriminate].
      destruct (removeDefault _ _) eqn:E; cbn [bind]; try discriminate.
      now apply removeDefault_no_error in E.
    + cbn [bind].
      destruct (negb (strings.Index upperLine "DEFAULT" =? -1)); [|discriminate].
      destruct (removeDefault _ _) eqn:E; cbn [bind]; try discriminate.
      now apply removeDefault_no_error in E.
  - split.
    + apply removeCommentsAndDefaults_Panic.
    + intros (Hc & Hd & Hlt). now apply removeCommentsAndDefaults_panics.
Qed.

Lemma removeCommentsAndDefaults_panics_exactly_witness :
  let upperLine := strings.ToUpper "TEXT COMMENT 'a DEFAULT b'" in
  (forall e, removeCommentsAndDefaults "TEXT COMMENT 'a DEFAULT b'" <> Err e) /\
  (removeCommentsAndDefaults "TEXT COMMENT 'a DEFAULT b'" = Panic <->
   0 <= strings.Index upperLine "COMMENT" /\
   0 <= strings.Index upperLine "DEFAULT" /\
   strings.Index upperLine "COMMENT" < strings.Index upperLine "DEFAULT" + 7).
Proof.
  apply (removeCommentsAndDefaults_panics_exactly "TEXT COMMENT 'a DEFAULT b'").
  reflexivity.
Defined.

Lemma parseColumnDefinition_empty : parseColumnDefinition "" = Err (InvalidColumn "").
Proof. reflexivity. Qed.

Lemma parseColumns_loop_panics (lines : list string) (clause : string) :
  In clause lines ->
  isConstraint (strings.TrimSpace clause) = false ->
  parseColumnDefinition (strings.TrimSpace clause) = Panic ->
  forall acc, parseColumns_loop lines acc = Panic.
Proof.
  intros Hin Hc Hp. induction lines as [|line lines IH]; [destruct Hin|].
  intros acc. cbn [parseColumns_loop].
  destruct Hin as [-> | Hin].
  - destruct (strings.TrimSpace clause =? "")%string eqn:E.
    + apply String.eqb_eq in E. rewrite E in Hp. discriminate Hp.
    + now rewrite Hc, Hp.
  - specialize (IH Hin).
    destruct (strings.TrimSpace line =? "")%string; [apply IH|].
    destruct (isConstraint (strings.TrimSpace line)); [apply IH|].
    destruct (parseColumnDefinition (strings.TrimSpace line)); [apply IH | apply IH | reflexivity].
Qed.

Lemma parseColumns_loop_Panic_clause (lines : list string) :
  forall acc,
    parseColumns_loop lines acc = Panic ->
    exists clause, In clause lines /\
      isConstraint (strings.TrimSpace clause) = false /\
      parseColumnDefinition (strings.TrimSpace clause) = Panic.
Proof.
  induction lines as [|line lines IH]; intros acc H; [discriminate H|].
  cbn [parseColumns_loop] in H.
  assert (Hskip : forall acc', parseColumns_loop lines acc' = Panic ->
                  exists clause, In clause (line :: lines) /\
                    isConstraint (strings.TrimSpace clause) = false /\
                    parseColumnDefinition (strings.TrimSpace clause) = Panic).
  { intros acc' H'. destruct (IH _ H') as (cl & Hcl & Hp).
    exists cl. split; [now right | exact Hp]. }
  destruct (strings.TrimSpace line =? "")%string; [now apply (Hskip acc)|].
  destruct (isConstraint (strings.TrimSpace line)) eqn:C; [now apply (Hskip acc)|].
  destruct (parseColumnDefinition (strings.TrimSpace line)) as [f|e|] eqn:P.
  - now apply (Hskip (acc ++ [f])%list).
  - now apply (Hskip acc).
  - exists line. split; [now left | split; [exact C | exact P]].
Qed.

Lemma parseColumnDefinition_panics_exactly (line : string) :
  parseColumnDefinition line = Panic <-> panickingClause (strings.TrimSpace line).
Proof.
  unfold parseColumnDefinition, panickingClause.
  destruct (extractColumnName_returns (strings.TrimSpace line)) as ((name, tail) & E).
  rewrite E. cbn [bind]. split.
  - intros H.
    destruct (name =? "")%string eqn:Hn; [discriminate H|].
    destruct (extractDataType tail =? "")%string eqn:Ht; [discriminate H|].
    destruct (removeCommentsAndDefaults tail) eqn:R; try discriminate H.
    apply removeCommentsAndDefaults_Panic in R.
    exists name, tail. auto.
  - intros (n & t & En & Hn & Ht & Hc & Hd & Hlt).
    inversion En. subst n t. rewrite Hn, Ht.
    now rewrite removeCommentsAndDefaults_panics.
Qed.

(** X4. On ASCII input Parse panics exactly when the table name and the
    column block are found and some clause of the block that is not a
    constraint has an accepted name and type and a tail in which DEFAULT ends
    after the start of COMMENT; every other slice and index expression of the
    parser is in range. *)
Theorem ParseSQL_panics_exactly :
  forall sql : string,
    asciiText sql = true ->
    let text := normalizeWhitespace (strings.TrimSpace sql) in
    ParseSQL sql = Panic <->
    (length (regexp.FindStringSubmatch tableNameRegex 1 text) <? 2)%nat = false /\
    exists block clause,
      columnBlockOf text = Ok block /\
      In clause (splitColumns block) /\
      isConstraint (strings.TrimSpace clause) = false /\
      panickingClause (strings.TrimSpace clause).
Proof.
  intros sql _ text. unfold ParseSQL. fold text. split.
  - intros H. destruct (length _ <? 2)%nat; [discriminate H|].
    split; [reflexivity|].
    destruct (columnBlockOf text) as [block|e|] eqn:B;
      [| discriminate H | now apply columnBlockOf_never_panics in B].
    cbn [bind] in H.
    destruct (parseColumns block) as [fields|e|] eqn:P; try discriminate H.
    unfold parseColumns in P.
    destruct (parseColumns_loop (splitColumns block) []) as [fs|e|] eqn:L;
      cbn [bind] in P.
    + destruct (length fs =? 0)%nat; discriminate P.
    + discriminate P.
    + apply parseColumns_loop_Panic_clause in L.
      destruct L as (clause & Hin & Hc & Hp).
      apply parseColumnDefinition_panics_exactly in Hp. rewrite TrimSpace_twice in Hp.
      exists block, clause. auto.
  - intros (M & block & clause & B & Hin & Hc & Hp).
    rewrite M, B. cbn [bind]. unfold parseColumns.
    rewrite (parseColumns_loop_panics _ clause Hin Hc); [reflexivity|].
    apply parseColumnDefinition_panics_exactly. now rewrite TrimSpace_twice.
Qed.

Lemma ParseSQL_panics_exactly_witness :
  let text := normalizeWhitespace
                (strings.TrimSpace "CREATE TABLE t (n TEXT COMMENT 'a DEFAULT b')") in
  ParseSQL "CREATE TABLE t (n TEXT COMMENT 'a DEFAULT b')" = Panic <->
  (length (regexp.FindStringSubmatch tableNameRegex 1 text) <? 2)%nat = false /\
  exists block clause,
    columnBlockOf text = Ok block /\
    In clause (splitColumns block) /\
    isConstraint (strings.TrimSpace clause) = false /\
    panickingClause (strings.TrimSpace clause).
Proof.
  apply (ParseSQL_panics_exactly "CREATE TABLE t (n TEXT COMMENT 'a DEFAULT b')").
  reflexivity.
Defined.

Lemma take_take (n m : nat) (s : string) :
  (n <= m)%nat -> take n (take m s) = take n s.
Proof.
  revert m s. induction n as [|n IH]; intros [|m] [|c s] H; simpl; try reflexivity; try lia.
  f_equal. apply IH. lia.
Qed.

(** X5. On an ASCII tail, when the value after DEFAULT does not begin with
    a quote, the stripping step removes all the text from DEFAULT on,
    whatever follows the value (a COMMENT, if any, beginning after the
    keyword DEFAULT): the text tested for NOT NULL is the trimmed tail before
    DEFAULT. *)
Theorem removeCommentsAndDefaults_cuts_at_unquoted_default :
  forall (line : string) (c : ascii) (value : string),
    asciiText line = true ->
    let upperLine := strings.ToUpper line in
    let comment := strings.Index upperLine "COMMENT" in
    let idx := strings.Index upperLine "DEFAULT" in
    let cut := if comment =? -1 then line else take (Z.to_nat comment) line in
    0 <= idx ->
    comment = -1 \/ idx + 7 <= comment ->
    strings.TrimSpace (drop (Z.to_nat (idx + 7)) cut) = String c value ->
    (c =? "'")%char || (c =? dquote)%char = false ->
    removeCommentsAndDefaults line = Ok (strings.TrimSpace (take (Z.to_nat idx) line)).
Proof.
  intros line c value _ upperLine comment idx cut Hd Hc Hrest Hq.
  destruct Hc as [Hc | Hc].
  - apply (removeCommentsAndDefaults_unquoted_default line c value); auto.
    fold upperLine. fold comment. fold idx.
    unfold cut in Hrest. rewrite Hc in Hrest. exact Hrest.
  - unfold removeCommentsAndDefaults. fold upperLine. fold comment. fold idx.
    pose proof (Index_le_len upperLine "COMMENT") as Lc. fold comment in Lc.
    assert (Hl : len upperLine = len line)
      by (unfold len, upperLine, strings.ToUpper; now rewrite length_smap).
    rewrite Hl in Lc.
    assert (Ec : (comment =? -1) = false) by (apply Z.eqb_neq; lia).
    unfold cut in Hrest. rewrite Ec in Hrest. rewrite Ec. cbn [negb].
    rewrite slice_to_in_range by lia. cbn [bind].
    replace (idx =? -1) with false by (symmetry; apply Z.eqb_neq; lia).
    cbn [negb].
    assert (Lt : len (take (Z.to_nat comment) line) = comment)
      by (unfold len in *; rewrite length_take by lia; lia).
    unfold removeDefault. rewrite slice_from_in_range by lia.
    cbn [bind]. cbv beta zeta. rewrite Hrest, Hq, andb_false_r.
    pose proof (TrimSpace_startsClean
                  (drop (Z.to_nat (idx + 7)) (take (Z.to_nat comment) line))) as Hclean.
    rewrite Hrest in Hclean. simpl in Hclean.
    rewrite (Fields_of_text c value Hclean).
    rewrite slice_to_in_range by lia. cbn [bind].
    rewrite take_take by lia. reflexivity.
Qed.

Lemma removeCommentsAndDefaults_cuts_witness :
  removeCommentsAndDefaults "INT DEFAULT 0 NOT NULL COMMENT 'n'"
  = Ok (strings.TrimSpace (take (Z.to_nat 4) "INT DEFAULT 0 NOT NULL COMMENT 'n'")).
Proof.
  apply (removeCommentsAndDefaults_cuts_at_unquoted_default
           "INT DEFAULT 0 NOT NULL COMMENT 'n'" "0" " NOT NULL").
  - reflexivity.
  - vm_compute. discriminate.
  - right. vm_compute. discriminate.
  - vm_compute. reflexivity.
  - reflexivity.
Defined.

(** ** The fields follow the clauses *)

Lemma parseColumns_loop_clauseFields (lines : list string) :
  forall acc fields,
    parseColumns_loop lines acc = Ok fields ->
    fields = (acc ++ clauseFields lines)%list.
Proof.
  induction lines as [|line lines IH]; intros acc fields H.
  - simpl in H. inversion H. now rewrite app_nil_r.
  - cbn [parseColumns_loop] in H. unfold clauseFields. cbn [flat_map].
    fold (clauseFields lines).
    destruct (strings.TrimSpace line =? "")%string; [now apply IH|].
    destruct (isConstraint (strings.TrimSpace line)); [now apply IH|].
    destruct (parseColumnDefinition (strings.TrimSpace line)) as [f|e|];
      [| now apply IH | discriminate H].
    apply IH in H. rewrite H. now rewrite <- app_assoc.
Qed.

Lemma clauseFields_length (lines : list string) :
  (length (clauseFields lines) <= length lines)%nat.
Proof.
  induction lines as [|line lines IH]; [simpl; lia|].
  unfold clauseFields. cbn [flat_map]. fold (clauseFields lines).
  rewrite length_app. cbn [length].
  destruct (strings.TrimSpace line =? "")%string; [simpl; lia|].
  destruct (isConstraint (strings.TrimSpace line)); [simpl; lia|].
  destruct (parseColumnDefinition (strings.TrimSpace line)); simpl; lia.
Qed.

(** X6. The fields of the record that Parse returns are the fields of the
    clauses of the column block, in the order of the clauses: each clause
    that is not blank, not a constraint and parses gives exactly one field,
    every other clause gives none.  So there are at most as many fields as
    clauses. *)
Theorem ParseSQL_fields_follow_clauses :
  forall (sql : string) (defs : list StructDef.t),
    ParseSQL sql = Ok defs ->
    exists structName block,
      columnBlockOf (normalizeWhitespace (strings.TrimSpace sql)) = Ok block /\
      defs = [StructDef.mk structName (clauseFields (splitColumns block))] /\
      (length (clauseFields (splitColumns block)) <= length (splitColumns block))%nat.
Proof.
  intros sql defs H. unfold ParseSQL in H.
  destruct (length _ <? 2)%nat; [discriminate H|].
  apply bind_Ok in H. destruct H as (block & Hb & H).
  destruct (parseColumns block) as [fields| |] eqn:P; try discriminate H.
  inversion H. subst defs. clear H.
  unfold parseColumns in P. apply bind_Ok in P. destruct P as (fs & L & P).
  destruct (length fs =? 0)%nat; [discriminate P|]. inversion P. subst fs.
  apply parseColumns_loop_clauseFields in L. simpl in L. subst fields.
  eexists _, block. split; [exact Hb | split; [reflexivity | apply clauseFields_length]].
Qed.

Lemma ParseSQL_fields_follow_clauses_witness :
  exists structName block,
    columnBlockOf (normalizeWhitespace
                     (strings.TrimSpace "CREATE TABLE t (b INT, PRIMARY KEY (b), a TEXT)"))
    = Ok block /\
    [StructDef.mk "T" [FieldDef.mk "B" "*int" "b"; FieldDef.mk "A" "*string" "a"]]
    = [StructDef.mk structName (clauseFields (splitColumns block))] /\
    (length (clauseFields (splitColumns block)) <= length (splitColumns block))%nat.
Proof.
  apply (ParseSQL_fields_follow_clauses "CREATE TABLE t (b INT, PRIMARY KEY (b), a TEXT)").
  vm_compute. reflexivity.
Defined.

(** ** White space normalization *)

Lemma collapseSpace_twice (s : string) :
  collapseSpace true (collapseSpace true s) = collapseSpace true s /\
  collapseSpace false (collapseSpace false s) = collapseSpace false s /\
  collapseSpace false (collapseSpace true s) = collapseSpace true s.
Proof.
  induction s as [|c s (A & B & C)]; [repeat split|].
  cbn [collapseSpace]. destruct (reSpace c) eqn:E.
  - split; [exact A | split; [|exact C]].
    cbn [collapseSpace]. change (reSpace " ") with true. cbv iota. now rewrite A.
  - cbn [collapseSpace]. rewrite E, B. repeat split.
Qed.

Lemma reSpace_isSpace (c : ascii) : reSpace c = true -> isSpace c = true.
Proof. unfold reSpace. intros H. now apply andb_true_iff in H. Qed.

Lemma trimRight_fixed_tail (c : ascii) (s : string) :
  strings.trimRight (String c s) = String c s ->
  (s = EmptyString /\ isSpace c = false) \/
  (s <> EmptyString /\ strings.trimRight s = s).
Proof.
  cbn [strings.trimRight]. destruct (strings.trimRight s) as [|d u] eqn:E.
  - destruct (isSpace c); [discriminate|]. intros H. inversion H. now left.
  - intros H. inversion H. right. split; [discriminate | reflexivity].
Qed.

Lemma trimRight_cons (c : ascii) (w : string) :
  w <> EmptyString -> strings.trimRight w = w ->
  strings.trimRight (String c w) = String c w.
Proof.
  intros Hne Hw. cbn [strings.trimRight]. rewrite Hw.
  destruct w; [contradiction | reflexivity].
Qed.

Lemma collapseSpace_nonempty (s : string) :
  forall inRun, s <> EmptyString -> strings.trimRight s = s ->
    collapseSpace inRun s <> EmptyString.
Proof.
  induction s as [|c s IH]; intros inRun Hne H; [contradiction|].
  cbn [collapseSpace]. destruct (reSpace c) eqn:E; [|discriminate].
  destruct inRun; [|discriminate].
  destruct (trimRight_fixed_tail _ _ H) as [(_ & Hc) | (Hs & Ht)].
  - apply reSpace_isSpace in E. congruence.
  - now apply IH.
Qed.

Lemma collapseSpace_trimRight (s : string) :
  forall inRun, strings.trimRight s = s ->
    strings.trimRight (collapseSpace inRun s) = collapseSpace inRun s.
Proof.
  induction s as [|c s IH]; intros inRun H; [reflexivity|].
  destruct (trimRight_fixed_tail _ _ H) as [(-> & Hc) | (Hs & Ht)].
  - cbn [collapseSpace].
    destruct (reSpace c) eqn:E; [apply reSpace_isSpace in E; congruence|].
    simpl. now rewrite Hc.
  - cbn [collapseSpace]. destruct (reSpace c).
    + destruct inRun; [now apply IH|].
      apply trimRight_cons; [now apply collapseSpace_nonempty | now apply IH].
    + apply trimRight_cons; [now apply collapseSpace_nonempty | now apply IH].
Qed.

Lemma collapseSpace_startsClean (s : string) :
  startsClean s -> startsClean (collapseSpace false s).
Proof.
  destruct s as [|c s]; [auto|]. simpl. intros H.
  destruct (reSpace c) eqn:E; [apply reSpace_isSpace in E; congruence | exact H].
Qed.

Lemma normalized_is_trimmed (s : string) :
  strings.TrimSpace (normalizeWhitespace (strings.TrimSpace s))
  = normalizeWhitespace (strings.TrimSpace s).
Proof.
  unfold strings.TrimSpace at 1, normalizeWhitespace.
  rewrite trimLeft_clean by (apply collapseSpace_startsClean, TrimSpace_startsClean).
  apply collapseSpace_trimRight. unfold strings.TrimSpace. apply trimRight_twice.
Qed.

(** X7. The text normalizer is idempotent, and so is the normalization that
    Parse performs first (trimming, then collapsing every run of white space
    into one space): Parse returns on the normalized text what it returns on
    the original. *)
Theorem ParseSQL_on_normalized_text :
  forall sql : string,
    normalizeWhitespace (normalizeWhitespace sql) = normalizeWhitespace sql /\
    normalizeWhitespace (strings.TrimSpace (normalizeWhitespace (strings.TrimSpace sql)))
    = normalizeWhitespace (strings.TrimSpace sql) /\
    ParseSQL (normalizeWhitespace (strings.TrimSpace sql)) = ParseSQL sql.
Proof.
  intros sql.
  assert (N : forall s, normalizeWhitespace (normalizeWhitespace s) = normalizeWhitespace s)
    by (intros s; apply collapseSpace_twice).
  assert (T : normalizeWhitespace
                (strings.TrimSpace (normalizeWhitespace (strings.TrimSpace sql)))
              = normalizeWhitespace (strings.TrimSpace sql))
    by (rewrite normalized_is_trimmed; apply N).
  split; [apply N | split; [exact T|]].
  unfold ParseSQL. now rewrite T.
Qed.

(** ** The column splitter *)

Lemma closeEach_app (a b : list string) :
  closeEach (a ++ b) = closeEach a ++ closeEach b.
Proof.
  induction a as [|p a IH]; [reflexivity|].
  simpl. rewrite IH. now rewrite !append_assoc.
Qed.

Lemma Join_snoc (parts : list string) (p : string) :
  strings.Join (parts ++ [p]) "," = closeEach parts ++ p.
Proof.
  induction parts as [|q parts IH]; [reflexivity|].
  change ((q :: parts) ++ [p])%list with (q :: (parts ++ [p]))%list.
  cbn [strings.Join closeEach].
  destruct (parts ++ [p])%list as [|x xs] eqn:E.
  - now destruct parts.
  - rewrite IH. now rewrite !append_assoc.
Qed.

Lemma closeEach_Join (parts : list string) :
  closeEach parts
  = strings.Join parts "," ++ match parts with [] => EmptyString | _ => "," end.
Proof.
  induction parts as [|q parts IH]; [reflexivity|].
  cbn [strings.Join closeEach]. destruct parts as [|x xs].
  - reflexivity.
  - rewrite IH. now rewrite !append_assoc.
Qed.

Lemma splitColumns_loop_keeps_bytes (rest : string) :
  forall result current parenCount,
  exists suffix,
    (suffix = EmptyString \/ suffix = ",") /\
    closeEach result ++ current ++ rest
    = strings.Join (splitColumns_loop rest result current parenCount) "," ++ suffix.
Proof.
  induction rest as [|char rest IH]; intros result current parenCount.
  - cbn [splitColumns_loop]. rewrite append_empty_r.
    destruct (0 <? len current) eqn:E.
    + exists EmptyString. split; [now left|].
      now rewrite Join_snoc, append_empty_r.
    + assert (current = EmptyString) as ->.
      { destruct current; [reflexivity|].
        rewrite len_cons in E. pose proof (len_nonneg current).
        apply Z.ltb_ge in E. lia. }
      rewrite append_empty_r, closeEach_Join.
      destruct result; [exists EmptyString | exists ","]; auto.
  - assert (Hkeep : forall n,
             exists suffix,
               (suffix = EmptyString \/ suffix = ",") /\
               closeEach result ++ current ++ String char rest
               = strings.Join
                   (splitColumns_loop rest result (current ++ String char "") n) ","
                 ++ suffix).
    { intros n. destruct (IH result (current ++ String char "") n) as (sfx & Hs & E).
      exists sfx. split; [exact Hs|]. rewrite <- E. now rewrite !append_assoc. }
    cbn [splitColumns_loop].
    destruct (char =? "(")%char; [apply Hkeep|].
    destruct (char =? ")")%char; [apply Hkeep|].
    destruct (char =? ",")%char eqn:Ec; [|apply Hkeep].
    destruct (parenCount =? 0); [|apply Hkeep].
    apply Ascii.eqb_eq in Ec. subst char.
    destruct (IH (result ++ [current])%list EmptyString parenCount) as (sfx & Hs & E).
    exists sfx. split; [exact Hs|]. rewrite <- E.
    rewrite closeEach_app. simpl. now rewrite !append_assoc.
Qed.

Lemma hasByte_append (p : ascii -> bool) (a b : string) :
  hasByte p (a ++ b) = hasByte p a || hasByte p b.
Proof.
  induction a as [|c a IH]; [reflexivity|]. simpl. now rewrite IH, orb_assoc.
Qed.

Lemma splitColumns_loop_flat (rest : string) :
  forall result current,
    hasByte isParen rest = false ->
    hasByte isComma current = false ->
    (forall p, In p result -> hasByte isComma p = false) ->
    forall p, In p (splitColumns_loop rest result current 0) ->
      hasByte isComma p = false.
Proof.
  induction rest as [|char rest IH]; intros result current Hr Hc Hres p.
  - cbn [splitColumns_loop]. destruct (0 <? len current); [|apply Hres].
    intros H. apply in_app_or in H. destruct H as [H | [<- | []]]; [now apply Hres | exact Hc].
  - simpl in Hr. apply orb_false_iff in Hr. destruct Hr as (Hch & Hr).
    unfold isParen in Hch. apply orb_false_iff in Hch. destruct Hch as (Ho & Hcl).
    cbn [splitColumns_loop]. rewrite Ho, Hcl.
    destruct (char =? ",")%char eqn:Ec.
    + change (0 =? 0) with true. cbv iota. apply IH; [exact Hr | reflexivity|].
      intros q H. apply in_app_or in H. destruct H as [H | [<- | []]]; [now apply Hres | exact Hc].
    + apply IH; [exact Hr | | exact Hres].
      rewrite hasByte_append, Hc. simpl. unfold isComma. now rewrite Ec.
Qed.

(** X8. The column splitter loses no byte: the pieces joined with commas
    give back the column block, but for one closing comma that the splitter
    drops when the last piece is empty.  When the block has no parenthesis at
    all, no piece contains a comma. *)
Theorem splitColumns_keeps_the_block :
  forall columnBlock : string,
    (exists suffix,
        (suffix = EmptyString \/ suffix = ",") /\
        columnBlock = strings.Join (splitColumns columnBlock) "," ++ suffix) /\
    (hasByte isParen columnBlock = false ->
     forall piece, In piece (splitColumns columnBlock) -> hasByte isComma piece = false).
Proof.
  intros columnBlock. split.
  - destruct (splitColumns_loop_keeps_bytes columnBlock [] EmptyString 0) as (sfx & Hs & E).
    exists sfx. split; [exact Hs | exact E].
  - intros H. apply splitColumns_loop_flat; [exact H | reflexivity | intros p []].
Qed.

Lemma splitColumns_keeps_the_block_witness :
  hasByte isComma " b TEXT" = false.
Proof.
  apply (proj2 (splitColumns_keeps_the_block "a INT, b TEXT,"));
    [reflexivity | simpl; auto].
Defined.

(** ** The matching parenthesis and the column block *)

Lemma findMatchingParen_loop_spec (rest : string) :
  forall i count,
    1 <= count ->
    (findMatchingParen_loop rest i count = -1 /\
     forall n, 1 <= count + balance (take n rest)) \/
    (exists w tail,
        rest = w ++ String ")" tail /\
        findMatchingParen_loop rest i count = i + len w /\
        count + balance w = 1 /\
        forall n, 1 <= count + balance (take n w)).
Proof.
  induction rest as [|c rest IH]; intros i count Hc.
  - left. split; [reflexivity|]. intros [|n]; simpl; lia.
  - cbn [findMatchingParen_loop].
    assert (Hstep : forall d,
              (if (c =? "(")%char then 1 else if (c =? ")")%char then -1 else 0) = d ->
              1 <= count + d ->
              (findMatchingParen_loop rest (i + 1) (count + d) = -1 /\
               forall n, 1 <= count + balance (take n (String c rest))) \/
              (exists w tail,
                  String c rest = w ++ String ")" tail /\
                  findMatchingParen_loop rest (i + 1) (count + d) = i + len w /\
                  count + balance w = 1 /\
                  forall n, 1 <= count + balance (take n w))).
    { intros d Hd Hcd.
      destruct (IH (i + 1) (count + d) Hcd) as [(E & Hall) | (w & tail & -> & E & Hb & Hall)].
      - left. split; [exact E|]. intros [|n]; simpl; [lia|].
        rewrite Hd. specialize (Hall n). lia.
      - right. exists (String c w), tail. split; [reflexivity|].
        rewrite len_cons. split; [rewrite E; lia|].
        split; [simpl; rewrite Hd; lia|].
        intros [|n]; simpl; [lia|]. rewrite Hd. specialize (Hall n). lia. }
    destruct (c =? "(")%char eqn:Eo.
    + apply (Hstep 1); [reflexivity | lia].
    + destruct (c =? ")")%char eqn:Ec.
      * destruct (count - 1 =? 0) eqn:E0.
        -- apply Z.eqb_eq in E0. apply Ascii.eqb_eq in Ec. subst c.
           right. exists EmptyString, rest. split; [reflexivity|].
           split; [unfold len; simpl; lia|].
           split; [simpl; lia|]. intros [|n]; simpl; lia.
        -- apply Z.eqb_neq in E0.
           replace (count - 1) with (count + -1) by lia.
           apply (Hstep (-1)); [reflexivity | lia].
      * assert (H0 : 1 <= count + 0) by lia.
        pose proof (Hstep 0 eq_refl H0) as Hs.
        rewrite !Z.add_0_r in Hs. exact Hs.
Qed.

Lemma findMatchingParen_scan (s : string) (start : Z) :
  let after := drop (Z.to_nat (start + 1)) s in
  (findMatchingParen s start = -1 /\
   forall n, 0 <= balance (take n after)) \/
  (exists inside tail,
      after = inside ++ String ")" tail /\
      findMatchingParen s start = start + 1 + len inside /\
      balance inside = 0 /\
      forall n, 0 <= balance (take n inside)).
Proof.
  intros after. unfold findMatchingParen. fold after.
  destruct (findMatchingParen_loop_spec after (start + 1) 1)
    as [(E & Hall) | (w & tail & Ea & E & Hb & Hall)]; [lia | |].
  - left. split; [exact E|]. intros n. specialize (Hall n). lia.
  - right. exists w, tail. split; [exact Ea|]. split; [exact E|].
    split; [lia|]. intros n. specialize (Hall n). lia.
Qed.

(** X9. For an open parenthesis at [start], the scan returns the index of
    its matching close parenthesis: the text in between has as many open as
    close parentheses and none of its prefixes has more close than open
    ones.  It returns -1 when the text after [start] never returns to depth
    zero. *)
Theorem findMatchingParen_spec :
  forall (s : string) (start : Z),
    0 <= start ->
    let after := drop (Z.to_nat (start + 1)) s in
    (findMatchingParen s start = -1 /\
     forall n, 0 <= balance (take n after)) \/
    (exists inside tail,
        after = inside ++ String ")" tail /\
        findMatchingParen s start = start + 1 + len inside /\
        balance inside = 0 /\
        forall n, 0 <= balance (take n inside)).
Proof. intros s start _. apply findMatchingParen_scan. Qed.

Lemma findMatchingParen_spec_witness :
  let after := drop (Z.to_nat (2 + 1)) "f (a (b) c) d" in
  (findMatchingParen "f (a (b) c) d" 2 = -1 /\
   forall n, 0 <= balance (take n after)) \/
  (exists inside tail,
      after = inside ++ String ")" tail /\
      findMatchingParen "f (a (b) c) d" 2 = 2 + 1 + len inside /\
      balance inside = 0 /\
      forall n, 0 <= balance (take n inside)).
Proof.
  apply (findMatchingParen_spec "f (a (b) c) d" 2). lia.
Defined.

Lemma take_drop (n : nat) (s : string) : take n s ++ drop n s = s.
Proof.
  revert s. induction n as [|n IH]; intros [|c s]; simpl; try reflexivity.
  now rewrite IH.
Qed.

Lemma columnBlockRegex_matched (s0 s' : string) (caps : captures) :
  matched (Group 0 columnBlockRegex) s0 s' [] caps ->
  exists block rest,
    s0 = String "(" (block ++ String ")" rest) /\
    lookup 1 caps = block /\ block <> EmptyString.
Proof.
  unfold columnBlockRegex, seqs. cbn [matched].
  intros (c0 & (s1 & c1 & M1 & s2 & c2 & (c2' & M2 & E2) & s3 & c3 & M3 &
                s4 & c4 & (ws & E4 & _ & E4') & M5) & ->).
  apply matched_chr in M1. destruct M1 as (E1 & C1).
  apply matched_plus in M2. destruct M2 as (block & Eb & Hne & _ & C2).
  apply matched_chr in M3. destruct M3 as (E3 & C3).
  pose proof M5 as M5'. apply matched_groupFree in M5'; [|reflexivity].
  subst. exists block, (ws ++ s4).
  split; [reflexivity|]. split; [|exact Hne].
  cbn [lookup Nat.eqb]. apply take_matched.
Qed.

(** X10. The column block that Parse works on is a part of the normalized
    text that stands between an open and a close parenthesis.  When the
    column-block pattern does not match, it is the text between the first
    open parenthesis and its matching close parenthesis, and so it is
    balanced. *)
Theorem columnBlockOf_between_parentheses :
  forall s block : string,
    columnBlockOf s = Ok block ->
    (exists before rest, s = before ++ String "(" (block ++ String ")" rest)) /\
    (regexp.FindStringSubmatch columnBlockRegex 1 s = [] ->
     balance block = 0 /\
     exists before rest,
       s = before ++ String "(" (block ++ String ")" rest) /\
       hasByte isOpenParen before = false).
Proof.
  intros s block. unfold columnBlockOf, regexp.FindStringSubmatch.
  destruct (search (Group 0 columnBlockRegex) None s) as [caps|] eqn:E.
  - cbn [seq map length Nat.ltb Nat.leb bind nth]. intros H. inversion H. clear H.
    split; [|discriminate].
    apply search_sound in E. destruct E as (pre & s0 & s' & caps' & -> & M & ->).
    apply columnBlockRegex_matched in M. destruct M as (b & rest & -> & L & _).
    exists pre, rest. now rewrite L.
  - cbn [length Nat.ltb Nat.leb].
    destruct (strings.Index s "(" =? -1) eqn:Ei; [discriminate|].
    apply Z.eqb_neq in Ei. pose proof (Index_range s "(") as R.
    destruct (Index_single_found "(" s _ eq_refl) as (Hs & Hno); [lia|].
    destruct (findMatchingParen s (strings.Index s "(") =? -1) eqn:Ee; [discriminate|].
    apply Z.eqb_neq in Ee.
    destruct (findMatchingParen_scan s (strings.Index s "("))
      as [(En & _) | (w & tail & Ea & Er & Hb & _)]; [contradiction |].
    rewrite Er. pose proof (len_nonneg w) as Hw.
    intros H. apply bind_Ok in H. destruct H as (ms & Hms & H).
    apply bind_Ok in Hms. destruct Hms as (b & Hsl & Hms).
    inversion Hms. subst ms. clear Hms.
    cbn [length Nat.ltb Nat.leb nth] in H. inversion H. subst b. clear H.
    apply slice_Ok in Hsl. destruct Hsl as (_ & Hb').
    rewrite Ea in Hb'.
    replace (Z.to_nat (strings.Index s "(" + 1 + len w - (strings.Index s "(" + 1)))
      with (String.length w) in Hb' by (unfold len; lia).
    rewrite take_append in Hb'. subst block.
    assert (Es : s = take (Z.to_nat (strings.Index s "(")) s ++ String "(" (w ++ String ")" tail))
      by (rewrite <- Ea; exact Hs).
    split; [eauto|]. intros _. split; [exact Hb|]. eauto.
Qed.

Lemma columnBlockOf_between_parentheses_witness :
  (exists before rest,
      "CREATE TABLE t (a INT(3), b TEXT) x"
      = before ++ String "(" ("a INT(3), b TEXT" ++ String ")" rest)) /\
  (regexp.FindStringSubmatch columnBlockRegex 1 "CREATE TABLE t (a INT(3), b TEXT) x" = [] ->
   balance "a INT(3), b TEXT" = 0 /\
   exists before rest,
     "CREATE TABLE t (a INT(3), b TEXT) x"
     = before ++ String "(" ("a INT(3), b TEXT" ++ String ")" rest) /\
     hasByte isOpenParen before = false).
Proof.
  apply (columnBlockOf_between_parentheses "CREATE TABLE t (a INT(3), b TEXT) x").
  vm_compute. reflexivity.
Defined.

(** ** The case converters, part by part *)

Lemma Split_nonempty (s : string) (sep : ascii) : strings.Split s sep <> [].
Proof.
  destruct s as [|c s]; simpl; [discriminate|].
  destruct (c =? sep)%char; [discriminate|].
  destruct (strings.Split s sep); discriminate.
Qed.

Lemma Split_append (a b : string) (sep : ascii) :
  strings.Split (a ++ String sep b) sep
  = (strings.Split a sep ++ strings.Split b sep)%list.
Proof.
  induction a as [|c a IH].
  - simpl. now rewrite Ascii.eqb_refl.
  - cbn [String.append strings.Split]. rewrite IH.
    destruct (c =? sep)%char; [reflexivity|].
    pose proof (Split_nonempty a sep) as Hne.
    destruct (strings.Split a sep); [contradiction | reflexivity].
Qed.

Lemma Split_parts (s : string) (sep : ascii) :
  forall part, In part (strings.Split s sep) ->
    hasByte (fun x => (x =? sep)%char) part = false.
Proof.
  induction s as [|c s IH]; intros part H.
  - destruct H as [<- | []]. reflexivity.
  - cbn [strings.Split] in H. destruct (c =? sep)%char eqn:E.
    + destruct H as [<- | H]; [reflexivity | now apply IH].
    + pose proof (Split_nonempty s sep) as Hne.
      destruct (strings.Split s sep) as [|p ps]; [contradiction|].
      destruct H as [<- | H].
      * simpl. rewrite E. apply IH. now left.
      * apply IH. now right.
Qed.

Lemma pascalPart_capitalize (result part : string) :
  pascalPart result part = result ++ capitalize part.
Proof.
  destruct part as [|c [|d rest]]; simpl.
  - now rewrite append_empty_r.
  - reflexivity.
  - now rewrite append_assoc.
Qed.

Lemma fold_pascalPart (parts : list string) :
  forall result,
    fold_left pascalPart parts result
    = result ++ fold_left pascalPart parts EmptyString.
Proof.
  induction parts as [|p parts IH]; intros result; simpl.
  - now rewrite append_empty_r.
  - rewrite IH, (IH (pascalPart EmptyString p)).
    rewrite !pascalPart_capitalize. simpl. now rewrite append_assoc.
Qed.

Lemma capitalize_no_underscore (part : string) :
  hasByte isUnderscore part = false -> hasByte isUnderscore (capitalize part) = false.
Proof.
  destruct part as [|c rest]; [reflexivity|]. simpl. intros H.
  apply orb_false_iff in H. destruct H as (Hc & Hr). unfold isUnderscore in *.
  now rewrite (toUpperByte_not_underscore c Hc), (ToLower_no_underscore rest Hr).
Qed.

Lemma fold_pascalPart_no_underscore (parts : list string) :
  (forall p, In p parts -> hasByte isUnderscore p = false) ->
  hasByte isUnderscore (fold_left pascalPart parts EmptyString) = false.
Proof.
  induction parts as [|p parts IH]; intros H; [reflexivity|].
  simpl. rewrite fold_pascalPart, pascalPart_capitalize, hasByte_append. simpl.
  rewrite capitalize_no_underscore by (apply H; now left).
  apply IH. intros q Hq. apply H. now right.
Qed.

(** X11. The snake to Pascal converter works part by part: the conversion
    of two names joined by an underscore is the two conversions put together,
    so underscores at the ends or repeated leave no trace; an ASCII name
    without underscore gets its first byte in upper case and the others in
    lower case; and the result never contains an underscore. *)
Theorem toPascalCase_part_by_part :
  forall a b : string,
    toPascalCase (a ++ String "_" b) = toPascalCase a ++ toPascalCase b /\
    (asciiText a = true -> strings.Contains a "_" = false ->
     toPascalCase a = capitalize a) /\
    strings.Contains (toPascalCase a) "_" = false.
Proof.
  intros a b. split; [|split].
  - unfold toPascalCase. rewrite Split_append, fold_left_app.
    now rewrite fold_pascalPart.
  - intros _ H. rewrite Contains_single in H. now apply toPascalCase_segment.
  - rewrite Contains_single. apply fold_pascalPart_no_underscore.
    intros p Hp. now apply Split_parts in Hp.
Qed.

Lemma toPascalCase_part_by_part_witness :
  toPascalCase "userid" = capitalize "userid".
Proof.
  apply (proj1 (proj2 (toPascalCase_part_by_part "userid" ""))); reflexivity.
Defined.

Lemma dropUnderscores_append (a b : string) :
  dropUnderscores (a ++ b) = dropUnderscores a ++ dropUnderscores b.
Proof.
  induction a as [|c a IH]; [reflexivity|]. simpl.
  destruct (isUnderscore c); [exact IH | simpl; now rewrite IH].
Qed.

Lemma boundary_values (s : string) (i : Z) (sep : string) :
  boundary s i = Ok sep -> sep = EmptyString \/ sep = "_".
Proof.
  unfold boundary. destruct (0 <? i); [|intros H; inversion H; now left].
  destruct (byte_at s (i - 1)) as [p| |]; cbn [bind]; try discriminate.
  destruct (negb (p =? "_")%char); [|intros H; inversion H; now left].
  destruct (i + 1 <? len s).
  - destruct (byte_at s (i + 1)) as [n| |]; cbn [bind]; try discriminate.
    destruct (isLowerAZ p || isLowerAZ n); intros H; inversion H; auto.
  - cbn [bind]. destruct (isLowerAZ p || false); intros H; inversion H; auto.
Qed.

Lemma shift_is_toLowerByte (r : ascii) : isUpperAZ r = true -> shift 32 r = toLowerByte r.
Proof. unfold toLowerByte. now intros ->. Qed.

Lemma upper_not_underscore (r : ascii) : isUpperAZ r = true -> isUnderscore (toLowerByte r) = false.
Proof. by_bytes r. Qed.

Lemma toSnakeCase_loop_letters (s rest : string) :
  forall i out y,
    toSnakeCase_loop s i rest out = Ok y ->
    dropUnderscores y = dropUnderscores out ++ dropUnderscores (strings.ToLower rest) /\
    len out + len rest <= len y.
Proof.
  induction rest as [|r rest IH]; intros i out y H.
  - simpl in H. inversion H. simpl. rewrite append_empty_r. split; [reflexivity|].
    unfold len. simpl. lia.
  - cbn [toSnakeCase_loop] in H.
    change (strings.ToLower (String r rest))
      with (String (toLowerByte r) (strings.ToLower rest)).
    rewrite len_cons.
    destruct (isUpperAZ r) eqn:U.
    + destruct (boundary s i) as [sep| |] eqn:B; cbn [bind] in H; try discriminate H.
      apply IH in H. destruct H as (H & L). rewrite H.
      rewrite !dropUnderscores_append. cbn [dropUnderscores].
      rewrite shift_is_toLowerByte by exact U.
      rewrite (upper_not_underscore r U).
      rewrite !len_append in L. pose proof (len_nonneg sep) as Hs.
      rewrite len_cons in L. change (len "") with 0 in L.
      assert (Hd : dropUnderscores sep = EmptyString)
        by (destruct (boundary_values _ _ _ B) as [-> | ->]; reflexivity).
      rewrite Hd. split; [|lia].
      rewrite append_assoc. cbn [String.append]. reflexivity.
    + cbn [bind] in H. apply IH in H. destruct H as (H & L). rewrite H.
      rewrite dropUnderscores_append. cbn [dropUnderscores].
      unfold toLowerByte. rewrite U.
      rewrite len_append, len_cons in L. change (len "") with 0 in L.
      split; [|lia].
      destruct (isUnderscore r); cbn [String.append];
        rewrite ?append_empty_r, ?append_assoc; reflexivity.
Qed.

Lemma ToLower_fixed (s : string) : isLowerSnakeCase s = true -> strings.ToLower s = s.
Proof.
  induction s as [|c s IH]; [reflexivity|]. simpl.
  destruct (isUpperAZ c) eqn:U; [discriminate|]. intros H.
  change (strings.ToLower (String c s)) with (String (toLowerByte c) (strings.ToLower s)).
  unfold toLowerByte. now rewrite U, IH.
Qed.

(** X12. The any-case to snake converter only lower-cases letters and
    inserts underscores: its result has no capital letter, for an ASCII input
    it is the lower-cased input once the underscores of both are left out, it
    is at least as long as the input, and it is the input itself exactly when
    the input has no capital letter. *)
Theorem toSnakeCase_only_inserts_underscores :
  forall s : string,
    exists y,
      toSnakeCase s = Ok y /\
      isLowerSnakeCase y = true /\
      (asciiText s = true ->
       dropUnderscores y = dropUnderscores (strings.ToLower s)) /\
      len s <= len y /\
      (y = s <-> isLowerSnakeCase s = true).
Proof.
  intros s. destruct (toSnakeCase_lower s) as (y & E & L).
  exists y. split; [exact E|]. split; [exact L|].
  destruct (isLowerSnakeCase s) eqn:Ls.
  - rewrite (toSnakeCase_fixes_lower s Ls) in E. inversion E. subst y.
    rewrite (ToLower_fixed s Ls). repeat split. lia.
  - assert (Hloop : toSnakeCase_loop s 0 s EmptyString = Ok y).
    { unfold toSnakeCase in E. rewrite Ls in E.
      destruct (s =? "")%string eqn:Es; [|exact E].
      apply String.eqb_eq in Es. subst s. discriminate Ls. }
    apply toSnakeCase_loop_letters in Hloop. destruct Hloop as (H & Hl).
    split; [intros _; exact H|]. change (len "") with 0 in Hl. split; [lia|].
    split; [intros ->; congruence | discriminate].
Qed.

Lemma toSnakeCase_only_inserts_underscores_witness :
  exists y,
    toSnakeCase "UserID" = Ok y /\
    isLowerSnakeCase y = true /\
    dropUnderscores y = dropUnderscores (strings.ToLower "UserID") /\
    len "UserID" <= len y /\
    (y = "UserID" <-> isLowerSnakeCase "UserID" = true).
Proof.
  destruct (toSnakeCase_only_inserts_underscores "UserID") as (y & E & L & D & N & F).
  exists y. split; [exact E|]. split; [exact L|].
  split; [apply D; reflexivity|]. split; [exact N | exact F].
Defined.

(** ** The type mapper *)

Lemma ToUpper_twice (s : string) : strings.ToUpper (strings.ToUpper s) = strings.ToUpper s.
Proof.
  induction s as [|c s IH]; [reflexivity|].
  change (String (toUpperByte (toUpperByte c)) (strings.ToUpper (strings.ToUpper s))
          = String (toUpperByte c) (strings.ToUpper s)).
  now rewrite toUpperByte_twice, IH.
Qed.

Ltac case_switch :=
  repeat match goal with
         | |- context [if oneOf ?a ?l then _ else _] =>
             destruct (oneOf a l) eqn:?; cbv beta iota zeta
         end.

Lemma mapSQLTypeToGo_base (sqlType : string) (unsigned : bool) :
  In (mapSQLTypeToGo sqlType false unsigned) goBaseTypes.
Proof.
  unfold mapSQLTypeToGo, goBaseTypes. generalize (strings.ToUpper sqlType) as t.
  intros t. cbv beta zeta. case_switch; destruct unsigned; simpl; auto 15.
Qed.

Lemma mapSQLTypeToGo_nullable (sqlType : string) (unsigned : bool) :
  mapSQLTypeToGo sqlType true unsigned
  = (if (mapSQLTypeToGo sqlType false unsigned =? "[]byte")%string
     then "[]byte" else "*" ++ mapSQLTypeToGo sqlType false unsigned).
Proof.
  unfold mapSQLTypeToGo. generalize (strings.ToUpper sqlType) as t.
  intros t. cbv beta zeta. case_switch; destruct unsigned; reflexivity.
Qed.

Lemma mapSQLTypeToGo_integers (sqlType : string) :
  oneOf (strings.ToUpper sqlType) integerTypes = true ->
  In (strings.ToUpper sqlType,
      (mapSQLTypeToGo sqlType false false, mapSQLTypeToGo sqlType false true))
     integerGoTypes.
Proof.
  unfold mapSQLTypeToGo, integerTypes, oneOf. generalize (strings.ToUpper sqlType) as t.
  intros t H. cbn [existsb] in H.
  repeat match type of H with
         | (?a || ?b) = true =>
             apply orb_true_iff in H; destruct H as [H | H];
             [apply String.eqb_eq in H; subst t; vm_compute; auto 10|]
         end.
  discriminate H.
Qed.

Lemma mapSQLTypeToGo_unsigned_differs (sqlType : string) (nullable : bool) :
  oneOf (strings.ToUpper sqlType) integerTypes = true ->
  mapSQLTypeToGo sqlType nullable true <> mapSQLTypeToGo sqlType nullable false.
Proof.
  unfold mapSQLTypeToGo, integerTypes, oneOf. generalize (strings.ToUpper sqlType) as t.
  intros t H. cbn [existsb] in H.
  repeat match type of H with
         | (?a || ?b) = true =>
             apply orb_true_iff in H; destruct H as [H | H];
             [apply String.eqb_eq in H; subst t; destruct nullable; vm_compute; discriminate|]
         end.
  discriminate H.
Qed.

Lemma goBaseTypes_reached (goType : string) :
  In goType goBaseTypes ->
  exists sqlType unsigned,
    asciiText sqlType = true /\ mapSQLTypeToGo sqlType false unsigned = goType.
Proof.
  intros H. cbn [goBaseTypes In] in H.
  repeat (destruct H as [<- | H];
          [first [ now exists "BOOL", false | now exists "TINYINT", false
                 | now exists "TINYINT", true | now exists "SMALLINT", false
                 | now exists "SMALLINT", true | now exists "INT", false
                 | now exists "INT", true | now exists "BIGINT", false
                 | now exists "BIGINT", true | now exists "FLOAT", false
                 | now exists "TEXT", false | now exists "DATE", false
                 | now exists "BLOB", false ]|]).
  destruct H.
Qed.

(** X13. The type mapper on an ASCII type name.  It gives one of thirteen Go
    types to a column that is not nullable, and each of the thirteen is the
    type of some SQL type name.  A nullable column gets the same type behind
    a pointer, but for the byte slice, which is never behind a pointer.  The
    letter case of the SQL type name does not matter.  UNSIGNED changes the
    result exactly for the six integer types: TINYINT gives int8 and, when
    unsigned, uint8; SMALLINT int16 and uint16; MEDIUMINT, INT and INTEGER
    int and uint32; BIGINT int64 and uint64. *)
Theorem mapSQLTypeToGo_table :
  (forall (sqlType : string) (nullable unsigned : bool),
      asciiText sqlType = true ->
      let base := mapSQLTypeToGo sqlType false unsigned in
      In base goBaseTypes /\
      mapSQLTypeToGo sqlType true unsigned
      = (if (base =? "[]byte")%string then "[]byte" else "*" ++ base) /\
      mapSQLTypeToGo (strings.ToUpper sqlType) nullable unsigned
      = mapSQLTypeToGo sqlType nullable unsigned /\
      (oneOf (strings.ToUpper sqlType) integerTypes = false ->
       mapSQLTypeToGo sqlType nullable true = mapSQLTypeToGo sqlType nullable false) /\
      (oneOf (strings.ToUpper sqlType) integerTypes = true ->
       mapSQLTypeToGo sqlType nullable true <> mapSQLTypeToGo sqlType nullable false /\
       In (strings.ToUpper sqlType,
           (mapSQLTypeToGo sqlType false false, mapSQLTypeToGo sqlType false true))
          integerGoTypes)) /\
  (forall goType : string,
      In goType goBaseTypes ->
      exists sqlType unsigned,
        asciiText sqlType = true /\ mapSQLTypeToGo sqlType false unsigned = goType).
Proof.
  split; [|apply goBaseTypes_reached].
  intros sqlType nullable unsigned _ base.
  split; [|split; [|split; [|split]]].
  - apply mapSQLTypeToGo_base.
  - apply mapSQLTypeToGo_nullable.
  - unfold mapSQLTypeToGo. now rewrite ToUpper_twice.
  - unfold mapSQLTypeToGo, integerTypes, oneOf. generalize (strings.ToUpper sqlType) as t.
    intros t H. cbv beta zeta. cbn [existsb] in *.
    repeat match type of H with
           | (?a || ?b) = false => apply orb_false_iff in H; destruct H as (?E & H)
           end.
    repeat match goal with
           | E : (t =? _)%string = false |- _ => rewrite E; clear E
           end.
    cbn [orb]. destruct (_ || _); [reflexivity|].
    destruct (_ || _); [reflexivity|].
    destruct (_ || _); reflexivity.
  - intros H. split; [now apply mapSQLTypeToGo_unsigned_differs|].
    now apply mapSQLTypeToGo_integers.
Qed.

Lemma mapSQLTypeToGo_table_witness :
  mapSQLTypeToGo "varchar" true true = mapSQLTypeToGo "varchar" true false /\
  (mapSQLTypeToGo "bigint" true true <> mapSQLTypeToGo "bigint" true false /\
   In (strings.ToUpper "bigint",
       (mapSQLTypeToGo "bigint" false false, mapSQLTypeToGo "bigint" false true))
      integerGoTypes) /\
  exists sqlType unsigned,
    asciiText sqlType = true /\ mapSQLTypeToGo sqlType false unsigned = "time.Time".
Proof.
  split; [|split].
  - apply (proj1 (proj2 (proj2 (proj2
             (proj1 mapSQLTypeToGo_table "varchar" true false eq_refl)))));
      reflexivity.
  - apply (proj2 (proj2 (proj2 (proj2
             (proj1 mapSQLTypeToGo_table "bigint" true false eq_refl)))));
      reflexivity.
  - apply (proj2 mapSQLTypeToGo_table "time.Time"). simpl. auto 15.
Defined.

(** ** The type keyword *)

Lemma matched_noGroup (n : nat) (r : regex) :
  forall s s' c c',
    noGroup n r = true -> matched r s s' c c' -> lookup n c' = lookup n c.
Proof.
  induction r as [|p|p|r1 IH1 r2 IH2|r1 IH1 r2 IH2|m r IH| | |];
    intros s s' c c' G H; simpl in *.
  - now destruct H as (_ & ->).
  - now destruct H as (x & _ & _ & ->).
  - now destruct H as (w & _ & _ & ->).
  - apply andb_true_iff in G. destruct G as (G1 & G2).
    destruct H as (s1 & c1 & H1 & H2).
    apply (IH1 _ _ _ _ G1) in H1. apply (IH2 _ _ _ _ G2) in H2. congruence.
  - apply andb_true_iff in G. destruct G as (G1 & G2).
    destruct H as [H | H]; [now apply (IH1 _ _ _ _ G1) in H | now apply (IH2 _ _ _ _ G2) in H].
  - apply andb_true_iff in G. destruct G as (G1 & G2).
    destruct H as (c1 & H & ->). apply negb_true_iff in G1.
    cbn [lookup]. rewrite G1. now apply (IH _ _ _ _ G2) in H.
  - now destruct H as (_ & ->).
  - now destruct H as (_ & _ & ->).
  - now destruct H as (_ & ->).
Qed.

Lemma matched_istr (kw : string) :
  forall s s' c c',
    matched (istr kw) s s' c c' ->
    iprefix kw s = true /\ s = take (String.length kw) s ++ s' /\ c' = c.
Proof.
  induction kw as [|a kw IH]; intros s s' c c' H; simpl in H.
  - destruct H as (E & ->). subst s'. simpl. auto.
  - destruct H as (s1 & c1 & (x & -> & Hx & ->) & H).
    apply IH in H. destruct H as (Hp & Hs & ->).
    simpl. rewrite Hx, Hp. repeat split. now rewrite <- Hs.
Qed.

Lemma matched_keywords (kws : list string) :
  forall s s' c c',
    matched (alts (map istr kws)) s s' c c' ->
    exists kw, In kw kws /\ matched (istr kw) s s' c c'.
Proof.
  induction kws as [|kw kws IH]; intros s s' c c' H.
  - simpl in H. destruct H as (x & _ & Hx & _). discriminate Hx.
  - destruct kws as [|kw' kws].
    + exists kw. split; [now left | exact H].
    + change (matched (Alt (istr kw) (alts (map istr (kw' :: kws)))) s s' c c') in H.
      cbn [matched] in H. destruct H as [H | H].
      * exists kw. split; [now left | exact H].
      * destruct (IH _ _ _ _ H) as (k & Hk & M). exists k. split; [now right | exact M].
Qed.

Lemma toUpperByte_of_lower (x : ascii) : toUpperByte (toLowerByte x) = toUpperByte x.
Proof. by_bytes x. Qed.

Lemma toUpperByte_of_lowered_capital (c : ascii) :
  isUpperAZ c = true -> toUpperByte (toLowerByte c) = c.
Proof. by_bytes c. Qed.

Lemma iprefix_ToUpper (kw : string) :
  forall s,
    allBytes isUpperAZ kw = true -> iprefix kw s = true ->
    strings.ToUpper (take (String.length kw) s) = kw.
Proof.
  induction kw as [|c kw IH]; intros s Hk Hp; [reflexivity|].
  destruct s as [|x s]; [discriminate Hp|].
  simpl in Hk, Hp. apply andb_true_iff in Hk. destruct Hk as (Hc & Hk).
  apply andb_true_iff in Hp. destruct Hp as (Hx & Hp).
  apply Ascii.eqb_eq in Hx.
  cbn [String.length take].
  change (strings.ToUpper (String x (take (String.length kw) s)))
    with (String (toUpperByte x) (strings.ToUpper (take (String.length kw) s))).
  rewrite (IH s Hk Hp), <- toUpperByte_of_lower, Hx.
  now rewrite toUpperByte_of_lowered_capital.
Qed.

Lemma typeKeywords_upper :
  forall kw, In kw typeKeywords -> allBytes isUpperAZ kw = true /\ kw <> EmptyString.
Proof.
  assert (H : forallb (fun kw => allBytes isUpperAZ kw && negb (kw =? "")%string)
                typeKeywords = true) by (vm_compute; reflexivity).
  intros kw Hin. rewrite forallb_forall in H. specialize (H kw Hin).
  apply andb_true_iff in H. destruct H as (Hu & Hn). split; [exact Hu|].
  apply negb_true_iff in Hn. now apply String.eqb_neq.
Qed.

Lemma iprefix_length (kw : string) :
  forall s, iprefix kw s = true -> (String.length kw <= String.length s)%nat.
Proof.
  induction kw as [|c kw IH]; intros s H; simpl; [lia|].
  destruct s as [|x s]; [discriminate H|]. simpl in *.
  apply andb_true_iff in H. destruct H as (_ & H). apply IH in H. lia.
Qed.

Lemma typeRegex_matched (s0 s' : string) (caps : captures) :
  matched (Group 0 typeRegex) s0 s' [] caps ->
  exists kw, In kw typeKeywords /\ iprefix kw s0 = true /\
    lookup 1 caps = take (String.length kw) s0.
Proof.
  unfold typeRegex, seqs. cbn [matched].
  intros (c0 & (s1 & c1 & (E1 & C1) & s2 & c2 & (c2' & M2 & E2) &
                s3 & c3 & M3 & M4) & ->).
  subst s1 c1. apply matched_keywords in M2. destruct M2 as (kw & Hin & M2).
  apply matched_istr in M2. destruct M2 as (Hp & Hs & ->).
  exists kw. split; [exact Hin|]. split; [exact Hp|].
  cbn [lookup Nat.eqb].
  apply (matched_noGroup 1) in M4; [|reflexivity].
  apply (matched_noGroup 1) in M3; [|reflexivity].
  rewrite M4, M3.
  subst c2. cbn [lookup Nat.eqb].
  assert (Hl : (String.length s0 - String.length s2 = String.length kw)%nat).
  { pose proof (f_equal String.length Hs) as Hlen.
    rewrite length_append in Hlen.
    rewrite length_take in Hlen by (now apply iprefix_length).
    lia. }
  now rewrite Hl.
Qed.

Lemma exec_istr_prefix (kw : string) :
  forall prev s caps (k : cont),
    iprefix kw s = true ->
    exists prev', exec (istr kw) prev s caps k = k prev' (drop (String.length kw) s) caps.
Proof.
  induction kw as [|c kw IH]; intros prev s caps k H.
  - exists prev. reflexivity.
  - destruct s as [|x s]; [discriminate H|]. simpl in H.
    apply andb_true_iff in H. destruct H as (Hx & Hp).
    cbn [istr exec String.length drop]. unfold ichr. cbn [exec]. rewrite Hx.
    apply IH. exact Hp.
Qed.

Lemma exec_keywords_prefix (kws : list string) :
  forall prev s caps (k : cont),
    neverFails k ->
    forallb (fun kw => negb (iprefix kw s)) kws = false ->
    exec (alts (map istr kws)) prev s caps k <> None.
Proof.
  induction kws as [|kw kws IH]; intros prev s caps k Hk H; [discriminate H|].
  simpl in H.
  assert (Hhere : iprefix kw s = true -> exec (istr kw) prev s caps k <> None).
  { intros Hp. destruct (exec_istr_prefix kw prev s caps k Hp) as (p' & ->). apply Hk. }
  destruct kws as [|kw' kws].
  - simpl in *. destruct (iprefix kw s); [now apply Hhere | discriminate H].
  - change (exec (Alt (istr kw) (alts (map istr (kw' :: kws)))) prev s caps k <> None).
    cbn [exec]. destruct (iprefix kw s) eqn:Hp.
    + specialize (Hhere eq_refl). destruct (exec (istr kw) prev s caps k); [discriminate | contradiction].
    + destruct (exec (istr kw) prev s caps k); [discriminate|].
      cbn [orElse]. apply IH; [exact Hk | exact H].
Qed.

Lemma neverFails_opt (r : regex) (k : cont) :
  neverFails k -> neverFails (fun prev s caps => exec (opt r) prev s caps k).
Proof.
  intros Hk prev s caps. unfold opt. cbn [exec].
  destruct (exec r prev s caps k); [discriminate | apply Hk].
Qed.

Lemma typeRegex_inside_vocabulary (tail : string) :
  outsideVocabulary tail = false ->
  regexp.FindStringSubmatch typeRegex 3 tail <> [].
Proof.
  intros H. unfold regexp.FindStringSubmatch.
  assert (E : exec (Group 0 typeRegex) None tail [] (fun _ _ caps => Some caps) <> None).
  { unfold typeRegex, seqs. cbn [exec].
    apply exec_keywords_prefix; [|exact H].
    intros prev s caps.
    apply (neverFails_opt _ (fun prev' s' caps' => exec (opt _) prev' s' caps' _)).
    apply neverFails_opt. intros p' s'' c''. discriminate. }
  destruct tail as [|x tail]; cbn [search];
    destruct (exec (Group 0 typeRegex) None _ [] _); try contradiction; discriminate.
Qed.

Lemma search_typeRegex_start (s : string) :
  search (Group 0 typeRegex) None s
  = exec (Group 0 typeRegex) None s [] (fun _ _ caps => Some caps).
Proof.
  destruct s as [|x s]; cbn [search];
    destruct (exec (Group 0 typeRegex) None _ [] _); try reflexivity.
  apply search_typeRegex_inside.
Qed.

(** X14. The type extraction accepts an ASCII tail exactly when it begins,
    letter case apart, with a keyword of the type vocabulary; what it returns
    is then such a keyword, in upper case, or TINYINT(1) for a tail that
    begins with TINYINT; for every other ASCII tail it returns the empty
    string. *)
Theorem extractDataType_in_vocabulary :
  forall definition : string,
    asciiText definition = true ->
    (extractDataType definition = EmptyString <-> outsideVocabulary definition = true) /\
    (extractDataType definition = EmptyString \/
     exists kw,
       In kw typeKeywords /\ iprefix kw definition = true /\
       (extractDataType definition = kw \/
        (kw = "TINYINT" /\ extractDataType definition = "TINYINT(1)"))).
Proof.
  intros definition _.
  assert (Hin : outsideVocabulary definition = false ->
                exists kw,
                  In kw typeKeywords /\ iprefix kw definition = true /\
                  (extractDataType definition = kw \/
                   (kw = "TINYINT" /\ extractDataType definition = "TINYINT(1)"))).
  { intros H. apply typeRegex_inside_vocabulary in H.
    unfold extractDataType, regexp.FindStringSubmatch in *.
    rewrite search_typeRegex_start in *.
    destruct (exec (Group 0 typeRegex) None definition [] (fun _ _ caps => Some caps))
      as [caps|] eqn:E; [|contradiction].
    apply exec_sound in E. destruct E as (p' & s' & caps' & M & K).
    inversion K. subst caps'. clear K.
    apply typeRegex_matched in M. destruct M as (kw & Hkw & Hp & L).
    destruct (typeKeywords_upper kw Hkw) as (Hu & Hne).
    exists kw. split; [exact Hkw|]. split; [exact Hp|].
    cbn [seq map nth]. rewrite L, (iprefix_ToUpper kw definition Hu Hp).
    destruct ((kw =? "TINYINT")%string && (lookup 2 caps =? "1")%string) eqn:T.
    - right. apply andb_true_iff in T. destruct T as (T & _).
      apply String.eqb_eq in T. auto.
    - now left. }
  split.
  - split.
    + intros E. destruct (outsideVocabulary definition) eqn:O; [reflexivity|].
      destruct (Hin eq_refl) as (kw & Hkw & _ & [R | (_ & R)]).
      * destruct (typeKeywords_upper kw Hkw) as (_ & Hne). congruence.
      * rewrite R in E. discriminate E.
    + apply extractDataType_outside_vocabulary.
  - destruct (outsideVocabulary definition) eqn:O.
    + left. now apply extractDataType_outside_vocabulary.
    + right. now apply Hin.
Qed.

Lemma extractDataType_in_vocabulary_witness :
  (extractDataType "varchar(20) NOT NULL" = EmptyString
   <-> outsideVocabulary "varchar(20) NOT NULL" = true) /\
  (extractDataType "varchar(20) NOT NULL" = EmptyString \/
   exists kw,
     In kw typeKeywords /\ iprefix kw "varchar(20) NOT NULL" = true /\
     (extractDataType "varchar(20) NOT NULL" = kw \/
      (kw = "TINYINT" /\ extractDataType "varchar(20) NOT NULL" = "TINYINT(1)"))).
Proof.
  apply (extractDataType_in_vocabulary "varchar(20) NOT NULL"). reflexivity.
Defined.

(** ** The matcher is complete on patterns without anchors *)

Lemma star_complete (p : ascii -> bool) (k : cont) (w s' : string) (caps : captures) :
  allBytes p w = true ->
  (forall q, k q s' caps <> None) ->
  forall prev, star p prev (w ++ s') caps k <> None.
Proof.
  intros Hw Hk. induction w as [|x w IH]; intros prev.
  - cbn [String.append]. destruct s' as [|c t]; cbn [star]; [apply Hk|].
    destruct (p c); [|apply Hk].
    destruct (star p (Some c) t caps k); cbn [orElse]; [discriminate | apply Hk].
  - simpl in Hw. apply andb_true_iff in Hw. destruct Hw as (Hx & Hw).
    cbn [String.append star]. rewrite Hx.
    specialize (IH Hw (Some x)).
    destruct (star p (Some x) (w ++ s') caps k); [discriminate | contradiction].
Qed.

Lemma exec_complete (r : regex) :
  anchorFree r = true ->
  forall s s' c c',
    matched r s s' c c' ->
    forall prev (k : cont), (forall q, k q s' c' <> None) -> exec r prev s c k <> None.
Proof.
  induction r as [|p|p|r1 IH1 r2 IH2|r1 IH1 r2 IH2|n r IH| | |];
    intros A s s' c c' M prev k Hk; simpl in A, M; cbn [exec]; try discriminate A.
  - destruct M as (-> & ->). apply Hk.
  - destruct M as (x & -> & Hx & ->). rewrite Hx. apply Hk.
  - destruct M as (w & -> & Hw & ->). now apply star_complete.
  - apply andb_true_iff in A. destruct A as (A1 & A2).
    destruct M as (s1 & c1 & M1 & M2).
    apply (IH1 A1 _ _ _ _ M1). intros q. now apply (IH2 A2 _ _ _ _ M2).
  - apply andb_true_iff in A. destruct A as (A1 & A2).
    destruct M as [M | M].
    + pose proof (IH1 A1 _ _ _ _ M prev k Hk) as H.
      destruct (exec r1 prev s c k); [discriminate | contradiction].
    + pose proof (IH2 A2 _ _ _ _ M prev k Hk) as H.
      destruct (exec r1 prev s c k); [discriminate | exact H].
  - destruct M as (c1 & M & ->).
    apply (IH A _ _ _ _ M). intros q. apply Hk.
  - destruct M as (-> & -> & ->). apply Hk.
Qed.

(** The search stops at the first position where the pattern matches. *)
Lemma search_first (re : regex) (s : string) :
  forall prev m,
    search re prev s = Some m ->
    exists before s0,
      s = before ++ s0 /\
      (exists p, exec re p s0 [] final = Some m) /\
      forall b1 b2,
        before = b1 ++ b2 -> b2 <> EmptyString ->
        exists p, exec re p (b2 ++ s0) [] final = None.
Proof.
  induction s as [|c s IH]; intros prev m H; cbn [search] in H;
    fold final in H.
  - destruct (exec re prev EmptyString [] final) eqn:E; [|discriminate H].
    inversion H. subst. exists EmptyString, EmptyString.
    split; [reflexivity|]. split; [now exists prev|].
    intros [|x b1] b2 Eb Hb; simpl in Eb; [congruence | discriminate Eb].
  - destruct (exec re prev (String c s) [] final) eqn:E.
    + inversion H. subst. exists EmptyString, (String c s).
      split; [reflexivity|]. split; [now exists prev|].
      intros [|x b1] b2 Eb Hb; simpl in Eb; [congruence | discriminate Eb].
    + destruct (IH _ _ H) as (before & s0 & -> & Hm & Hfirst).
      exists (String c before), s0.
      split; [reflexivity|]. split; [exact Hm|].
      intros [|x b1] b2 Eb Hb; simpl in Eb.
      * subst b2. exists prev. exact E.
      * inversion Eb. subst. now apply (Hfirst b1 b2).
Qed.

(** Two ways of cutting one text: the shorter first part begins the
    longer. *)
Lemma append_cut (a : string) :
  forall b x y,
    a ++ x = b ++ y ->
    (String.length a < String.length b)%nat ->
    exists m, b = a ++ m /\ m <> EmptyString /\ x = m ++ y.
Proof.
  induction a as [|c a IH]; intros b x y E L.
  - destruct b as [|d b]; [simpl in L; lia|].
    exists (String d b). simpl in *. split; [reflexivity|]. split; [discriminate | exact E].
  - destruct b as [|d b]; [simpl in L; lia|].
    simpl in E, L. inversion E. subst d.
    destruct (IH b x y) as (m & -> & Hm & ->); [assumption | lia|].
    exists m. auto.
Qed.

(** ** The header of the statement *)

Lemma toLowerByte_of_upper (x : ascii) : toLowerByte (toUpperByte x) = toLowerByte x.
Proof. by_bytes x. Qed.

Lemma matched_keyword (kw : string) (s s' : string) (c c' : captures) :
  allBytes isUpperAZ kw = true ->
  matched (istr kw) s s' c c' ->
  exists w, s = w ++ s' /\ isKeyword kw w /\ c' = c.
Proof.
  intros Hu M. apply matched_istr in M. destruct M as (Hp & Hs & ->).
  exists (take (String.length kw) s). split; [exact Hs|]. split; [|reflexivity].
  now apply iprefix_ToUpper.
Qed.

Lemma keyword_matched (w : string) :
  forall kw s c, isKeyword kw w -> matched (istr kw) (w ++ s) s c c.
Proof.
  unfold isKeyword. induction w as [|x w IH]; intros kw s c H.
  - simpl in H. subst kw. simpl. auto.
  - change (strings.ToUpper (String x w))
      with (String (toUpperByte x) (strings.ToUpper w)) in H.
    subst kw. cbn [istr matched String.append]. unfold ichr. cbn [matched].
    exists (w ++ s), c. split.
    + exists x. rewrite toLowerByte_of_upper, Ascii.eqb_refl. auto.
    + now apply IH.
Qed.

Lemma matched_blanks (p : ascii -> bool) (s s' : string) (c c' : captures) :
  matched (plus p) s s' c c' ->
  exists w, s = w ++ s' /\ (w <> EmptyString /\ allBytes p w = true) /\ c' = c.
Proof.
  intros M. apply matched_plus in M. destruct M as (w & E & Hne & Hw & ->).
  exists w. auto.
Qed.

Lemma run_matched (p : ascii -> bool) (w s : string) (c : captures) :
  w <> EmptyString -> allBytes p w = true -> matched (plus p) (w ++ s) s c c.
Proof.
  intros Hne Hw. destruct w as [|x w]; [contradiction|].
  simpl in Hw. apply andb_true_iff in Hw. destruct Hw as (Hx & Hw).
  unfold plus. cbn [matched String.append].
  exists (w ++ s), c. split; [exists x; auto | exists w; auto].
Qed.

Lemma optionalQuote_matched (q s : string) (c : captures) :
  optionalQuote q -> matched (opt (Cls quoteByte)) (q ++ s) s c c.
Proof.
  unfold opt. cbn [matched]. intros [-> | (x & -> & Hx)].
  - right. auto.
  - left. exists x. auto.
Qed.

(** A match of the table-name pattern reads a header and stops after the
    open parenthesis; its first group is the table name of the header. *)
Lemma tableNameRegex_header (s0 s' : string) (caps : captures) :
  matched (Group 0 tableNameRegex) s0 s' [] caps ->
  exists h name,
    s0 = h ++ String "(" s' /\ tableHeader h name /\ lookup 1 caps = name.
Proof.
  unfold tableNameRegex, seqs. cbn [matched].
  intros (c0 & (s1 & c1 & M1 & s2 & c2 & M2 & s3 & c3 & M3 & s4 & c4 & M4 &
                s5 & c5 & M5 & s6 & c6 & M6 & s7 & c7 & (c7' & M7 & E7) &
                s8 & c8 & M8 & s9 & c9 & (ws & E9 & Hws & E9') & M10) & ->).
  apply matched_keyword in M1; [|reflexivity]. destruct M1 as (w1 & E1 & K1 & C1).
  apply matched_blanks in M2. destruct M2 as (w2 & E2 & B2 & C2).
  apply matched_keyword in M3; [|reflexivity]. destruct M3 as (w3 & E3 & K3 & C3).
  apply matched_blanks in M4. destruct M4 as (w4 & E4 & B4 & C4).
  assert (H5 : exists ine, s4 = ine ++ s5 /\ ifNotExists ine /\ c5 = c4).
  { unfold opt in M5. cbn [matched] in M5. destruct M5 as [M5 | (-> & ->)].
    - destruct M5 as (t1 & d1 & N1 & t2 & d2 & N2 & t3 & d3 & N3 & t4 & d4 & N4 &
                      t5 & d5 & N5 & N6).
      apply matched_keyword in N1; [|reflexivity]. destruct N1 as (i & -> & Ki & ->).
      apply matched_blanks in N2. destruct N2 as (v1 & -> & Bv1 & ->).
      apply matched_keyword in N3; [|reflexivity]. destruct N3 as (n & -> & Kn & ->).
      apply matched_blanks in N4. destruct N4 as (v2 & -> & Bv2 & ->).
      apply matched_keyword in N5; [|reflexivity]. destruct N5 as (e & -> & Ke & ->).
      apply matched_blanks in N6. destruct N6 as (v3 & -> & Bv3 & ->).
      exists (i ++ v1 ++ n ++ v2 ++ e ++ v3).
      split; [now rewrite !append_assoc|]. split; [|reflexivity].
      right. exists i, v1, n, v2, e, v3. auto 10.
    - exists EmptyString. split; [reflexivity|]. split; [now left | reflexivity]. }
  destruct H5 as (ine & E5 & I5 & C5).
  apply matched_opt_class in M6. destruct M6 as (q0 & E6 & C6 & Q6).
  apply matched_plus in M7. destruct M7 as (name & En & Hne & Hname & C7).
  apply matched_opt_class in M8. destruct M8 as (q & E8 & C8 & Q8).
  apply matched_chr in M10. destruct M10 as (E10 & C10).
  subst.
  exists (w1 ++ w2 ++ w3 ++ w4 ++ ine ++ q0 ++ name ++ q ++ ws), name.
  split; [now rewrite !append_assoc|].
  split.
  - exists w1, w2, w3, w4, ine, q0, q, ws. auto 15.
  - cbn [lookup Nat.eqb]. apply take_matched.
Qed.

(** Conversely the table-name pattern matches at every header that an open
    parenthesis follows. *)
Lemma tableHeader_matched (h name rest : string) :
  tableHeader h name ->
  exists caps, matched (Group 0 tableNameRegex) (h ++ String "(" rest) rest [] caps.
Proof.
  intros (c & w1 & t & w2 & ine & q0 & q & ws & -> & Kc & (N1 & B1) & Kt & (N2 & B2) &
          Hine & Hq0 & Hne & Hname & Hq & Hws).
  rewrite !append_assoc. unfold tableNameRegex, seqs. cbn [matched].
  eexists. eexists. split; [|reflexivity].
  eexists _, _. split; [apply keyword_matched; exact Kc|].
  eexists _, _. split; [apply run_matched; assumption|].
  eexists _, _. split; [apply keyword_matched; exact Kt|].
  eexists _, _. split; [apply run_matched; assumption|].
  eexists _, _. split.
  { unfold opt. cbn [matched].
    destruct Hine as [-> | (i & v1 & n & v2 & e & v3 & -> & Ki & (Nv1 & Bv1) & Kn &
                            (Nv2 & Bv2) & Ke & (Nv3 & Bv3))].
    - right. cbn [String.append]. split; reflexivity.
    - left. rewrite !append_assoc.
      eexists _, _. split; [apply keyword_matched; exact Ki|].
      eexists _, _. split; [apply run_matched; assumption|].
      eexists _, _. split; [apply keyword_matched; exact Kn|].
      eexists _, _. split; [apply run_matched; assumption|].
      eexists _, _. split; [apply keyword_matched; exact Ke|].
      apply run_matched; assumption. }
  eexists _, _. split; [apply optionalQuote_matched; exact Hq0|].
  eexists _, _. split.
  { eexists. split; [apply run_matched; assumption | reflexivity]. }
  eexists _, _. split; [apply optionalQuote_matched; exact Hq|].
  eexists _, _. split; [exists ws; auto|].
  unfold chr. cbn [matched]. exists "("%char. auto.
Qed.

(** *** A header names one table *)

Lemma append_same_length (a : string) :
  forall b x y,
    a ++ x = b ++ y -> String.length a = String.length b -> a = b /\ x = y.
Proof.
  induction a as [|c a IH]; intros [|d b] x y E L; simpl in *; try discriminate L.
  - now split.
  - inversion E. subst d. destruct (IH b x y) as (-> & ->); [assumption | lia|].
    now split.
Qed.

Lemma last_byte_of_cut (b : string) :
  forall a0 z m,
    a0 ++ String z "" = b ++ m -> m <> EmptyString ->
    exists m0, m = m0 ++ String z "".
Proof.
  induction b as [|c b IH]; intros a0 z m E Hm.
  - exists a0. now rewrite E.
  - destruct a0 as [|d a0]; simpl in E.
    + inversion E as [[Ec Eb]]. destruct b; [|discriminate Eb].
      simpl in Eb. now subst m.
    + inversion E. now apply (IH a0 z m).
Qed.

(** The part of a text up to its last byte of a class is the same however
    the text is cut there. *)
Lemma cut_after_last (e : ascii -> bool) (a y a' y' a0 a0' : string) (z z' : ascii) :
  a ++ y = a' ++ y' ->
  a = a0 ++ String z "" -> e z = true ->
  a' = a0' ++ String z' "" -> e z' = true ->
  hasByte e y = false -> hasByte e y' = false ->
  a = a' /\ y = y'.
Proof.
  intros E Ea Hz Ea' Hz' Hy Hy'.
  destruct (lt_eq_lt_dec (String.length a) (String.length a')) as [[L | L] | L].
  - exfalso. destruct (append_cut _ _ _ _ E L) as (m & Em & Hm & Ey).
    rewrite Ea' in Em. destruct (last_byte_of_cut _ _ _ _ Em Hm) as (m0 & ->).
    rewrite Ey, !hasByte_append in Hy. simpl in Hy. rewrite Hz' in Hy.
    rewrite orb_true_r in Hy. discriminate Hy.
  - now apply append_same_length.
  - exfalso. symmetry in E. destruct (append_cut _ _ _ _ E L) as (m & Em & Hm & Ey).
    rewrite Ea in Em. destruct (last_byte_of_cut _ _ _ _ Em Hm) as (m0 & ->).
    rewrite Ey, !hasByte_append in Hy'. simpl in Hy'. rewrite Hz in Hy'.
    rewrite orb_true_r in Hy'. discriminate Hy'.
Qed.

Lemma nonempty_run_last (p : ascii -> bool) (w : string) :
  w <> EmptyString -> allBytes p w = true ->
  exists w0 z, w = w0 ++ String z "" /\ p z = true.
Proof.
  induction w as [|x w IH]; intros Hne Hw; [contradiction|].
  simpl in Hw. apply andb_true_iff in Hw. destruct Hw as (Hx & Hw).
  destruct w as [|y w].
  - exists EmptyString, x. auto.
  - destruct IH as (w0 & z & E & Hz); [discriminate | exact Hw|].
    exists (String x w0), z. simpl. now rewrite <- E.
Qed.

Lemma allBytes_hasByte (p q : ascii -> bool) (w : string) :
  (forall x, p x = true -> q x = false) ->
  allBytes p w = true -> hasByte q w = false.
Proof.
  intros Hpq. induction w as [|x w IH]; intros Hw; [reflexivity|].
  simpl in *. apply andb_true_iff in Hw. destruct Hw as (Hx & Hw).
  now rewrite (Hpq x Hx), IH.
Qed.

Lemma reSpace_not_ident (x : ascii) : reSpace x = true -> identByte x = false.
Proof. by_bytes x. Qed.

Lemma quoteByte_not_ident (x : ascii) : quoteByte x = true -> identByte x = false.
Proof. by_bytes x. Qed.

Lemma optionalQuote_not_ident (q : string) :
  optionalQuote q -> hasByte identByte q = false.
Proof.
  intros [-> | (x & -> & Hx)]; [reflexivity|].
  simpl. now rewrite (quoteByte_not_ident x Hx).
Qed.

(** In a header the table name stands after a byte that is no letter, digit
    or underscore, and no such byte follows it. *)
Lemma tableHeader_shape (h name : string) :
  tableHeader h name ->
  exists X0 z Y,
    h = (X0 ++ String z "") ++ name ++ Y /\
    identByte z = false /\
    hasByte identByte Y = false /\
    name <> EmptyString /\ allBytes identByte name = true.
Proof.
  intros (c & w1 & t & w2 & ine & q0 & q & ws & -> & Kc & B1 & Kt & (N2 & B2) &
          Hine & Hq0 & Hne & Hname & Hq & Hws).
  assert (HY : hasByte identByte (q ++ ws) = false).
  { rewrite hasByte_append, (optionalQuote_not_ident q Hq).
    now rewrite (allBytes_hasByte reSpace identByte ws reSpace_not_ident Hws). }
  assert (HX : exists X0 z,
             c ++ w1 ++ t ++ w2 ++ ine ++ q0 = X0 ++ String z "" /\ identByte z = false).
  { destruct Hq0 as [-> | (x & -> & Hx)].
    - destruct Hine as [-> | (i & v1 & n & v2 & e & v3 & -> & _ & _ & _ & _ & _ & (N3 & B3))].
      + destruct (nonempty_run_last reSpace w2 N2 B2) as (w0 & z & -> & Hz).
        exists (c ++ w1 ++ t ++ w0), z.
        split; [now rewrite !append_empty_r, !append_assoc|].
        now apply reSpace_not_ident.
      + destruct (nonempty_run_last reSpace v3 N3 B3) as (w0 & z & -> & Hz).
        exists (c ++ w1 ++ t ++ w2 ++ i ++ v1 ++ n ++ v2 ++ e ++ w0), z.
        split; [now rewrite !append_empty_r, !append_assoc|].
        now apply reSpace_not_ident.
    - exists (c ++ w1 ++ t ++ w2 ++ ine), x.
      split; [now rewrite !append_assoc|]. now apply quoteByte_not_ident. }
  destruct HX as (X0 & z & EX & Hz).
  exists X0, z, (q ++ ws). rewrite <- EX.
  split; [now rewrite !append_assoc|]. auto.
Qed.

Lemma tableHeader_one_name (h name name' : string) :
  tableHeader h name -> tableHeader h name' -> name = name'.
Proof.
  intros H H'.
  destruct (tableHeader_shape _ _ H) as (X0 & z & Y & E & Hz & HY & Hne & Hn).
  destruct (tableHeader_shape _ _ H') as (X0' & z' & Y' & E' & Hz' & HY' & Hne' & Hn').
  destruct (nonempty_run_last identByte name Hne Hn) as (n0 & u & En & Hu).
  destruct (nonempty_run_last identByte name' Hne' Hn') as (n0' & u' & En' & Hu').
  rewrite E in E'. rewrite <- !append_assoc in E'.
  destruct (cut_after_last identByte _ _ _ _
              ((X0 ++ String z "") ++ n0) ((X0' ++ String z' "") ++ n0') u u' E')
    as (EA & _); try assumption;
    try (rewrite En; now rewrite !append_assoc);
    try (rewrite En'; now rewrite !append_assoc).
  destruct (cut_after_last (fun x => negb (identByte x)) _ _ _ _ X0 X0' z z' EA)
    as (_ & Ename); try reflexivity;
    try (now rewrite Hz); try (now rewrite Hz').
  - apply (allBytes_hasByte identByte); [|exact Hn]. now intros x ->.
  - apply (allBytes_hasByte identByte); [|exact Hn']. now intros x ->.
  - exact Ename.
Qed.

Lemma isOpenParen_toUpperByte (x : ascii) : isOpenParen (toUpperByte x) = isOpenParen x.
Proof. by_bytes x. Qed.

Lemma keyword_noOpenParen (kw w : string) :
  isKeyword kw w -> hasByte isOpenParen kw = false -> hasByte isOpenParen w = false.
Proof.
  unfold isKeyword. intros <-. induction w as [|x w IH]; [reflexivity|].
  change (strings.ToUpper (String x w))
    with (String (toUpperByte x) (strings.ToUpper w)).
  cbn [hasByte]. rewrite isOpenParen_toUpperByte. intros H.
  apply orb_false_iff in H. destruct H as (Hx & H).
  now rewrite Hx, (IH H).
Qed.

Lemma blanks_noOpenParen (w : string) :
  allBytes reSpace w = true -> hasByte isOpenParen w = false.
Proof. apply allBytes_hasByte. intros x. by_bytes x. Qed.

Lemma optionalQuote_noOpenParen (q : string) :
  optionalQuote q -> hasByte isOpenParen q = false.
Proof.
  intros [-> | (x & -> & Hx)]; [reflexivity|].
  simpl. revert Hx. by_bytes x.
Qed.

(** A header holds no open parenthesis: it ends where the first one
    stands. *)
Lemma tableHeader_noOpenParen (h name : string) :
  tableHeader h name -> hasByte isOpenParen h = false.
Proof.
  intros (c & w1 & t & w2 & ine & q0 & q & ws & -> & Kc & (_ & B1) & Kt & (_ & B2) &
          Hine & Hq0 & _ & Hname & Hq & Hws).
  rewrite !hasByte_append.
  rewrite (keyword_noOpenParen _ _ Kc eq_refl), (blanks_noOpenParen _ B1),
    (keyword_noOpenParen _ _ Kt eq_refl), (blanks_noOpenParen _ B2),
    (optionalQuote_noOpenParen _ Hq0), (optionalQuote_noOpenParen _ Hq),
    (blanks_noOpenParen _ Hws).
  rewrite (allBytes_hasByte identByte isOpenParen name) by (try exact Hname; intros x; by_bytes x).
  destruct Hine as [-> | (i & v1 & n & v2 & e & v3 & -> & Ki & (_ & C1) & Kn & (_ & C2) &
                          Ke & (_ & C3))]; [reflexivity|].
  rewrite !hasByte_append.
  now rewrite (keyword_noOpenParen _ _ Ki eq_refl), (blanks_noOpenParen _ C1),
    (keyword_noOpenParen _ _ Kn eq_refl), (blanks_noOpenParen _ C2),
    (keyword_noOpenParen _ _ Ke eq_refl), (blanks_noOpenParen _ C3).
Qed.

(** Two headers that begin at the same place of a text, each followed by an
    open parenthesis, name the same table. *)
Lemma tableHeader_unique (before before' h h' name name' rest rest' : string) :
  before ++ h ++ String "(" rest = before' ++ h' ++ String "(" rest' ->
  String.length before' = String.length before ->
  tableHeader h name -> tableHeader h' name' ->
  name' = name.
Proof.
  intros E L H H'.
  destruct (append_same_length _ _ _ _ E (eq_sym L)) as (_ & Eh).
  assert (h = h').
  { apply (run_before isOpenParen _ _ _ _ _ _ Eh);
      [now apply (tableHeader_noOpenParen h name)
      | now apply (tableHeader_noOpenParen h' name') | reflexivity | reflexivity]. }
  subst h'. now apply (tableHeader_one_name h).
Qed.

(** X2. The record of a successful Parse on ASCII input is named after the
    table of the first CREATE TABLE header of the normalized text: the text
    holds a header (CREATE, TABLE, an optional IF NOT EXISTS, the table
    identifier between optional quote characters, in any letter case and
    with white space between the words) followed by an open parenthesis, no
    header followed by an open parenthesis begins earlier in the text, every
    such header that begins at the same place names the same table, and the
    record name is the snake to Pascal conversion of that table
    identifier. *)
Theorem ParseSQL_record_name :
  forall (sql : string) (defs : list StructDef.t),
    asciiText sql = true ->
    ParseSQL sql = Ok defs ->
    let text := normalizeWhitespace (strings.TrimSpace sql) in
    exists before h tableName rest fields,
      text = before ++ h ++ String "(" rest /\
      tableHeader h tableName /\
      (forall before' h' name' rest',
          text = before' ++ h' ++ String "(" rest' ->
          tableHeader h' name' ->
          (String.length before <= String.length before')%nat /\
          (String.length before' = String.length before -> name' = tableName)) /\
      defs = [StructDef.mk (toPascalCase tableName) fields].
Proof.
  intros sql defs _ H text. unfold ParseSQL in H. fold text in H.
  unfold regexp.FindStringSubmatch in H.
  destruct (search (Group 0 tableNameRegex) None text) as [caps|] eqn:E;
    [|discriminate H].
  cbn [seq map length Nat.ltb Nat.leb nth] in H.
  apply bind_Ok in H. destruct H as (block & _ & H).
  destruct (parseColumns block) as [fields| |]; try discriminate H.
  inversion H. clear H.
  apply search_first in E. destruct E as (before & s0 & Et & (p & Hm) & Hfirst).
  apply exec_sound in Hm. destruct Hm as (p' & s' & caps' & M & K).
  unfold final in K. inversion K. subst caps'. clear K.
  apply tableNameRegex_header in M. destruct M as (h & name & -> & Hh & Hl).
  exists before, h, name, s', fields.
  split; [exact Et|]. split; [exact Hh|]. split; [|now rewrite <- Hl].
  intros before' h' name' rest' Et' Hh'. split.
  - destruct (le_lt_dec (String.length before) (String.length before')) as [L | L];
      [exact L|].
    exfalso. rewrite Et in Et'. symmetry in Et'.
    destruct (append_cut _ _ _ _ Et' L) as (m & Eb & Hm & Es).
    destruct (Hfirst before' m Eb Hm) as (q & Hnone).
    destruct (tableHeader_matched h' name' rest' Hh') as (caps' & M).
    rewrite <- Es in Hnone. revert Hnone.
    apply (exec_complete (Group 0 tableNameRegex)) with (s' := rest') (c' := caps');
      [reflexivity | exact M|].
    intros q'. discriminate.
  - intros L. rewrite Et in Et'.
    exact (tableHeader_unique _ _ _ _ _ _ _ _ Et' L Hh Hh').
Qed.

Lemma ParseSQL_record_name_witness :
  let text := normalizeWhitespace
                (strings.TrimSpace "create table `user_profiles` (id INT)") in
  exists before h tableName rest fields,
    text = before ++ h ++ String "(" rest /\
    tableHeader h tableName /\
    (forall before' h' name' rest',
        text = before' ++ h' ++ String "(" rest' ->
        tableHeader h' name' ->
        (String.length before <= String.length before')%nat /\
        (String.length before' = String.length before -> name' = tableName)) /\
    [StructDef.mk "UserProfiles" [FieldDef.mk "Id" "*int" "id"]]
    = [StructDef.mk (toPascalCase tableName) fields].
Proof.
  apply (ParseSQL_record_name "create table `user_profiles` (id INT)").
  - reflexivity.
  - vm_compute. reflexivity.
Defined.

(** ** The types of the fields *)

Lemma parseColumnDefinition_type (line : string) (field : FieldDef.t) :
  parseColumnDefinition line = Ok field ->
  exists tail nullable unsigned,
    extractDataType tail <> EmptyString /\
    FieldDef.Type_ field = mapSQLTypeToGo (extractDataType tail) nullable unsigned.
Proof.
  unfold parseColumnDefinition. intros H.
  apply bind_Ok in H. destruct H as ((name, tail) & _ & H).
  destruct (name =? "")%string; [discriminate H|].
  destruct (extractDataType tail =? "")%string eqn:T; [discriminate H|].
  apply bind_Ok in H. destruct H as (checkLine & _ & H).
  inversion H. subst field. simpl.
  eexists tail, _, _. split; [now apply String.eqb_neq | reflexivity].
Qed.

Lemma parsed_field_types (sql : string) (structName : string) (fields : list FieldDef.t) :
  ParseSQL sql = Ok [StructDef.mk structName fields] ->
  forall field, In field fields ->
    In (FieldDef.Type_ field) goBaseTypes \/
    exists base,
      In base goBaseTypes /\ base <> "[]byte" /\ FieldDef.Type_ field = "*" ++ base.
Proof.
  intros H field Hf. unfold ParseSQL in H.
  destruct (length _ <? 2)%nat; [discriminate H|].
  apply bind_Ok in H. destruct H as (block & _ & H).
  destruct (parseColumns block) as [fs0| |] eqn:P; try discriminate H.
  inversion H. subst fs0. clear H.
  unfold parseColumns in P. apply bind_Ok in P. destruct P as (fs & L & P).
  destruct (length fs =? 0)%nat; [discriminate P|]. inversion P. subst fs. clear P.
  destruct (parseColumns_loop_fields _ _ _ L field Hf) as [[] | (clause & _ & Hp)].
  apply parseColumnDefinition_type in Hp.
  destruct Hp as (tail & nullable & unsigned & _ & ->).
  destruct nullable; [|left; apply mapSQLTypeToGo_base].
  rewrite mapSQLTypeToGo_nullable.
  pose proof (mapSQLTypeToGo_base (extractDataType tail) unsigned) as Hb.
  destruct (mapSQLTypeToGo (extractDataType tail) false unsigned =? "[]byte")%string eqn:E.
  - left. simpl. auto 15.
  - right. eexists. split; [exact Hb|]. split; [now apply String.eqb_neq | reflexivity].
Qed.

Lemma ParseSQL_one_record (sql : string) (defs : list StructDef.t) :
  ParseSQL sql = Ok defs ->
  exists structName fields, defs = [StructDef.mk structName fields] /\ fields <> [].
Proof.
  unfold ParseSQL. destruct (length _ <? 2)%nat; [discriminate|].
  intros H. apply bind_Ok in H. destruct H as (block & _ & H).
  destruct (parseColumns_outcomes block) as [(fields & P & Hf) | [P | P]];
    rewrite P in H; try discriminate H.
  inversion H. eauto.
Qed.

(** X15. Every field of a record that Parse returns has one of the thirteen
    Go types of the type mapper, or a pointer to one of them other than the
    byte slice. *)
Theorem ParseSQL_field_types :
  forall (sql : string) (defs : list StructDef.t) (def : StructDef.t) (field : FieldDef.t),
    ParseSQL sql = Ok defs ->
    In def defs ->
    In field (StructDef.Fields def) ->
    In (FieldDef.Type_ field) goBaseTypes \/
    exists base,
      In base goBaseTypes /\ base <> "[]byte" /\ FieldDef.Type_ field = "*" ++ base.
Proof.
  intros sql defs def field H Hd Hf.
  destruct (ParseSQL_one_record _ _ H) as (structName & fields & -> & _).
  destruct Hd as [<- | []]. now apply (parsed_field_types sql structName fields).
Qed.

Lemma ParseSQL_field_types_witness :
  In "*uint32" goBaseTypes \/
  exists base, In base goBaseTypes /\ base <> "[]byte" /\ "*uint32" = "*" ++ base.
Proof.
  apply (ParseSQL_field_types "CREATE TABLE t (n INT UNSIGNED)"
           [StructDef.mk "T" [FieldDef.mk "N" "*uint32" "n"]]
           (StructDef.mk "T" [FieldDef.mk "N" "*uint32" "n"])
           (FieldDef.mk "N" "*uint32" "n")).
  - vm_compute. reflexivity.
  - simpl. auto.
  - simpl. auto.
Defined.

(** ** The generated text *)

Lemma generateStructTags_enabled (columnName : string) (config : Config) :
  exists name,
    toSnakeCase columnName = Ok name /\
    generateStructTags columnName config = Ok (strings.Join (enabledTags name config) " ").
Proof.
  destruct (toSnakeCase_lower columnName) as (name & E & _).
  exists name. split; [exact E|].
  unfold generateStructTags, enabledTags. rewrite E. cbn [bind].
  destruct config as [[] [] [] []]; reflexivity.
Qed.

(** X16. The tags of a field are those of the families switched on, always
    in the order JSON, DB, ORM, XML, separated by one space, each with the
    snake-case form of the column name; the tag text is empty exactly when no
    family is switched on. *)
Theorem generateStructTags_in_fixed_order :
  forall (columnName : string) (config : Config),
    exists name tags,
      toSnakeCase columnName = Ok name /\
      generateStructTags columnName config = Ok tags /\
      tags = strings.Join (enabledTags name config) " " /\
      (tags = EmptyString <-> noFlag config = true).
Proof.
  intros columnName config.
  destruct (generateStructTags_enabled columnName config) as (name & E & G).
  exists name, (strings.Join (enabledTags name config) " ").
  split; [exact E | split; [exact G | split; [reflexivity|]]].
  unfold enabledTags, noFlag.
  destruct config as [[] [] [] []]; simpl; split; intros H;
    try reflexivity; try discriminate H.
Qed.

Lemma iter_blank (n : nat) :
  allBytes isBlank (Nat.iter n (fun acc => " " ++ acc) EmptyString) = true /\
  String.length (Nat.iter n (fun acc => " " ++ acc) EmptyString) = n.
Proof.
  induction n as [|n (A & L)]; [split; reflexivity|].
  change (Nat.iter (S n) (fun acc => " " ++ acc) EmptyString)
    with (String " " (Nat.iter n (fun acc => " " ++ acc) EmptyString)).
  cbn [allBytes String.length]. rewrite A, L. split; reflexivity.
Qed.

Lemma Repeat_blank (count : Z) :
  0 <= count ->
  exists pad,
    strings.Repeat " " count = Ok pad /\ allBytes isBlank pad = true /\ len pad = count.
Proof.
  intros H. unfold strings.Repeat.
  destruct (count <? 0) eqn:E; [apply Z.ltb_lt in E; lia|].
  destruct (iter_blank (Z.to_nat count)) as (A & L).
  eexists. split; [reflexivity|]. split; [exact A|]. unfold len. rewrite L. lia.
Qed.

Ltac string_norm :=
  repeat first [rewrite !append_assoc | progress cbn [String.append]].

Lemma generateFields_lines (config : Config) (n t : Z) (fields : list FieldDef.t) :
  forall output,
    (forall f, In f fields ->
       len (FieldDef.Name f) <= n /\ len (FieldDef.Type_ f) <= t) ->
    exists lines,
      generateFields fields config n t output = Ok (output ++ concatAll lines) /\
      Forall2 (alignedLine n t config) fields lines.
Proof.
  induction fields as [|field fields IH]; intros output Hall.
  - exists []. simpl. rewrite append_empty_r. split; [reflexivity | constructor].
  - destruct (Hall field (or_introl eq_refl)) as (Hn & Ht).
    destruct (Repeat_blank (n - len (FieldDef.Name field) + 1)) as (p1 & E1 & B1 & L1); [lia|].
    destruct (Repeat_blank (t - len (FieldDef.Type_ field) + 1)) as (p2 & E2 & B2 & L2); [lia|].
    destruct (generateStructTags_returns (FieldDef.ColumnName field) config) as (tags & Et).
    cbn [generateFields]. rewrite E1. cbn [bind]. rewrite Et. cbn [bind].
    destruct (tags =? "")%string eqn:Etag; cbn [negb].
    + apply String.eqb_eq in Etag. cbn [bind].
      match goal with
      | |- context [generateFields fields config n t ?o] =>
          destruct (IH o) as (lines & G & F);
            [intros f Hf; apply Hall; now right|]
      end.
      exists ((String tab (FieldDef.Name field) ++ p1 ++ FieldDef.Type_ field
               ++ EmptyString ++ lineEnd) :: lines).
      split.
      * rewrite G. f_equal. cbn [concatAll]. string_norm. reflexivity.
      * constructor; [|exact F].
        exists p1, EmptyString. split; [reflexivity|]. split; [exact B1|].
        split; [lia|]. exists tags. split; [exact Et|]. left. auto.
    + apply String.eqb_neq in Etag. rewrite E2. cbn [bind].
      match goal with
      | |- context [generateFields fields config n t ?o] =>
          destruct (IH o) as (lines & G & F);
            [intros f Hf; apply Hall; now right|]
      end.
      exists ((String tab (FieldDef.Name field) ++ p1 ++ FieldDef.Type_ field
               ++ (p2 ++ "`" ++ tags ++ "`") ++ lineEnd) :: lines).
      split.
      * rewrite G. f_equal. cbn [concatAll]. string_norm. reflexivity.
      * constructor; [|exact F].
        exists p1, (p2 ++ "`" ++ tags ++ "`"). split; [reflexivity|]. split; [exact B1|].
        split; [lia|]. exists tags. split; [exact Et|]. right.
        split; [exact Etag|]. exists p2. split; [reflexivity|]. split; [exact B2 | lia].
Qed.

Lemma calculateAlignment_attained (fields : list FieldDef.t) :
  forall n0 t0 n t,
    fold_left
      (fun '(maxNameLen, maxTypeLen) field =>
         (if maxNameLen <? len (FieldDef.Name field)
          then len (FieldDef.Name field) else maxNameLen,
          if maxTypeLen <? len (FieldDef.Type_ field)
          then len (FieldDef.Type_ field) else maxTypeLen))
      fields (n0, t0) = (n, t) ->
    (n = n0 \/ exists f, In f fields /\ len (FieldDef.Name f) = n) /\
    (t = t0 \/ exists f, In f fields /\ len (FieldDef.Type_ f) = t).
Proof.
  induction fields as [|g fields IH]; intros n0 t0 n t H; simpl in H.
  - inversion H. auto.
  - apply IH in H. destruct H as (Hn & Ht). split.
    + destruct Hn as [-> | (f & Hf & E)].
      * destruct (n0 <? len (FieldDef.Name g)); [right; exists g; simpl; auto | now left].
      * right. exists f. simpl. auto.
    + destruct Ht as [-> | (f & Hf & E)].
      * destruct (t0 <? len (FieldDef.Type_ g)); [right; exists g; simpl; auto | now left].
      * right. exists f. simpl. auto.
Qed.

(** X17. The alignment widths are the maxima: the greatest length of a
    field name and the greatest length of a field type, each at least the
    length of every field's and reached by some field, or zero when there is
    no field. *)
Theorem calculateAlignment_maxima :
  forall (fields : list FieldDef.t) (maxNameLen maxTypeLen : Z),
    calculateAlignment fields = (maxNameLen, maxTypeLen) ->
    (forall f, In f fields ->
       len (FieldDef.Name f) <= maxNameLen /\ len (FieldDef.Type_ f) <= maxTypeLen) /\
    (maxNameLen = 0 \/ exists f, In f fields /\ len (FieldDef.Name f) = maxNameLen) /\
    (maxTypeLen = 0 \/ exists f, In f fields /\ len (FieldDef.Type_ f) = maxTypeLen).
Proof.
  intros fields n t H. unfold calculateAlignment in H. split.
  - now apply calculateAlignment_bounds in H.
  - now apply calculateAlignment_attained in H.
Qed.

Lemma calculateAlignment_maxima_witness :
  (forall f, In f [FieldDef.mk "Id" "int" "id"; FieldDef.mk "Email" "*string" "email"] ->
     len (FieldDef.Name f) <= 5 /\ len (FieldDef.Type_ f) <= 7) /\
  (5 = 0 \/ exists f,
      In f [FieldDef.mk "Id" "int" "id"; FieldDef.mk "Email" "*string" "email"] /\
      len (FieldDef.Name f) = 5) /\
  (7 = 0 \/ exists f,
      In f [FieldDef.mk "Id" "int" "id"; FieldDef.mk "Email" "*string" "email"] /\
      len (FieldDef.Type_ f) = 7).
Proof.
  apply (calculateAlignment_maxima
           [FieldDef.mk "Id" "int" "id"; FieldDef.mk "Email" "*string" "email"]).
  reflexivity.
Defined.

Lemma generateStruct_lines (def : StructDef.t) (config : Config) :
  exists lines,
    generateStruct def config
    = Ok ("type " ++ StructDef.Name def ++ " struct {" ++ lineEnd
          ++ concatAll lines ++ "}" ++ lineEnd) /\
    Forall2 (alignedLine (fst (calculateAlignment (StructDef.Fields def)))
                         (snd (calculateAlignment (StructDef.Fields def))) config)
            (StructDef.Fields def) lines.
Proof.
  unfold generateStruct.
  destruct (StructDef.Fields def) as [|f fs] eqn:Ef.
  - exists []. cbn [length Nat.eqb concatAll]. split; [|constructor].
    f_equal. string_norm. reflexivity.
  - rewrite <- Ef. replace (length (StructDef.Fields def) =? 0)%nat with false
      by (rewrite Ef; reflexivity).
    destruct (calculateAlignment (StructDef.Fields def)) as (n, t) eqn:E.
    pose proof E as Hb. apply calculateAlignment_bounds in Hb. destruct Hb as (_ & _ & Hall).
    destruct (generateFields_lines config n t (StructDef.Fields def)
                ("type " ++ StructDef.Name def ++ " struct {" ++ lineEnd) Hall)
      as (lines & G & F).
    exists lines. rewrite G. cbn [bind fst snd]. split; [|exact F].
    f_equal. string_norm. reflexivity.
Qed.

(** X18. A generated declaration is the line type Name struct, one line per
    field in the order of the fields, and the closing brace.  In every field
    line the type begins at the same column, one blank after the longest
    field name, and the tags, when there are any, begin at the same column,
    one blank after the longest type; without tags nothing follows the
    type. *)
Theorem generateStruct_aligned :
  forall (def : StructDef.t) (config : Config),
    exists lines,
      generateStruct def config
      = Ok ("type " ++ StructDef.Name def ++ " struct {" ++ lineEnd
            ++ concatAll lines ++ "}" ++ lineEnd) /\
      Forall2 (alignedLine (fst (calculateAlignment (StructDef.Fields def)))
                           (snd (calculateAlignment (StructDef.Fields def))) config)
              (StructDef.Fields def) lines.
Proof. intros def config. apply generateStruct_lines. Qed.

(** ** The whole output *)

Lemma Join_cons (p : string) (ps : list string) (sep : string) :
  strings.Join (p :: ps) sep = p ++ concatAll (map (fun t => sep ++ t) ps).
Proof.
  revert p. induction ps as [|q ps IH]; intros p.
  - simpl. now rewrite append_empty_r.
  - change (strings.Join (p :: q :: ps) sep) with (p ++ sep ++ strings.Join (q :: ps) sep).
    cbn [map concatAll]. rewrite IH. now rewrite !append_assoc.
Qed.

Lemma generateStructs_later (config : Config) (defs : list StructDef.t) :
  forall i output,
    0 < i ->
    exists texts,
      Forall2 (fun def text => generateStruct def config = Ok text) defs texts /\
      generateStructs defs config i output
      = Ok (output ++ concatAll (map (fun t => lineEnd ++ t) texts)).
Proof.
  induction defs as [|def defs IH]; intros i output Hi.
  - exists []. split; [constructor|]. simpl. now rewrite append_empty_r.
  - destruct (generateStruct_returns def config) as (text & Et).
    destruct (IH (i + 1) ((output ++ lineEnd) ++ text)) as (texts & F & G); [lia|].
    exists (text :: texts). split; [now constructor|].
    cbn [generateStructs]. replace (0 <? i) with true by (symmetry; apply Z.ltb_lt; lia).
    rewrite Et. cbn [bind]. rewrite G. f_equal. cbn [map concatAll].
    now rewrite !append_assoc.
Qed.

(** X19. For at least one record the generated text is the package line, a
    blank line, then the import of the time package and a blank line exactly
    when some field type contains time.Time, then the declarations of the
    records in their order, each one as the struct generator writes it, with
    one blank line between two of them. *)
Theorem GenerateGoCode_layout :
  forall (defs : list StructDef.t) (config : Config),
    defs <> [] ->
    exists texts,
      Forall2 (fun def text => generateStruct def config = Ok text) defs texts /\
      GenerateGoCode defs config = Ok (header defs ++ strings.Join texts lineEnd).
Proof.
  intros defs config Hne. destruct defs as [|def defs]; [contradiction|].
  unfold GenerateGoCode. cbn [length Nat.eqb].
  destruct (generateStruct_returns def config) as (text & Et).
  cbn [generateStructs]. change (0 <? 0) with false. cbv iota. rewrite Et. cbn [bind].
  match goal with
  | |- context [generateStructs defs config (0 + 1) ?o] =>
      destruct (generateStructs_later config defs (0 + 1) o) as (texts & F & G); [lia|]
  end.
  exists (text :: texts). split; [now constructor|].
  rewrite G, Join_cons. f_equal. unfold header.
  destruct (needsTimeImport (def :: defs)); now rewrite !append_assoc.
Qed.

Lemma GenerateGoCode_layout_witness :
  exists texts,
    Forall2 (fun def text => generateStruct def noTags = Ok text)
      [StructDef.mk "A" []; StructDef.mk "B" []] texts /\
    GenerateGoCode [StructDef.mk "A" []; StructDef.mk "B" []] noTags
    = Ok (header [StructDef.mk "A" []; StructDef.mk "B" []] ++ strings.Join texts lineEnd).
Proof.
  apply (GenerateGoCode_layout [StructDef.mk "A" []; StructDef.mk "B" []] noTags).
  discriminate.
Defined.

Lemma time_type_contains (ty : string) :
  In ty goBaseTypes \/ (exists base, In base goBaseTypes /\ ty = "*" ++ base) ->
  strings.Contains ty "time.Time" = (ty =? "time.Time")%string || (ty =? "*time.Time")%string.
Proof.
  unfold goBaseTypes. intros [H | (base & H & ->)]; simpl in H;
    repeat (destruct H as [<- | H]; [vm_compute; reflexivity|]); destruct H.
Qed.

(** X20. Parse and Generate together: after a successful Parse, Generate
    does not fail, whatever the configuration; its text is the package line,
    the import of the time package exactly when some field has the type
    time.Time or a pointer to it, and the declaration of the one record with
    one aligned line for each of its fields. *)
Theorem Generate_after_Parse :
  forall (sql : string) (defs : list StructDef.t) (config : Config),
    ParseSQL sql = Ok defs ->
    exists def lines,
      defs = [def] /\
      GenerateGoCode defs config
      = Ok (header defs ++ "type " ++ StructDef.Name def ++ " struct {" ++ lineEnd
            ++ concatAll lines ++ "}" ++ lineEnd) /\
      Forall2 (alignedLine (fst (calculateAlignment (StructDef.Fields def)))
                           (snd (calculateAlignment (StructDef.Fields def))) config)
              (StructDef.Fields def) lines /\
      lines <> [] /\
      (needsTimeImport defs = true <->
       exists field, In field (StructDef.Fields def) /\
         (FieldDef.Type_ field = "time.Time" \/ FieldDef.Type_ field = "*time.Time")).
Proof.
  intros sql defs config H.
  destruct (ParseSQL_one_record _ _ H) as (structName & fields & -> & Hne).
  destruct (generateStruct_lines (StructDef.mk structName fields) config) as (lines & G & F).
  exists (StructDef.mk structName fields), lines.
  split; [reflexivity|]. split; [|split; [exact F|split]].
  - unfold GenerateGoCode. cbn [length Nat.eqb generateStructs].
    change (0 <? 0) with false. cbv iota. rewrite G. cbn [bind]. f_equal.
    unfold header. destruct (needsTimeImport _); now rewrite !append_assoc.
  - cbn [StructDef.Fields] in F. inversion F; subst; [contradiction | discriminate].
  - unfold needsTimeImport. cbn [existsb StructDef.Fields]. rewrite orb_false_r.
    rewrite existsb_exists. split.
    + intros (field & Hin & Hc). exists field. split; [exact Hin|].
      rewrite time_type_contains in Hc.
      * apply orb_true_iff in Hc. destruct Hc as [Hc | Hc]; apply String.eqb_eq in Hc; auto.
      * destruct (parsed_field_types _ _ _ H field Hin) as [Hb | (base & Hb & _ & E)];
          [now left | right; eauto].
    + intros (field & Hin & [E | E]); exists field; (split; [exact Hin|]);
        rewrite E; vm_compute; reflexivity.
Qed.

Lemma Generate_after_Parse_witness :
  exists def lines,
    [StructDef.mk "T" [FieldDef.mk "At" "time.Time" "at"]] = [def] /\
    GenerateGoCode [StructDef.mk "T" [FieldDef.mk "At" "time.Time" "at"]] noTags
    = Ok (header [StructDef.mk "T" [FieldDef.mk "At" "time.Time" "at"]]
          ++ "type " ++ StructDef.Name def ++ " struct {" ++ lineEnd
          ++ concatAll lines ++ "}" ++ lineEnd) /\
    Forall2 (alignedLine (fst (calculateAlignment (StructDef.Fields def)))
                         (snd (calculateAlignment (StructDef.Fields def))) noTags)
            (StructDef.Fields def) lines /\
    lines <> [] /\
    (needsTimeImport [StructDef.mk "T" [FieldDef.mk "At" "time.Time" "at"]] = true <->
     exists field, In field (StructDef.Fields def) /\
       (FieldDef.Type_ field = "time.Time" \/ FieldDef.Type_ field = "*time.Time")).
Proof.
  apply (Generate_after_Parse "CREATE TABLE t (at DATETIME NOT NULL)").
  vm_compute. reflexivity.
Defined.

(** ** What reaches the NOT NULL test *)

(** X21. For an ASCII tail.  Without DEFAULT in the tail, the text tested
    for NOT NULL is the trimmed tail before COMMENT (the whole tail when
    there is no COMMENT).
    With a DEFAULT whose value begins with a quote (and a COMMENT, if any,
    beginning after the keyword DEFAULT), it is the tail before DEFAULT
    followed by what comes after the closing quote, so that a NOT NULL after
    the value is kept; when the quote is never closed, it is the tail before
    DEFAULT alone. *)
Theorem removeCommentsAndDefaults_quoted_default :
  forall (line : string) (q : ascii) (value : string),
    asciiText line = true ->
    let upperLine := strings.ToUpper line in
    let comment := strings.Index upperLine "COMMENT" in
    let idx := strings.Index upperLine "DEFAULT" in
    let cut := if comment =? -1 then line else take (Z.to_nat comment) line in
    (idx = -1 -> removeCommentsAndDefaults line = Ok (strings.TrimSpace cut)) /\
    (0 <= idx ->
     comment = -1 \/ idx + 7 <= comment ->
     strings.TrimSpace (drop (Z.to_nat (idx + 7)) cut) = String q value ->
     (q =? "'")%char || (q =? dquote)%char = true ->
     let closing := strings.Index value (String q "") in
     removeCommentsAndDefaults line
     = Ok (strings.TrimSpace
             (if closing =? -1 then take (Z.to_nat idx) line
              else take (Z.to_nat idx) line ++ drop (Z.to_nat (closing + 1)) value))).
Proof.
  intros line q value _ upperLine comment idx cut.
  pose proof (Index_le_len upperLine "COMMENT") as Lc. fold comment in Lc.
  pose proof (Index_range upperLine "COMMENT") as Rc. fold comment in Rc.
  assert (Hl : len upperLine = len line)
    by (unfold len, upperLine, strings.ToUpper; now rewrite length_smap).
  rewrite Hl in Lc.
  split.
  - intros Hi. unfold removeCommentsAndDefaults. fold upperLine. fold comment. fold idx.
    rewrite Hi. unfold cut.
    destruct (Z.eqb_spec comment (-1)) as [E | E]; cbn [negb bind].
    + reflexivity.
    + rewrite slice_to_in_range by lia. reflexivity.
  - intros Hd Hc Hrest Hq closing.
    pose proof (Index_found_fits upperLine "DEFAULT" Hd) as Hfit. fold idx in Hfit.
    rewrite Hl in Hfit. change (len "DEFAULT") with 7 in Hfit.
    assert (Lcut : idx + 7 <= len cut /\ take (Z.to_nat idx) cut = take (Z.to_nat idx) line).
    { unfold cut. destruct (Z.eqb_spec comment (-1)) as [E | E]; [split; [lia | reflexivity]|].
      destruct Hc as [Hc | Hc]; [contradiction|].
      unfold len in *. rewrite length_take by lia. split; [lia|].
      apply take_take. lia. }
    destruct Lcut as (Lcut & Tcut).
    unfold removeCommentsAndDefaults. fold upperLine. fold comment. fold idx.
    replace (if negb (comment =? -1) then slice_to line comment else Ok line) with (Ok cut).
    2:{ unfold cut. destruct (Z.eqb_spec comment (-1)) as [E | E]; cbn [negb];
          [reflexivity | now rewrite slice_to_in_range by lia]. }
    cbn [bind].
    replace (idx =? -1) with false by (symmetry; apply Z.eqb_neq; lia).
    cbn [negb]. unfold removeDefault.
    rewrite slice_from_in_range by lia. cbn [bind]. cbv beta zeta.
    rewrite Hrest, Hq. rewrite len_cons. pose proof (len_nonneg value) as Hv.
    replace (0 <? 1 + len value) with true by (symmetry; apply Z.ltb_lt; lia).
    cbn [andb]. rewrite byte_at_head. cbn [bind].
    rewrite slice_from_in_range by (rewrite len_cons; lia). cbn [bind].
    change (drop (Z.to_nat 1) (String q value)) with value. fold closing.
    pose proof (Index_range value (String q "")) as Rq. fold closing in Rq.
    destruct (Z.eqb_spec closing (-1)) as [E | E]; cbn [negb].
    + rewrite slice_to_in_range by lia. cbn [bind]. now rewrite Tcut.
    + assert (F : closing + 1 <= len value)
        by (apply (Index_found_fits value (String q "")); fold closing; lia).
      rewrite slice_to_in_range by lia. cbn [bind].
      rewrite slice_from_in_range by (rewrite len_cons; lia). cbn [bind].
      rewrite Tcut.
      replace (Z.to_nat (closing + 2)) with (S (Z.to_nat (closing + 1))) by lia.
      reflexivity.
Qed.

Lemma removeCommentsAndDefaults_quoted_witness :
  removeCommentsAndDefaults "TEXT DEFAULT 'NOT NULL' NOT NULL COMMENT 'c'"
  = Ok (strings.TrimSpace
          (if strings.Index "NOT NULL' NOT NULL" "'" =? -1 then take (Z.to_nat 5) "TEXT DEFAULT 'NOT NULL' NOT NULL COMMENT 'c'"
           else take (Z.to_nat 5) "TEXT DEFAULT 'NOT NULL' NOT NULL COMMENT 'c'"
                ++ drop (Z.to_nat (strings.Index "NOT NULL' NOT NULL" "'" + 1))
                     "NOT NULL' NOT NULL")).
Proof.
  apply (proj2 (removeCommentsAndDefaults_quoted_default
                  "TEXT DEFAULT 'NOT NULL' NOT NULL COMMENT 'c'" "'" "NOT NULL' NOT NULL"
                  eq_refl)).
  - vm_compute. discriminate.
  - right. vm_compute. discriminate.
  - vm_compute. reflexivity.
  - reflexivity.
Defined.

Example quoted_default_keeps_NOT_NULL :
  parseColumnDefinition "s TEXT DEFAULT 'NOT NULL'" = Ok (FieldDef.mk "S" "*string" "s") /\
  parseColumnDefinition "s TEXT DEFAULT 'x' NOT NULL" = Ok (FieldDef.mk "S" "string" "s").
Proof. vm_compute. split; reflexivity. Qed.
